(** * Environment adapters and set-transformer pooling of dreamerv2

    A shallow embedding of [common/envs.py] and of
    [common/models/set_transformer.py].

    - Python objects are records of their fields; a method is a function in
      the monad [M] below, which threads the object's state, collects the
      synchronisation events and external calls the method performs, and
      returns either a raised exception or a value.
    - Python dicts are insertion-ordered association lists with unique keys.
    - a numpy float of the adapters is an exact rational, an infinity or
      nan, and a float array a list of them; the tensors of the attention
      module are nested lists of real numbers.
    - What pysc2, gym, dm_control and Keras provide is not part of the two
      files: their tables, simulators and trained weights are record
      parameters. *)

From Stdlib Require Import ZArith QArith Qabs Reals Lra Lqa Lia Permutation.
From stdpp Require Import base list strings pretty.

Open Scope Z_scope.

(** ** Python runtime: exceptions, events, the method monad *)

Inductive exn : Type :=
  | AssertionError (msg : string)
  | KeyError (key : string)
  | IndexError
  | ValueError (msg : string)
  | TypeError (msg : string)
  | AttributeError (name : string)
  | UnboundLocalError (name : string)
  | SimulatorError (msg : string).

Abbreviation result A := (exn + A)%type.

(** What a method does besides computing: taking and releasing a
    [threading.Lock], and calling into an external library. *)
Inductive event : Type :=
  | Acquire (lock : string)
  | Release (lock : string)
  | Call (target : string).

Definition is_lock_event (e : event) : bool :=
  match e with
  | Acquire _ | Release _ => true
  | Call _ => false
  end.

Definition M (S A : Type) : Type := S → list event * S * result A.

Definition ret {S A} (a : A) : M S A := λ s, ([], s, inr a).

Definition raise {S A} (e : exn) : M S A := λ s, ([], s, inl e).

Definition bind {S A B} (m : M S A) (k : A → M S B) : M S B :=
  λ s, match m s with
       | (tr, s', inl e) => (tr, s', inl e)
       | (tr, s', inr a) =>
           match k a s' with
           | (tr', s'', r) => (tr ++ tr', s'', r)
           end
       end.

Definition get {S} : M S S := λ s, ([], s, inr s).
Definition put {S} (s : S) : M S unit := λ _, ([], s, inr tt).
Definition lift_result {S A} (r : result A) : M S A := λ s, ([], s, r).

Definition from_option {A} (e : exn) (o : option A) : result A :=
  match o with
  | Some a => inr a
  | None => inl e
  end.

Notation "'let*' x ':=' m 'in' k" := (bind m (λ x, k))
  (at level 10, x pattern, m at level 100, k at level 200, only parsing).
Notation "'run' m 'then' k" := (bind m (λ _, k))
  (at level 10, m at level 100, k at level 200, only parsing).

(** [with lock: body]: the lock is released on every exit of the body. *)
Definition with_lock {S A} (lock : string) (body : M S A) : M S A :=
  λ s, match body s with
       | (tr, s', r) => ([Acquire lock] ++ tr ++ [Release lock], s', r)
       end.

(** The three components of running a method from a state. *)
Definition trace {S A} (m : M S A) (s : S) : list event := (m s).1.1.
Definition outcome {S A} (m : M S A) (s : S) : result A := (m s).2.
Definition final {S A} (m : M S A) (s : S) : S := (m s).1.2.

(** Binding in the exception monad without state. *)
Definition rbind {A B} (r : result A) (k : A → result B) : result B :=
  match r with
  | inl e => inl e
  | inr a => k a
  end.

Fixpoint mapR {A B} (f : A → result B) (l : list A) : result (list B) :=
  match l with
  | [] => inr []
  | x :: l' => rbind (f x) (λ y, rbind (mapR f l') (λ ys, inr (y :: ys)))
  end.

(** ** Python dicts: insertion-ordered, one entry per key *)

Abbreviation dict K V := (list (K * V)).

Section dict.
Context {K V : Type} `{EqDecision K}.

(** [d[k]] and [d.get(k)] *)
Fixpoint dict_get (k : K) (d : dict K V) : option V :=
  match d with
  | [] => None
  | (k', v) :: d' => if decide (k = k') then Some v else dict_get k d'
  end.

(** [d[k] = v]: an existing key keeps its place, a new one goes last. *)
Fixpoint dict_set (k : K) (v : V) (d : dict K V) : dict K V :=
  match d with
  | [] => [(k, v)]
  | (k', v') :: d' =>
      if decide (k = k') then (k', v) :: d' else (k', v') :: dict_set k v d'
  end.

(** [k in d] *)
Definition dict_mem (k : K) (d : dict K V) : bool :=
  match dict_get k d with
  | Some _ => true
  | None => false
  end.

(** [dict(items)] and [{**d, ...}] *)
Definition dict_update (d : dict K V) (items : list (K * V)) : dict K V :=
  foldl (λ acc kv, dict_set kv.1 kv.2 acc) d items.

Definition dict_of_items (items : list (K * V)) : dict K V :=
  dict_update [] items.

Definition dict_keys (d : dict K V) : list K := d.*1.
End dict.

(** ** numpy floats and the values crossing the environment interface *)

(** A float is an exact rational, an infinity, or nan. Rounding is not
    modelled. *)
Inductive num : Type :=
  | Finite (q : Q)
  | PosInf
  | NegInf
  | NaN.

Definition isfinite (x : num) : bool :=
  match x with
  | Finite _ => true
  | _ => false
  end.

Definition num_eq (x y : num) : Prop :=
  match x, y with
  | Finite a, Finite b => (a == b)%Q
  | PosInf, PosInf | NegInf, NegInf => True
  | _, _ => False
  end.

(** IEEE comparison and equality: anything involving nan is false. *)
Definition num_eqb (x y : num) : bool :=
  match x, y with
  | Finite a, Finite b => Qeq_bool a b
  | PosInf, PosInf | NegInf, NegInf => true
  | _, _ => false
  end.

Definition num_ltb (x y : num) : bool :=
  match x, y with
  | Finite a, Finite b => negb (Qle_bool b a)
  | NegInf, Finite _ | NegInf, PosInf | Finite _, PosInf => true
  | _, _ => false
  end.

Definition Qsign (q : Q) : Z := Z.sgn (Qnum q).

Definition inf_of_sign (s : Z) : num :=
  if s =? 0 then NaN else if 0 <? s then PosInf else NegInf.

Definition num_sign (x : num) : option Z :=
  match x with
  | Finite q => Some (Qsign q)
  | PosInf => Some 1
  | NegInf => Some (-1)
  | NaN => None
  end.

Definition num_neg (x : num) : num :=
  match x with
  | Finite q => Finite (- q)
  | PosInf => NegInf
  | NegInf => PosInf
  | NaN => NaN
  end.

Definition num_add (x y : num) : num :=
  match x, y with
  | Finite a, Finite b => Finite (a + b)
  | NaN, _ | _, NaN => NaN
  | PosInf, NegInf | NegInf, PosInf => NaN
  | PosInf, _ | _, PosInf => PosInf
  | NegInf, _ | _, NegInf => NegInf
  end.

Definition num_sub (x y : num) : num := num_add x (num_neg y).

Definition num_mul (x y : num) : num :=
  match x, y with
  | Finite a, Finite b => Finite (a * b)
  | _, _ =>
      match num_sign x, num_sign y with
      | Some s, Some t => inf_of_sign (s * t)
      | _, _ => NaN
      end
  end.

Definition num_div (x y : num) : num :=
  match x, y with
  | NaN, _ | _, NaN => NaN
  | Finite a, Finite b =>
      if Qeq_bool b 0 then inf_of_sign (Qsign a) else Finite (a / b)
  | Finite _, _ => Finite 0
  | _, Finite b =>
      match num_sign x with
      | Some s => inf_of_sign (s * (if Qeq_bool b 0 then 1 else Qsign b))
      | None => NaN
      end
  | _, _ => NaN
  end.

#[local] Set Warnings "-register-all".
Inductive value : Type :=
  | VNone
  | VBool (b : bool)
  | VInt (n : Z)
  | VFloat (x : num)
  | VStr (s : string)
  | VArray (xs : list num)                   (* 1-D float ndarray *)
  | VIntArray (xs : list Z)                  (* 1-D integer ndarray *)
  | VIntArray2 (rows : list (list Z))        (* 2-D integer ndarray *)
  | VIntArray3 (planes : list (list (list Z)))
  | VImage (shape : list nat) (pixels : nat) (* a frame of a simulator *)
  | VTuple (items : list value)
  | VDict (items : list (string * value)).

(** [a, b, c, d = v] *)
Definition iterate (v : value) : result (list value) :=
  match v with
  | VTuple items => inr items
  | VArray xs => inr (VFloat <$> xs)
  | VIntArray xs => inr (VInt <$> xs)
  | VIntArray2 rows => inr (VIntArray <$> rows)
  | VIntArray3 planes => inr (VIntArray2 <$> planes)
  | VDict items => inr (VStr <$> items.*1)
  | _ => inl (TypeError "cannot unpack non-iterable object")
  end.

Definition unpack4 (v : value) : result (value * value * value * value) :=
  rbind (iterate v) (λ items,
    match items with
    | [a; b; c; d] => inr (a, b, c, d)
    | _ => inl (ValueError "wrong number of values to unpack")
    end).

(** [v[key]] for a string key and [v[key] = x] *)
Definition getitem (v : value) (key : string) : result value :=
  match v with
  | VDict items => from_option (KeyError key) (dict_get key items)
  | _ => inl (TypeError "object is not subscriptable by a string")
  end.

Definition setitem (v : value) (key : string) (x : value) : result value :=
  match v with
  | VDict items => inr (VDict (dict_set key x items))
  | _ => inl (TypeError "object does not support item assignment")
  end.

(** [key in v]; the adapters only ask this of dicts. *)
Definition contains (v : value) (key : string) : result bool :=
  match v with
  | VDict items => inr (dict_mem key items)
  | _ => inl (TypeError "argument is not a dict")
  end.

(** ** The numpy operations the adapters use, on 1-D arrays *)

(** Broadcasting of two 1-D operands; a Python scalar is a one-element
    operand. *)
Definition broadcast2 {A B C} (f : A → B → C) (xs : list A) (ys : list B)
    : result (list C) :=
  if decide (length xs = length ys) then inr (zip_with f xs ys)
  else match xs, ys with
       | [x], _ => inr (f x <$> ys)
       | _, [y] => inr ((λ x, f x y) <$> xs)
       | _, _ => inl (ValueError "operands could not be broadcast together")
       end.

Definition np_where {A} (mask : list bool) (xs ys : list A) : result (list A) :=
  rbind (broadcast2 pair xs ys) (λ ps,
    broadcast2 (λ (m : bool) (p : A * A), if m then p.1 else p.2) mask ps).

Definition ones_like {A} (xs : list A) : list num := (λ _, Finite 1) <$> xs.
Definition zeros_like {A} (xs : list A) : list num := (λ _, Finite 0) <$> xs.

(** [np.argmax]: the first index of the maximum; a nan counts as maximal. *)
Definition argmax_takes (best x : num) : bool :=
  match best, x with
  | NaN, _ => false
  | _, NaN => true
  | _, _ => num_ltb best x
  end.

Fixpoint argmax_from (best_i : nat) (best : num) (i : nat) (xs : list num) : nat :=
  match xs with
  | [] => best_i
  | x :: xs' =>
      if argmax_takes best x then argmax_from i x (S i) xs'
      else argmax_from best_i best (S i) xs'
  end.

Definition np_argmax (xs : list num) : result nat :=
  match xs with
  | [] => inl (ValueError "attempt to get argmax of an empty sequence")
  | x :: xs' => inr (argmax_from 0 x 1 xs')
  end.

(** [np.allclose(a, b)] with its default tolerances: every entry satisfies
    [|a - b| <= atol + rtol * |b|]; non-finite entries must be equal. *)
Definition rtol : Q := 1 # 100000.
Definition atol : Q := 1 # 100000000.

Definition isclose (x y : num) : bool :=
  match x, y with
  | Finite a, Finite b => Qle_bool (Qabs (a - b)) (atol + rtol * Qabs b)
  | _, _ => num_eqb x y
  end.

Definition np_allclose (a b : list num) : result bool :=
  rbind (broadcast2 isclose a b) (λ close, inr (forallb (λ c, c) close)).

(** ** gym spaces *)

Inductive space : Type :=
  | Box (low high : list num)
  | BoxShaped (low high : num) (shape : list nat)
  | Discrete (n : Z).

(** [space.low], [space.high], [space.n]; arrays of the model are 1-D, so
    the bounds of a box of another rank are out of its reach. *)
Definition space_low (sp : space) : result (list num) :=
  match sp with
  | Box low _ => inr low
  | BoxShaped low _ [n] => inr (replicate n low)
  | BoxShaped _ _ _ => inl (TypeError "bounds of rank other than one")
  | Discrete _ => inl (AttributeError "low")
  end.

Definition space_high (sp : space) : result (list num) :=
  match sp with
  | Box _ high => inr high
  | BoxShaped _ high [n] => inr (replicate n high)
  | BoxShaped _ _ _ => inl (TypeError "bounds of rank other than one")
  | Discrete _ => inl (AttributeError "high")
  end.

Definition space_n (sp : space) : result Z :=
  match sp with
  | Discrete n => inr n
  | _ => inl (AttributeError "n")
  end.

(** A dict of spaces is a [gym.spaces.Dict] or a plain Python dict; only the
    former has the attribute [spaces]. *)
Record spaces := {
  is_gym_dict : bool;
  space_items : dict string space;
}.

Definition spaces_attr (sp : spaces) : result (dict string space) :=
  if is_gym_dict sp then inr (space_items sp) else inl (AttributeError "spaces").

Definition spaces_get (sp : spaces) (key : string) : result space :=
  from_option (KeyError key) (dict_get key (space_items sp)).

(** ** The uniform environment interface

    An environment object is its class (the methods) together with its
    current fields (a state of type [St]). *)
Record Env := {
  St : Type;
  observation_space : St → result spaces;
  action_space : St → result spaces;
  step : value → M St value;
  reset : M St value;
}.

(** ** pysc2: what the StarCraft II adapter reads from the library *)

Record ArgumentType := { arg_id : Z }.

Record SC2Function := {
  fn_id : Z;
  fn_general_id : Z;
  fn_args : list ArgumentType;
}.

Record FunctionCall := {
  call_function : Z;
  call_arguments : list (list value);
}.

(** The tables of [pysc2.lib]: [actions._FUNCTIONS], the embedding lookups,
    [get_arg_size_lookup], and the columns of [Player] and [FeatureUnit]
    that [collect_sc_observation] selects, in the order it lists them. *)
Record Pysc2 := {
  _FUNCTIONS : list SC2Function;
  get_unit_embed_lookup : dict Z Z;
  get_buff_embed_lookup : dict Z Z;
  get_arg_size_lookup : Z → Z → dict Z (list Z);
  player_columns : list nat;
  unit_feature_columns : list nat;
}.

Record ScreenFeatures := {
  screen_visibility_map : list (list Z);
  screen_height_map : list (list Z);
  screen_creep : list (list Z);
  screen_buildable : list (list Z);
  screen_pathable : list (list Z);
  screen_effects : list (list Z);
}.

Record MinimapFeatures := {
  mini_visibility_map : list (list Z);
  mini_height_map : list (list Z);
  mini_player_relative : list (list Z);
  mini_creep : list (list Z);
  mini_buildable : list (list Z);
  mini_pathable : list (list Z);
  mini_camera : list (list Z);
}.

Record SC2Observation := {
  available_actions : list Z;
  feature_screen : ScreenFeatures;
  feature_minimap : MinimapFeatures;
  player : list Z;
  feature_units : list (list Z);
}.

Record SC2TimeStep := {
  sc_observation : SC2Observation;
  sc_reward : Z;
  sc_last : bool;
}.

Record SC2Config := {
  cfg_map_name : string;
  cfg_screen_size : Z;
  cfg_minimap_size : Z;
  cfg_steps_per_action : Z;
  cfg_steps_per_episode : Z;
  cfg_fog : bool;
  cfg_visualise : bool;
}.

(** [sc2_env.SC2Env] behind [AvailableActionsPrinter]; [sc2_functions i] is
    [env.action_spec()[0].functions[i]]. *)
Record SC2Env (S : Type) := {
  sc2_create : SC2Config → result S;
  sc2_functions : Z → option SC2Function;
  sc2_step : FunctionCall → S → result SC2TimeStep * S;
  sc2_reset : S → result SC2TimeStep * S;
}.
Arguments sc2_create {S}.
Arguments sc2_functions {S}.
Arguments sc2_step {S}.
Arguments sc2_reset {S}.

(** *** [class Sc2] *)

Record Sc2 (S : Type) := {
  blocked_actions : list Z;
  unit_embed_lookup : dict Z Z;
  buff_embed_lookup : dict Z Z;
  action_embed_lookup : dict Z Z;
  action_id_lookup : dict Z Z;
  args_size_lookup : dict Z (list Z);
  unit_max : Z;
  sc2_env : S;
}.
Arguments blocked_actions {S}.
Arguments unit_embed_lookup {S}.
Arguments buff_embed_lookup {S}.
Arguments action_embed_lookup {S}.
Arguments action_id_lookup {S}.
Arguments args_size_lookup {S}.
Arguments unit_max {S}.
Arguments sc2_env {S}.

Definition action_lookup_step (blocked : list Z)
    (st : dict Z Z * Z) (f : SC2Function) : dict Z Z * Z :=
  let '(lookup, index) := st in
  if (fn_general_id f =? 0) && negb (bool_decide (fn_id f ∈ blocked))
  then (dict_set (fn_id f) index lookup, index + 1)
  else (lookup, index).

Definition _get_action_lookup (blocked : list Z) (functions : list SC2Function)
    : dict Z Z :=
  (foldl (action_lookup_step blocked) ([], 0) functions).1.

(** [dict((reversed(item) for item in action_embed_lookup.items()))] *)
Definition reversed_items (d : dict Z Z) : dict Z Z :=
  dict_of_items ((λ kv, (kv.2, kv.1)) <$> d).

Definition Sc2_init {S} (lib : Pysc2) (sim : SC2Env S) (map_name : string)
    (screen_size minimap_size max_units steps_per_action steps_per_episode : Z)
    (fog visualise : bool) : list event * result (Sc2 S) :=
  let blocked := [4] in
  let embed := _get_action_lookup blocked (_FUNCTIONS lib) in
  let cfg := {| cfg_map_name := map_name; cfg_screen_size := screen_size;
                cfg_minimap_size := minimap_size;
                cfg_steps_per_action := steps_per_action;
                cfg_steps_per_episode := steps_per_episode;
                cfg_fog := fog; cfg_visualise := visualise |} in
  ([Call "flags.FLAGS.mark_as_parsed"; Call "sc2_env.SC2Env"] ++
   match sc2_create sim cfg with
   | inl _ => []
   | inr _ => [Call "available_actions_printer.AvailableActionsPrinter"]
   end,
   rbind (sc2_create sim cfg) (λ env,
     inr {| blocked_actions := blocked;
            unit_embed_lookup := get_unit_embed_lookup lib;
            buff_embed_lookup := get_buff_embed_lookup lib;
            action_embed_lookup := embed;
            action_id_lookup := reversed_items embed;
            args_size_lookup := get_arg_size_lookup lib screen_size minimap_size;
            unit_max := max_units;
            sc2_env := env |})).

Definition key_of_Z (k : Z) : string := pretty k.

Definition arg_key (arg : Z) (i : nat) : string :=
  "arg_" +:+ pretty arg +:+ "_" +:+ pretty i.

Definition _get_arg_keys {S} (self : Sc2 S) (arg : Z) : result (list string) :=
  rbind (from_option (KeyError (key_of_Z arg)) (dict_get arg (args_size_lookup self)))
    (λ sizes, inr (imap (λ i _, arg_key arg i) sizes)).

Definition Sc2_observation_space {S} (self : Sc2 S) : result spaces :=
  inr {| is_gym_dict := true;
         space_items := [("image", BoxShaped (Finite 0) (Finite 255) [64; 64; 3]%nat)] |}.

Definition Sc2_action_space {S} (self : Sc2 S) : result spaces :=
  let action_args :=
    [("action_id", Discrete (Z.of_nat (length (action_embed_lookup self))))] in
  rbind
    (foldl (λ acc arg,
       rbind acc (λ action_args,
       rbind (_get_arg_keys self arg) (λ arg_keys,
       rbind (from_option (KeyError (key_of_Z arg))
                (dict_get arg (args_size_lookup self))) (λ sizes,
       foldl (λ acc' i_size,
          rbind acc' (λ action_args',
          rbind (from_option IndexError (arg_keys !! i_size.1)) (λ k,
          inr (dict_set k (Discrete i_size.2) action_args'))))
         (inr action_args) (imap pair sizes)))))
      (inr action_args) (dict_keys (args_size_lookup self)))
    (λ action_args, inr {| is_gym_dict := false; space_items := action_args |}).

(** The keys of all arguments a function requires, in the order of its
    argument specification. *)
Definition required_arg_keys {S} (self : Sc2 S) (f : SC2Function)
    : result (list (list string)) :=
  mapR (λ r, _get_arg_keys self (arg_id r)) (fn_args f).

Definition functions_getitem {S} (sim : SC2Env S) (i : Z) : result SC2Function :=
  from_option IndexError (sc2_functions sim i).

Definition action_arg_lookup {S} (sim : SC2Env S) (self : Sc2 S)
    : result (dict Z (list string)) :=
  foldl (λ acc action_id,
     rbind acc (λ action_arg_reqs,
     rbind (from_option (KeyError (key_of_Z action_id))
              (dict_get action_id (action_id_lookup self))) (λ fid,
     rbind (functions_getitem sim fid) (λ f,
     rbind (required_arg_keys self f) (λ keys,
     inr (dict_set action_id (concat keys) action_arg_reqs))))))
    (inr []) (dict_keys (action_id_lookup self)).

(** The first half of [Sc2.step]: rebuilding the action into a pysc2
    function id and its arguments. *)
Definition rebuild_action {S} (sim : SC2Env S) (self : Sc2 S) (action : value)
    : result FunctionCall :=
  rbind (getitem action "action_id") (λ a,
  rbind (match a with
         | VInt i => from_option (KeyError (key_of_Z i))
                       (dict_get i (action_id_lookup self))
         | _ => inl (TypeError "action id is not an integer")
         end) (λ action_id,
  rbind (functions_getitem sim action_id) (λ f,
  rbind (mapR (λ r,
           rbind (_get_arg_keys self (arg_id r)) (λ keys,
           mapR (λ k, getitem action k) keys)) (fn_args f)) (λ args,
  inr {| call_function := action_id; call_arguments := args |})))).

(** *** [Sc2.collect_sc_observation] *)

(** A Python index into a sequence of length [n]; negative ones count from
    the end. *)
Definition norm_index (n : nat) (i : Z) : result nat :=
  if (0 <=? i) && (i <? Z.of_nat n) then inr (Z.to_nat i)
  else if (- Z.of_nat n <=? i) && (i <? 0) then inr (Z.to_nat (i + Z.of_nat n))
  else inl IndexError.

(** [a = np.zeros(n); a[indices] = 1] *)
Definition zeros_with_ones (n : nat) (indices : list Z) : result (list Z) :=
  foldl (λ acc i, rbind acc (λ a, rbind (norm_index n i) (λ j, inr (<[j := 1]> a))))
    (inr (replicate n 0)) indices.

Definition same_shape (a b : list (list Z)) : bool :=
  bool_decide (length <$> a = length <$> b).

(** [np.stack(layers, axis=2)] of 2-D layers *)
Definition np_stack_axis2 (layers : list (list (list Z)))
    : result (list (list (list Z))) :=
  match layers with
  | [] => inl (ValueError "need at least one array to stack")
  | l0 :: _ =>
      if forallb (same_shape l0) layers
      then inr (foldr (zip_with (zip_with cons)) (map (map (λ _, [])) l0) layers)
      else inl (ValueError "all input arrays must have the same shape")
  end.

(** [a[[c1, c2, ...]]] on a 1-D array and [a[:, [c1, c2, ...]]] on rows *)
Definition take_columns (cols : list nat) (row : list Z) : result (list Z) :=
  mapR (λ c, from_option IndexError (row !! c)) cols.

Section collect.
Context {Sim : Type} (lib : Pysc2) (self : Sc2 Sim).

Definition collect_available_actions (av_actions : list Z) : result (list Z) :=
  rbind (mapR (λ a, from_option (KeyError (key_of_Z a))
                      (dict_get a (action_embed_lookup self)))
           (filter (λ a, a ∉ blocked_actions self) av_actions)) (λ action_indices,
  zeros_with_ones (length (action_embed_lookup self)) action_indices).

(** Lines 299-378: the unit rows, their padding and their count. *)
Definition collect_units (units : list (list Z)) : result (list (list Z) * Z) :=
  rbind (mapR (λ row, from_option IndexError (row !! 0%nat)) units) (λ unit_type_ids,
  rbind (mapR (λ x, from_option (KeyError (key_of_Z x))
                      (dict_get x (unit_embed_lookup self))) unit_type_ids)
    (λ unit_embed_ids,
  rbind (mapR (take_columns (unit_feature_columns lib)) units) (λ unit_features,
  let units_out := zip_with cons unit_embed_ids unit_features in
  let unit_dim := unit_max self - Z.of_nat (length units_out) in
  let feature_dim := S (length (unit_feature_columns lib)) in
  if unit_dim <? 0 then inl (ValueError "negative dimensions are not allowed")
  else
    let unit_padding := replicate (Z.to_nat unit_dim) (replicate feature_dim 0) in
    inr (units_out ++ unit_padding, Z.of_nat (length units_out))))).

Definition collect_sc_observation (timestep : SC2TimeStep) : result value :=
  let ob := sc_observation timestep in
  rbind (collect_available_actions (available_actions ob)) (λ action_categorical,
  let screen_feat := feature_screen ob in
  rbind (np_stack_axis2 [screen_visibility_map screen_feat;
                         screen_height_map screen_feat;
                         screen_creep screen_feat;
                         screen_buildable screen_feat;
                         screen_pathable screen_feat;
                         screen_effects screen_feat]) (λ screen,
  let mini_feat := feature_minimap ob in
  rbind (np_stack_axis2 [mini_visibility_map mini_feat;
                         mini_height_map mini_feat;
                         mini_player_relative mini_feat;
                         mini_creep mini_feat;
                         mini_buildable mini_feat;
                         mini_pathable mini_feat;
                         mini_camera mini_feat]) (λ mini,
  rbind (take_columns (player_columns lib) (player ob)) (λ player_feat,
  rbind (collect_units (feature_units ob)) (λ units,
  inr (VDict [("available_actions", VIntArray action_categorical);
              ("screen", VIntArray3 screen);
              ("mini", VIntArray3 mini);
              ("player", VIntArray player_feat);
              ("units", VIntArray2 units.1);
              ("unit_count", VInt units.2)])))))).
End collect.

(** *** [Sc2.step] and [Sc2.reset] *)

Section sc2_methods.
Context {Sim : Type} (lib : Pysc2) (sim : SC2Env Sim).

Definition sc2_call {A} (target : string) (f : Sim → result A * Sim) : M (Sc2 Sim) A :=
  λ self, match f (sc2_env self) with
          | (r, env') =>
              ([Call target],
               {| blocked_actions := blocked_actions self;
                  unit_embed_lookup := unit_embed_lookup self;
                  buff_embed_lookup := buff_embed_lookup self;
                  action_embed_lookup := action_embed_lookup self;
                  action_id_lookup := action_id_lookup self;
                  args_size_lookup := args_size_lookup self;
                  unit_max := unit_max self;
                  sc2_env := env' |}, r)
          end.

Definition Sc2_step (action : value) : M (Sc2 Sim) value :=
  let* self := get in
  let* sc2_action := lift_result (rebuild_action sim self action) in
  let* timestep := sc2_call "SC2Env.step" (sc2_step sim sc2_action) in
  let* obs := lift_result (collect_sc_observation lib self timestep) in
  let reward := VFloat (Finite (inject_Z (sc_reward timestep))) in
  let done := if sc_last timestep then true else false in
  let info := VDict [] in
  ret (VTuple [obs; reward; VBool done; info]).

Definition Sc2_reset : M (Sc2 Sim) value :=
  let* self := get in
  let* timestep := sc2_call "SC2Env.reset" (sc2_reset sim) in
  let* obs := lift_result (collect_sc_observation lib self timestep) in
  ret obs.

Definition Sc2_env : Env := {|
  St := Sc2 Sim;
  observation_space := Sc2_observation_space;
  action_space := Sc2_action_space;
  step := Sc2_step;
  reset := Sc2_reset;
|}.
End sc2_methods.

(** ** [class DMC]: the dm_control adapter *)

Record DMTimeStep := {
  dm_reward : option num;
  dm_discount : option num;
  dm_observation : dict string value;
  dm_last : bool;
}.

(** [dm_control.suite]: loading a task, its specs, stepping, rendering. *)
Record DMControl (Sim : Type) := {
  suite_load : string → string → result Sim;
  dm_action_spec : Sim → list num * list num;
  dm_observation_spec : Sim → dict string (list nat);
  dm_step : value → Sim → result DMTimeStep * Sim;
  dm_reset : Sim → result DMTimeStep * Sim;
  dm_render : nat → nat → Z → Sim → result value * Sim;
}.
Arguments suite_load {Sim}.
Arguments dm_action_spec {Sim}.
Arguments dm_observation_spec {Sim}.
Arguments dm_step {Sim}.
Arguments dm_reset {Sim}.
Arguments dm_render {Sim}.

Record DMC (Sim : Type) := {
  dmc_env : Sim;
  dmc_action_repeat : Z;
  dmc_size : nat * nat;
  dmc_camera : Z;
}.
Arguments dmc_env {Sim}.
Arguments dmc_action_repeat {Sim}.
Arguments dmc_size {Sim}.
Arguments dmc_camera {Sim}.

(** [name.split('_', 1)] when it yields two parts *)
Fixpoint split_once (s : string) : option (string * string) :=
  match s with
  | EmptyString => None
  | String c s' =>
      if Ascii.eqb c (Ascii.ascii_of_nat 95) then Some (EmptyString, s')
      else match split_once s' with
           | Some (a, b) => Some (String c a, b)
           | None => None
           end
  end.

(** [np.isfinite(v).all()] *)
Definition all_finite (v : value) : result bool :=
  match v with
  | VArray xs => inr (forallb isfinite xs)
  | VFloat x => inr (isfinite x)
  | VInt _ | VBool _ | VIntArray _ | VIntArray2 _ | VIntArray3 _ => inr true
  | _ => inl (TypeError "ufunc isfinite not supported for the input types")
  end.

Section dmc.
Context {Sim : Type} (sim : DMControl Sim).

Definition DMC_init (name : string) (action_repeat : Z) (size : nat * nat)
    (camera : option Z) : list event * result (DMC Sim) :=
  ([Call "os.environ.__setitem__"] ++
   match split_once name with
   | None => []
   | Some _ => [Call "dm_control.suite.load"]
   end,
   match split_once name with
   | None => inl (ValueError "not enough values to unpack")
   | Some (domain, task) =>
       let domain := if String.eqb domain "cup" then "ball_in_cup" else domain in
       rbind (suite_load sim domain task) (λ env,
         let camera :=
           match camera with
           | None => if String.eqb domain "quadruped" then 2 else 0
           | Some c => c
           end in
         inr {| dmc_env := env; dmc_action_repeat := action_repeat;
                dmc_size := size; dmc_camera := camera |})
   end).

Definition dmc_call {A} (target : string) (f : Sim → result A * Sim)
    : M (DMC Sim) A :=
  λ self, match f (dmc_env self) with
          | (r, env') =>
              ([Call target],
               {| dmc_env := env'; dmc_action_repeat := dmc_action_repeat self;
                  dmc_size := dmc_size self; dmc_camera := dmc_camera self |}, r)
          end.

Definition DMC_observation_space (self : DMC Sim) : result spaces :=
  let spaces :=
    (λ kv : string * list nat, (kv.1, BoxShaped NegInf PosInf kv.2))
      <$> dm_observation_spec sim (dmc_env self) in
  inr {| is_gym_dict := true;
         space_items :=
           dict_set "image"
             (BoxShaped (Finite 0) (Finite 255)
                [(dmc_size self).1; (dmc_size self).2; 3%nat]) spaces |}.

Definition DMC_action_space (self : DMC Sim) : result spaces :=
  let spec := dm_action_spec sim (dmc_env self) in
  inr {| is_gym_dict := true; space_items := [("action", Box spec.1 spec.2)] |}.

Definition DMC_render : M (DMC Sim) value :=
  let* self := get in
  dmc_call "physics.render"
    (dm_render sim (dmc_size self).1 (dmc_size self).2 (dmc_camera self)).

(** The body of [for _ in range(n)]: the reward collected so far and the
    last time step, if any iteration has run. *)
Fixpoint DMC_repeat (n : nat) (action : value) (reward : num)
    (time_step : option DMTimeStep) : M (DMC Sim) (num * option DMTimeStep) :=
  match n with
  | O => ret (reward, time_step)
  | S n' =>
      let* time_step := dmc_call "dm_env.step" (dm_step sim action) in
      let reward := num_add reward (default (Finite 0) (dm_reward time_step)) in
      if dm_last time_step then ret (reward, Some time_step)
      else DMC_repeat n' action reward (Some time_step)
  end.

Definition DMC_step (action : value) : M (DMC Sim) value :=
  let* self := get in
  let* action := lift_result (getitem action "action") in
  let* finite := lift_result (all_finite action) in
  if negb finite then raise (AssertionError "action is not finite")
  else
    let* (reward, last) :=
      DMC_repeat (Z.to_nat (dmc_action_repeat self)) action (Finite 0) None in
    match last with
    | None => raise (UnboundLocalError "time_step")
    | Some time_step =>
        let obs := dm_observation time_step in
        let* image := DMC_render in
        let obs := dict_set "image" image obs in
        let done := dm_last time_step in
        let info := VDict [("discount", VFloat (default NaN (dm_discount time_step)))] in
        ret (VTuple [VDict obs; VFloat reward; VBool done; info])
    end.

Definition DMC_reset : M (DMC Sim) value :=
  let* time_step := dmc_call "dm_env.reset" (dm_reset sim) in
  let obs := dm_observation time_step in
  let* image := DMC_render in
  let obs := dict_set "image" image obs in
  ret (VDict obs).

Definition DMC_env : Env := {|
  St := DMC Sim;
  observation_space := DMC_observation_space;
  action_space := DMC_action_space;
  step := DMC_step;
  reset := DMC_reset;
|}.
End dmc.

(** ** [class Atari]: the gym Atari adapter *)

(** [gym.envs.atari.AtariEnv] and [gym.wrappers.AtariPreprocessing]. *)
Record AtariGym (Sim : Type) := {
  AtariEnv : string → Q → bool → result Sim;
  configure_spec : Sim → Sim;
  AtariPreprocessing : Sim → Z → Z → Z → bool → bool → result Sim;
  gym_step : value → Sim → result value * Sim;
  gym_reset : Sim → result value * Sim;
  gym_get_ram : Sim → value;
  gym_observation_space : Sim → space;
  gym_action_space : Sim → space;
}.
Arguments AtariEnv {Sim}.
Arguments configure_spec {Sim}.
Arguments AtariPreprocessing {Sim}.
Arguments gym_step {Sim}.
Arguments gym_reset {Sim}.
Arguments gym_get_ram {Sim}.
Arguments gym_observation_space {Sim}.
Arguments gym_action_space {Sim}.

Record Atari (Sim : Type) := {
  atari_env : Sim;
  atari_grayscale : bool;
}.
Arguments atari_env {Sim}.
Arguments atari_grayscale {Sim}.

(** The class attribute [Atari.LOCK = threading.Lock()]. *)
Definition LOCK : string := "Atari.LOCK".

(** [image[..., None]] *)
Definition expand_last_axis (image : value) : result value :=
  match image with
  | VImage shape pixels => inr (VImage (shape ++ [1%nat]) pixels)
  | VIntArray xs => inr (VIntArray2 ((λ x, [x]) <$> xs))
  | VIntArray2 rows => inr (VIntArray3 (map (map (λ x, [x])) rows))
  | _ => inl (TypeError "object is not subscriptable")
  end.

Section atari.
Context {Sim : Type} (gym : AtariGym Sim).

Definition Atari_init (name : string) (action_repeat : Z) (size : Z * Z)
    (grayscale : bool) (noops : Z) (life_done sticky_actions all_actions : bool)
    : list event * result (Atari Sim) :=
  if negb (size.1 =? size.2) then ([], inl (AssertionError ""))
  else
    let name := if String.eqb name "james_bond" then "jamesbond" else name in
    let created :=
      AtariEnv gym name (if sticky_actions then 1 # 4 else 0)%Q all_actions in
    match created with
    | inl e => ([Acquire LOCK; Call "gym.envs.atari.AtariEnv"; Release LOCK], inl e)
    | inr env =>
        let env := configure_spec gym env in
        ([Acquire LOCK; Call "gym.envs.atari.AtariEnv"; Release LOCK;
          Call "gym.envs.registration.EnvSpec";
          Call "get_action_meanings";
          Call "gym.wrappers.AtariPreprocessing"],
         rbind (AtariPreprocessing gym env noops action_repeat size.1 life_done
                  grayscale) (λ env,
           inr {| atari_env := env; atari_grayscale := grayscale |}))
    end.

Definition atari_call {A} (target : string) (f : Sim → result A * Sim)
    : M (Atari Sim) A :=
  λ self, match f (atari_env self) with
          | (r, env') =>
              ([Call target],
               {| atari_env := env'; atari_grayscale := atari_grayscale self |}, r)
          end.

Definition Atari_observation_space (self : Atari Sim) : result spaces :=
  inr {| is_gym_dict := true;
         space_items :=
           [("image", gym_observation_space gym (atari_env self));
            ("ram", BoxShaped (Finite 0) (Finite 255) [128%nat])] |}.

Definition Atari_action_space (self : Atari Sim) : result spaces :=
  inr {| is_gym_dict := false;
         space_items := [("action", gym_action_space gym (atari_env self))] |}.

Definition Atari_observe (image : value) : M (Atari Sim) value :=
  let* self := get in
  let* image :=
    if atari_grayscale self then lift_result (expand_last_axis image)
    else ret image in
  let* self := get in
  ret (VDict [("image", image); ("ram", gym_get_ram gym (atari_env self))]).

Definition Atari_reset : M (Atari Sim) value :=
  let* image := with_lock LOCK (atari_call "env.reset" (gym_reset gym)) in
  Atari_observe image.

Definition Atari_step (action : value) : M (Atari Sim) value :=
  let* action := lift_result (getitem action "action") in
  let* res := atari_call "env.step" (gym_step gym action) in
  let* (image, reward, done, info) := lift_result (unpack4 res) in
  let* obs := Atari_observe image in
  ret (VTuple [obs; reward; done; info]).

Definition Atari_env : Env := {|
  St := Atari Sim;
  observation_space := Atari_observation_space;
  action_space := Atari_action_space;
  step := Atari_step;
  reset := Atari_reset;
|}.
End atari.

(** ** [class Dummy] *)

Definition Dummy_init : list event * result unit := ([], inr tt).

Definition Dummy_observation_space (self : unit) : result spaces :=
  inr {| is_gym_dict := true;
         space_items := [("image", BoxShaped (Finite 0) (Finite 255) [64; 64; 3]%nat)] |}.

Definition Dummy_action_space (self : unit) : result spaces :=
  inr {| is_gym_dict := true;
         space_items := [("action", BoxShaped (Finite (-1)) (Finite 1) [6%nat])] |}.

Definition Dummy_step (action : value) : M unit value :=
  let obs := VDict [("image", VImage [64; 64; 3]%nat 0)] in
  let reward := VFloat (Finite 0) in
  let done := VBool false in
  let info := VDict [] in
  ret (VTuple [obs; reward; done; info]).

Definition Dummy_reset : M unit value :=
  let obs := VDict [("image", VImage [64; 64; 3]%nat 0)] in
  ret obs.

Definition Dummy_env : Env := {|
  St := unit;
  observation_space := Dummy_observation_space;
  action_space := Dummy_action_space;
  step := Dummy_step;
  reset := Dummy_reset;
|}.

(** ** The wrapper classes

    A wrapper object holds the wrapped object [_env] and its own fields; its
    state is the pair of the two. Attributes a wrapper does not define are
    looked up on the wrapped environment ([__getattr__]). *)

Definition inner {Si F A} (m : M Si A) : M (Si * F) A :=
  λ s, match m s.1 with
       | (tr, si', r) => (tr, (si', s.2), r)
       end.

Definition fields {Si F} : M (Si * F) F := λ s, ([], s, inr s.2).

Definition set_fields {Si F} (f : F) : M (Si * F) unit :=
  λ s, ([], (s.1, f), inr tt).

(** *** [class TimeLimit] *)

Record TimeLimit := {
  tl_duration : Z;
  tl_step : option Z;
}.

Section time_limit.
Context (E : Env).

Definition TimeLimit_init (env : St E) (duration : Z)
    : list event * result (St E * TimeLimit) :=
  ([], inr (env, {| tl_duration := duration; tl_step := None |})).

Definition TimeLimit_step (action : value) : M (St E * TimeLimit) value :=
  let* self := fields in
  match tl_step self with
  | None => raise (AssertionError "Must reset environment.")
  | Some count =>
      let* res := inner (step E action) in
      let* (obs, reward, done, info) := lift_result (unpack4 res) in
      let count := count + 1 in
      run set_fields {| tl_duration := tl_duration self; tl_step := Some count |} then
      if tl_duration self <=? count then
        let done := VBool true in
        let* has_discount := lift_result (contains info "discount") in
        let* info :=
          if negb has_discount
          then lift_result (setitem info "discount" (VFloat (Finite 1)))
          else ret info in
        run set_fields {| tl_duration := tl_duration self; tl_step := None |} then
        ret (VTuple [obs; reward; done; info])
      else ret (VTuple [obs; reward; done; info])
  end.

Definition TimeLimit_reset : M (St E * TimeLimit) value :=
  let* self := fields in
  run set_fields {| tl_duration := tl_duration self; tl_step := Some 0 |} then
  inner (reset E).

Definition TimeLimit_env : Env := {|
  St := St E * TimeLimit;
  observation_space := λ s, observation_space E s.1;
  action_space := λ s, action_space E s.1;
  step := TimeLimit_step;
  reset := TimeLimit_reset;
|}.
End time_limit.

(** *** [class NormalizeAction] *)

Record NormalizeAction := {
  na_key : string;
  na_mask : list bool;
  na_low : list num;
  na_high : list num;
}.

(** A numeric operand as a 1-D array; a scalar has one element. *)
Definition as_array (v : value) : result (list num) :=
  match v with
  | VArray xs => inr xs
  | VFloat x => inr [x]
  | VInt n => inr [Finite (inject_Z n)]
  | VIntArray ns => inr ((λ n, Finite (inject_Z n)) <$> ns)
  | _ => inl (TypeError "unsupported operand type")
  end.

Section normalize_action.
Context (E : Env).

Definition NormalizeAction_init (env : St E) (key : string)
    : list event * result (St E * NormalizeAction) :=
  ([],
   rbind (action_space E env) (λ sp,
   rbind (spaces_get sp key) (λ space,
   rbind (space_low space) (λ low,
   rbind (space_high space) (λ high,
   rbind (broadcast2 andb (isfinite <$> low) (isfinite <$> high)) (λ mask,
   rbind (np_where mask low [Finite (-1)]) (λ low',
   rbind (np_where mask high [Finite 1]) (λ high',
   inr (env, {| na_key := key; na_mask := mask;
                na_low := low'; na_high := high' |}))))))))).

Definition NormalizeAction_action_space (s : St E * NormalizeAction)
    : result spaces :=
  let self := s.2 in
  rbind (np_where (na_mask self) (num_neg <$> ones_like (na_low self)) (na_low self))
    (λ low,
  rbind (np_where (na_mask self) (ones_like (na_low self)) (na_high self)) (λ high,
  let space := Box low high in
  rbind (action_space E s.1) (λ sp,
  rbind (spaces_attr sp) (λ items,
  inr {| is_gym_dict := false;
         space_items := dict_set (na_key self) space items |})))).

(** [(a + 1) / 2 * (high - low) + low], masked by [np.where] *)
Definition denormalize (self : NormalizeAction) (a : list num) : result (list num) :=
  rbind (broadcast2 num_add a [Finite 1]) (λ a1,
  rbind (broadcast2 num_div a1 [Finite 2]) (λ a2,
  rbind (broadcast2 num_sub (na_high self) (na_low self)) (λ range,
  rbind (broadcast2 num_mul a2 range) (λ a3,
  rbind (broadcast2 num_add a3 (na_low self)) (λ orig,
  np_where (na_mask self) orig a))))).

Definition NormalizeAction_step (action : value)
    : M (St E * NormalizeAction) value :=
  let* self := fields in
  let* a := lift_result (rbind (getitem action (na_key self)) as_array) in
  let* orig := lift_result (denormalize self a) in
  let* action' := lift_result (setitem action (na_key self) (VArray orig)) in
  inner (step E action').

Definition NormalizeAction_env : Env := {|
  St := St E * NormalizeAction;
  observation_space := λ s, observation_space E s.1;
  action_space := NormalizeAction_action_space;
  step := NormalizeAction_step;
  reset := inner (reset E);
|}.
End normalize_action.

(** *** [class OneHotAction] *)

Record OneHotAction := {
  oh_keys : list string;
}.

Section one_hot_action.
Context (E : Env).

Definition OneHotAction_init (env : St E)
    : list event * result (St E * OneHotAction) :=
  ([], rbind (action_space E env) (λ sp,
         inr (env, {| oh_keys := dict_keys (space_items sp) |}))).

Definition OneHotAction_action_space (s : St E * OneHotAction) : result spaces :=
  rbind (action_space E s.1) (λ og_space,
  rbind
    (foldl (λ acc k,
       rbind acc (λ new_space,
       rbind (spaces_get og_space k) (λ sp,
       rbind (space_n sp) (λ n,
       inr (dict_set k (BoxShaped (Finite 0) (Finite 1) [Z.to_nat n]) new_space)))))
      (inr []) (oh_keys s.2))
    (λ new_space, inr {| is_gym_dict := false; space_items := new_space |})).

(** The index forwarded for one entry of the action. *)
Definition one_hot_index (a : list num) : result Z :=
  rbind (np_argmax a) (λ index,
  let reference := <[index := Finite 1]> (zeros_like a) in
  rbind (np_allclose reference a) (λ close,
  if negb close then inr (-1) else inr (Z.of_nat index))).

(** The loop of [OneHotAction.step] over the keys of the action space. *)
Definition one_hot_indices (keys : list string) (action : value)
    : result (dict string value) :=
  foldl (λ acc k,
     rbind acc (λ action_indices,
     rbind (rbind (getitem action k) as_array) (λ a,
     rbind (one_hot_index a) (λ index,
     inr (dict_set k (VInt index) action_indices)))))
    (inr []) keys.

Definition OneHotAction_step (action : value) : M (St E * OneHotAction) value :=
  let* self := fields in
  let* action_indices := lift_result (one_hot_indices (oh_keys self) action) in
  inner (step E (VDict action_indices)).

Definition OneHotAction_reset : M (St E * OneHotAction) value :=
  inner (reset E).

Definition OneHotAction_env : Env := {|
  St := St E * OneHotAction;
  observation_space := λ s, observation_space E s.1;
  action_space := OneHotAction_action_space;
  step := OneHotAction_step;
  reset := OneHotAction_reset;
|}.
End one_hot_action.

(** *** [class RewardObs] and [class ResetObs] *)

Record RewardObs := { ro_key : string }.
Record ResetObs := { rs_key : string }.

Section obs_wrappers.
Context (E : Env).

(** [assert key not in env.observation_space.spaces] *)
Definition assert_new_key (env : St E) (key : string) : result unit :=
  rbind (observation_space E env) (λ sp,
  rbind (spaces_attr sp) (λ items,
  if dict_mem key items then inl (AssertionError "") else inr tt)).

Definition extended_observation_space (env : St E) (key : string) (space : space)
    : result spaces :=
  rbind (observation_space E env) (λ sp,
  rbind (spaces_attr sp) (λ items,
  inr {| is_gym_dict := true; space_items := dict_set key space items |})).

Definition RewardObs_init (env : St E) (key : string)
    : list event * result (St E * RewardObs) :=
  ([], rbind (assert_new_key env key) (λ _, inr (env, {| ro_key := key |}))).

Definition RewardObs_step (action : value) : M (St E * RewardObs) value :=
  let* res := inner (step E action) in
  let* (obs, reward, done, info) := lift_result (unpack4 res) in
  let* obs := lift_result (setitem obs "reward" reward) in
  ret (VTuple [obs; reward; done; info]).

Definition RewardObs_reset : M (St E * RewardObs) value :=
  let* obs := inner (reset E) in
  let* obs := lift_result (setitem obs "reward" (VFloat (Finite 0))) in
  ret obs.

Definition RewardObs_env : Env := {|
  St := St E * RewardObs;
  observation_space := λ s,
    extended_observation_space s.1 (ro_key s.2) (BoxShaped NegInf PosInf []);
  action_space := λ s, action_space E s.1;
  step := RewardObs_step;
  reset := RewardObs_reset;
|}.

Definition ResetObs_init (env : St E) (key : string)
    : list event * result (St E * ResetObs) :=
  ([], rbind (assert_new_key env key) (λ _, inr (env, {| rs_key := key |}))).

Definition ResetObs_step (action : value) : M (St E * ResetObs) value :=
  let* res := inner (step E action) in
  let* (obs, reward, done, info) := lift_result (unpack4 res) in
  let* obs := lift_result (setitem obs "reset" (VBool false)) in
  ret (VTuple [obs; reward; done; info]).

Definition ResetObs_reset : M (St E * ResetObs) value :=
  let* obs := inner (reset E) in
  let* obs := lift_result (setitem obs "reset" (VBool true)) in
  ret obs.

Definition ResetObs_env : Env := {|
  St := St E * ResetObs;
  observation_space := λ s,
    extended_observation_space s.1 (rs_key s.2) (BoxShaped (Finite 0) (Finite 1) []);
  action_space := λ s, action_space E s.1;
  step := ResetObs_step;
  reset := ResetObs_reset;
|}.
End obs_wrappers.

(** ** The set transformer ([set_transformer.py])

    Tensors are nested lists of real numbers: the outermost list is axis 0.
    The arithmetic is exact; casts between float types are the identity.
    Where TensorFlow would reject the shapes of its operands, the model
    gives no result ([None]). *)

Section tensors.
Local Open Scope R_scope.

Definition dot (u v : list R) : R := foldr Rplus 0 (zip_with Rmult u v).

Definition vadd (u v : list R) : list R := zip_with Rplus u v.

Definition vscale (a : R) (v : list R) : list R := Rmult a <$> v.

(** A row vector times a matrix with [cols] columns. *)
Definition vec_mat (cols : nat) (w : list R) (B : list (list R)) : list R :=
  foldr vadd (replicate cols 0) (zip_with vscale w B).

(** [tf.matmul(A, B)] and [tf.matmul(A, B, transpose_b=True)] on the last
    two axes. *)
Definition matmul (cols : nat) (A B : list (list R)) : list (list R) :=
  (λ w, vec_mat cols w B) <$> A.

Definition matmul_transpose_b (A B : list (list R)) : list (list R) :=
  (λ a, dot a <$> B) <$> A.

(** [tf.nn.softmax] on one row. *)
Definition softmax (l : list R) : list R :=
  let total := foldr Rplus 0 (exp <$> l) in
  (λ x, exp x / total) <$> l.

(** [tf.nn.leaky_relu] with its default slope 0.2. *)
Definition leaky_relu (x : R) : R := Rmax x (0.2 * x).

(** *** Keras layers and their weights *)

Record Dense := {
  units : nat;
  kernel : list (list R);
  bias : option (list R);
}.

(** A dense layer on one row: the row must be as long as the kernel has
    rows. *)
Definition Dense_row (layer : Dense) (x : list R) : option (list R) :=
  if decide (length x = length (kernel layer)) then
    let y := vec_mat (units layer) x (kernel layer) in
    Some (match bias layer with
          | Some b => vadd y b
          | None => y
          end)
  else None.

(** A dense layer acts on the last axis of a rank-3 tensor. *)
Definition Dense_call (layer : Dense) (x : list (list (list R)))
    : option (list (list (list R))) :=
  mapM (mapM (Dense_row layer)) x.

Record LayerNormalization := {
  epsilon : R;
  gamma : list R;
  beta : list R;
}.

Definition mean (x : list R) : R := foldr Rplus 0 x / INR (length x).

Definition LayerNormalization_row (layer : LayerNormalization) (x : list R) : list R :=
  let mu := mean x in
  let variance := mean ((λ xi, (xi - mu) * (xi - mu)) <$> x) in
  let normalized := (λ xi, (xi - mu) / sqrt (variance + epsilon layer)) <$> x in
  vadd (zip_with Rmult normalized (gamma layer)) (beta layer).

Definition LayerNormalization_call (layer : LayerNormalization)
    (x : list (list (list R))) : list (list (list R)) :=
  map (map (LayerNormalization_row layer)) x.

(** Elementwise sum of two tensors of the same shape. *)
Definition add3 (x y : list (list (list R))) : list (list (list R)) :=
  zip_with (zip_with vadd) x y.

(** *** [scaled_dot_product_attention] *)

(** A mask axis is as long as the axis of the logits or has length one. *)
Definition broadcast_to {A} (n : nat) (l : list A) : option (list A) :=
  if decide (length l = n) then Some l
  else match l with
       | [x] => Some (replicate n x)
       | _ => None
       end.

Definition with_mask_axis {A B C} (f : A → B → option C)
    (xs : list A) (ms : list B) : option (list C) :=
  ms' ← broadcast_to (length xs) ms;
  mapM (λ xm, f xm.1 xm.2) (zip xs ms').

(** The constant [-1e9]. *)
Definition minus_1e9 : R := - 1000000000.

(** [logits += (mask * -1e9)] for a mask of rank four; a mask of lower rank
    is one with leading axes of length one. *)
Definition add_mask (logits mask : list (list (list (list R))))
    : option (list (list (list (list R)))) :=
  with_mask_axis (with_mask_axis (with_mask_axis (with_mask_axis
    (λ l m, Some (l + m * minus_1e9))))) logits mask.

(** [q], [k], [v] of shape (batch, heads, seq, depth); [depth_k] and
    [depth_v] are the last dimensions of [k] and [v]. *)
Definition scaled_dot_product_attention (depth_k depth_v : nat)
    (q k v : list (list (list (list R))))
    (mask : option (list (list (list (list R)))))
    : option (list (list (list (list R))) * list (list (list (list R)))) :=
  let matmul_qk := zip_with (zip_with matmul_transpose_b) q k in
  let dk := INR depth_k in
  let scaled_attention_logits :=
    map (map (map (map (λ x, x / sqrt dk)))) matmul_qk in
  scaled_attention_logits ←
    match mask with
    | Some mask => add_mask scaled_attention_logits mask
    | None => Some scaled_attention_logits
    end;
  let attention_weights := map (map (map softmax)) scaled_attention_logits in
  let output := zip_with (zip_with (matmul depth_v)) attention_weights v in
  Some (output, attention_weights).

(** *** [class MultiHeadAttention] *)

Record MultiHeadAttention := {
  num_heads : nat;
  d_model : nat;
  depth : nat;
  wq : Dense;
  wk : Dense;
  wv : Dense;
  ff : Dense;
}.

(** [__init__]: the assertion on the number of heads, [depth], and four
    dense layers without bias whose kernels Keras creates for inputs of
    width [d_model]. *)
Definition MultiHeadAttention_init (d_model num_heads : nat)
    (kq kk kv kf : list (list R)) : option MultiHeadAttention :=
  if decide (num_heads ≠ 0%nat ∧ (d_model mod num_heads = 0)%nat) then
    Some {| num_heads := num_heads; d_model := d_model;
            depth := (d_model / num_heads)%nat;
            wq := {| units := d_model; kernel := kq; bias := None |};
            wk := {| units := d_model; kernel := kk; bias := None |};
            wv := {| units := d_model; kernel := kv; bias := None |};
            ff := {| units := d_model; kernel := kf; bias := None |} |}
  else None.

(** Axes 1 and 2 of a tensor exchanged; [n] is the length of axis 2. *)
Definition transpose12 {A} (n : nat) (x : list (list (list A))) : list (list (list A)) :=
  (λ j, (λ row, default [] (row !! j)) <$> x) <$> seq 0 n.

(** [split_heads]: the last axis is cut into [num_heads] pieces of length
    [depth], then the head axis moves in front of the sequence axis. *)
Definition split_heads (self : MultiHeadAttention) (x : list (list (list R)))
    : list (list (list (list R))) :=
  let x := map (map (reshape (replicate (num_heads self) (depth self)))) x in
  transpose12 (num_heads self) <$> x.

(** The transposition and reshape after the attention: heads back behind
    the sequence axis, then joined along the last axis. *)
Definition concat_heads (seq_len : nat) (heads : list (list (list R)))
    : list (list R) :=
  (λ pieces, concat pieces) <$> transpose12 seq_len heads.

Definition MultiHeadAttention_call (self : MultiHeadAttention)
    (q k v : list (list (list R))) (mask : option (list (list (list (list R)))))
    : option (list (list (list R)) * list (list (list (list R)))) :=
  let seq_len_q := (λ m : list (list R), length m) <$> q in
  q ← Dense_call (wq self) q;
  k ← Dense_call (wk self) k;
  v ← Dense_call (wv self) v;
  let q := split_heads self q in
  let k := split_heads self k in
  let v := split_heads self v in
  '(scaled_attention, attention_weights) ←
    scaled_dot_product_attention (depth self) (depth self) q k v mask;
  let concat_attention := zip_with concat_heads seq_len_q scaled_attention in
  output ← Dense_call (ff self) concat_attention;
  Some (output, attention_weights).

(** *** [class PointwiseFeedforward] *)

Record PointwiseFeedforward := {
  ff1 : Dense;
  ff2 : Dense;
}.

Definition PointwiseFeedforward_call (self : PointwiseFeedforward)
    (x : list (list (list R))) : option (list (list (list R))) :=
  x ← Dense_call (ff1 self) x;
  let x := map (map (map leaky_relu)) x in
  Dense_call (ff2 self) x.

(** *** [class TransformerLayer] *)

Record TransformerLayer := {
  mha : MultiHeadAttention;
  ffn : PointwiseFeedforward;
  layernorm1 : LayerNormalization;
  layernorm2 : LayerNormalization;
}.

Definition TransformerLayer_call (self : TransformerLayer)
    (x y : list (list (list R))) (mask : option (list (list (list (list R)))))
    : option (list (list (list R))) :=
  '(attn_output, _) ← MultiHeadAttention_call (mha self) x y y mask;
  let out1 := LayerNormalization_call (layernorm1 self) (add3 x attn_output) in
  ffn_output ← PointwiseFeedforward_call (ffn self) out1;
  let out2 := LayerNormalization_call (layernorm2 self) (add3 out1 ffn_output) in
  Some out2.

(** *** [class PoolingMultiheadAttention] *)

Record PoolingMultiheadAttention := {
  mab : TransformerLayer;
  seed_vectors : list (list (list R));
}.

(** [tf.tile(s, [b, 1, 1])] *)
Definition tile0 {A} (b : nat) (s : list A) : list A := concat (replicate b s).

Definition PoolingMultiheadAttention_call (self : PoolingMultiheadAttention)
    (x : list (list (list R))) (mask : option (list (list (list (list R)))))
    : option (list (list (list R))) :=
  let b := length x in
  let s := seed_vectors self in
  let s := tile0 b s in
  TransformerLayer_call (mab self) s x mask.

End tensors.

(** ** Notions used to state the properties *)

Definition enumerated_function (blocked : list Z) (f : SC2Function) : bool :=
  (fn_general_id f =? 0) && negb (bool_decide (fn_id f ∈ blocked)).

(** The pairs [(id, index)] of an enumeration of ids starting at [start]. *)
Definition enumerate_from (start : Z) (ids : list Z) : dict Z Z :=
  imap (λ i k, (k, start + Z.of_nat i)) ids.

(** The sizes [get_arg_size_lookup] lists for an argument type, and the keys
    ['arg_{arg}_{i}'] of its dimensions. *)
Definition arg_sizes {Sim} (self : Sc2 Sim) (arg : Z) : list Z :=
  default [] (dict_get arg (args_size_lookup self)).

Definition expected_arg_keys {Sim} (self : Sc2 Sim) (arg : Z) : list string :=
  arg_key arg <$> seq 0 (length (arg_sizes self arg)).

Section sc2_notions.
Context {Sim : Type} (lib : Pysc2) (sim : SC2Env Sim) (self : Sc2 Sim).

(** Every argument type of the function is known to the size lookup. *)
Definition args_known (f : SC2Function) : Prop :=
  Forall (λ r, is_Some (dict_get (arg_id r) (args_size_lookup self))) (fn_args f).

(** The embedded index resolves to a function with known arguments. *)
Definition resolves (a : Z) (f : SC2Function) : Prop :=
  ∃ fid, dict_get a (action_id_lookup self) = Some fid
         ∧ sc2_functions sim fid = Some f ∧ args_known f.

(** The row the adapter builds for one unit: the embedding of its type
    followed by the selected feature columns. *)
Definition unit_row (row out : list Z) : Prop :=
  ∃ type embed features,
    row !! 0%nat = Some type
    ∧ dict_get type (unit_embed_lookup self) = Some embed
    ∧ take_columns (unit_feature_columns lib) row = inr features
    ∧ out = embed :: features.
End sc2_notions.

(** The vector with a one at [index] and zeros elsewhere. *)
Definition one_hot (n index : nat) : list num :=
  <[index := Finite 1]> (replicate n (Finite 0)).

(** [a] is exactly one-hot with its one at [index]. *)
Definition is_one_hot (a : list num) (index : nat) : Prop :=
  (index < length a)%nat
  ∧ ∀ j x, a !! j = Some x →
           num_eq x (if decide (j = index) then Finite 1 else Finite 0).

(** Every entry of [a] is within the tolerance of [np.allclose] of the
    one-hot vector at [index]. *)
Definition tolerant (a : list num) (index : nat) : bool :=
  forallb (λ c, c) (zip_with isclose (one_hot (length a) index) a).

(** The map [a -> (a + 1) / 2 * (high - low) + low]. *)
Definition affine (a low high : num) : num :=
  num_add (num_mul (num_div (num_add a (Finite 1)) (Finite 2)) (num_sub high low)) low.

(** The fields [NormalizeAction.__init__] computes from bounds of equal
    length. *)
Definition normalized_fields (key : string) (low high : list num) : NormalizeAction :=
  let mask := zip_with andb (isfinite <$> low) (isfinite <$> high) in
  {| na_key := key;
     na_mask := mask;
     na_low := zip_with (λ (m : bool) x, if m then x else Finite (-1)) mask low;
     na_high := zip_with (λ (m : bool) x, if m then x else Finite 1) mask high |}.

(** The uniform interface: [step] returns [(obs, reward, done, info)] with a
    dict [obs], and [reset] returns a dict. *)
Definition step_result (v : value) : Prop :=
  ∃ obs reward done info, v = VTuple [VDict obs; reward; done; info].

Definition obs_dict (v : value) : Prop := ∃ obs, v = VDict obs.

Definition uniform (E : Env) : Prop :=
  (∀ action s v, outcome (step E action) s = inr v → step_result v)
  ∧ (∀ s v, outcome (reset E) s = inr v → obs_dict v).

(** The method returns normally from the state. *)
Definition returns {S A} (m : M S A) (s : S) : Prop := ∃ v, outcome m s = inr v.

(** No lock is taken or released. *)
Definition no_lock (tr : list event) : Prop :=
  Forall (λ e, is_lock_event e = false) tr.

Definition lock_free (E : Env) : Prop :=
  (∀ action s, no_lock (trace (step E action) s))
  ∧ (∀ s, no_lock (trace (reset E) s)).

(** Shapes of nested lists. *)
Definition shape1 (d : nat) (r : list R) : Prop := length r = d.

Definition shape2 (n d : nat) (m : list (list R)) : Prop :=
  length m = n ∧ Forall (shape1 d) m.

Definition shape3 (b n d : nat) (t : list (list (list R))) : Prop :=
  length t = b ∧ Forall (shape2 n d) t.

Definition shape4 (b h n d : nat) (t : list (list (list (list R)))) : Prop :=
  length t = b ∧ Forall (shape3 h n d) t.

(** A mask axis fits an axis of length [n] when it has that length or
    length one. *)
Definition axis_fits {A} (n : nat) (P : A → Prop) (l : list A) : Prop :=
  (length l = n ∨ length l = 1%nat) ∧ Forall P l.

(** The mask, if any, broadcasts to logits of shape (b, h, q, n). *)
Definition mask_fits (b h q n : nat) (mask : option (list (list (list (list R)))))
    : Prop :=
  match mask with
  | None => True
  | Some m =>
      axis_fits b (axis_fits h (axis_fits q (axis_fits n (λ _ : R, True)))) m
  end.

(** The weights Keras creates for a dense layer from [inputs] to [outputs]
    features. *)
Definition dense_shaped (inputs outputs : nat) (layer : Dense) : Prop :=
  units layer = outputs
  ∧ shape2 inputs outputs (kernel layer)
  ∧ match bias layer with
    | Some b => length b = outputs
    | None => True
    end.

Definition norm_shaped (d : nat) (layer : LayerNormalization) : Prop :=
  length (gamma layer) = d ∧ length (beta layer) = d.

(** A pooling layer built by [PoolingMultiheadAttention(d, k, h)] and
    called on inputs of width [d]. *)
Definition pooling_shaped (d k h : nat) (self : PoolingMultiheadAttention) : Prop :=
  let layer := mab self in
  let m := mha layer in
  d_model m = d ∧ num_heads m = h ∧ h ≠ 0%nat ∧ d = (h * depth m)%nat
  ∧ dense_shaped d d (wq m) ∧ dense_shaped d d (wk m)
  ∧ dense_shaped d d (wv m) ∧ dense_shaped d d (ff m)
  ∧ dense_shaped d d (ff1 (ffn layer)) ∧ dense_shaped d d (ff2 (ffn layer))
  ∧ norm_shaped d (layernorm1 layer) ∧ norm_shaped d (layernorm2 layer)
  ∧ shape3 1 k d (seed_vectors self).

(** The entries of [l] at the positions [pi], in that order. *)
Definition permute {A} (pi : list nat) (l : list A) : list A :=
  omap (λ i, l !! i) pi.

(** The rows of every batch element permuted. *)
Definition permute_entities (pi : list nat) (x : list (list (list R)))
    : list (list (list R)) :=
  permute pi <$> x.

(** The key axis (the last one) of a mask permuted; an axis of length one,
    which is broadcast, stays as it is. *)
Definition permute_key_axis (pi : list nat) (row : list R) : list R :=
  if decide (length row = length pi) then permute pi row else row.

Definition permute_mask_keys (pi : list nat) (mask : list (list (list (list R))))
    : list (list (list (list R))) :=
  map (map (map (permute_key_axis pi))) mask.

(** Every row (last axis) of a rank-4 tensor has length [n]; every matrix
    (last two axes) of a rank-4 tensor has [n] rows. *)
Definition rows_of_length (n : nat) (t : list (list (list (list R)))) : Prop :=
  Forall (Forall (Forall (λ row, length row = n))) t.

Definition matrices_of_length (n : nat) (t : list (list (list (list R)))) : Prop :=
  Forall (Forall (λ m : list (list R), length m = n)) t.

(** ** Further notions: shown actions, episodes, calls into a simulator *)

(** The embedded index [j] belongs to an action the frame offers and the
    adapter does not block. *)
Definition shown {Sim} (self : Sc2 Sim) (av_actions : list Z) (j : nat) : Prop :=
  ∃ a, a ∈ av_actions ∧ (a ∉ blocked_actions self)
       ∧ dict_get a (action_embed_lookup self) = Some (Z.of_nat j).

(** Stepping an environment with each action of a list, in order, until a
    step raises. *)
Fixpoint run_steps (E : Env) (actions : list value) : M (St E) (list value) :=
  match actions with
  | [] => ret []
  | action :: rest =>
      let* res := step E action in
      let* results := run_steps E rest in
      ret (res :: results)
  end.

(** How often a trace calls [target]. *)
Definition is_call (target : string) (e : event) : bool :=
  match e with
  | Call t => String.eqb t target
  | _ => false
  end.

Definition count_calls (target : string) (tr : list event) : nat :=
  length (List.filter (is_call target) tr).

(** The entries [Sc2.action_space] is meant to hold: the embedded action
    index, then one discrete space per dimension of every argument type. *)
Definition arg_space_items (arg : Z) (sizes : list Z) : dict string space :=
  imap (λ i size, (arg_key arg i, Discrete size)) sizes.

Definition action_space_items {Sim} (self : Sc2 Sim) : dict string space :=
  ("action_id", Discrete (Z.of_nat (length (action_embed_lookup self))))
  :: (args_size_lookup self ≫= λ entry, arg_space_items entry.1 entry.2).

(** The observation dict of the StarCraft II adapter: its six entries in
    their order, the action vector as long as the action embedding, the
    unit block [unit_max] rows long, the unit count within that bound. *)
Definition sc2_observation {Sim} (self : Sc2 Sim) (v : value) : Prop :=
  ∃ avail screen mini player_feat units count,
    v = VDict [("available_actions", VIntArray avail);
               ("screen", VIntArray3 screen);
               ("mini", VIntArray3 mini);
               ("player", VIntArray player_feat);
               ("units", VIntArray2 units);
               ("unit_count", VInt count)]
    ∧ length avail = length (action_embed_lookup self)
    ∧ Z.of_nat (length units) = unit_max self
    ∧ 0 ≤ count ≤ unit_max self.

(** Every step of the environment returns [(obs, reward, done, info)] with
    a dict [info]. *)
Definition always_steps (E : Env) : Prop :=
  ∀ action s, ∃ tr s' obs reward fin info,
    step E action s = (tr, s', inr (VTuple [obs; reward; fin; VDict info])).

(** The action space of the environment is a plain Python dict, not a
    [gym.spaces.Dict]. *)
Definition plain_action_space (E : Env) : Prop :=
  ∀ s sp, action_space E s = inr sp → is_gym_dict sp = false.

(** The box [OneHotAction.action_space] puts in the place of a discrete
    space of [n] actions. *)
Definition one_hot_space (sp : space) : space :=
  match sp with
  | Discrete n => BoxShaped (Finite 0) (Finite 1) [Z.to_nat n]
  | _ => sp
  end.

Definition is_discrete (sp : space) : bool :=
  match sp with
  | Discrete _ => true
  | _ => false
  end.

Definition one_hot_entry (entry : string * space) : string * space :=
  (entry.1, one_hot_space entry.2).

(** ** Small concrete instances, used to run the definitions *)

(** A four-function action table: ids 0 and 9 are general and allowed, id 4
    is blocked, id 7 is a specific ability of a general function. *)
Definition demo_functions : list SC2Function :=
  [ {| fn_id := 0; fn_general_id := 0; fn_args := [] |};
    {| fn_id := 4; fn_general_id := 0;
       fn_args := [ {| arg_id := 4 |}; {| arg_id := 5 |} ] |};
    {| fn_id := 7; fn_general_id := 9; fn_args := [ {| arg_id := 3 |} ] |};
    {| fn_id := 9; fn_general_id := 0;
       fn_args := [ {| arg_id := 3 |}; {| arg_id := 0 |} ] |} ].

Definition demo_lib : Pysc2 := {|
  _FUNCTIONS := demo_functions;
  get_unit_embed_lookup := [(48, 1); (105, 2)];
  get_buff_embed_lookup := [];
  get_arg_size_lookup := λ screen minimap,
    [(0, [screen; screen]); (3, [2]); (4, [5]); (5, [10])];
  player_columns := [1; 2]%nat;
  unit_feature_columns := [1; 2]%nat;
|}.

Definition demo_layer : list (list Z) := [[0; 1]; [2; 3]].

Definition demo_timestep (units : list (list Z)) : SC2TimeStep := {|
  sc_observation := {|
    available_actions := [0; 4; 9];
    feature_screen := {|
      screen_visibility_map := demo_layer; screen_height_map := demo_layer;
      screen_creep := demo_layer; screen_buildable := demo_layer;
      screen_pathable := demo_layer; screen_effects := demo_layer |};
    feature_minimap := {|
      mini_visibility_map := demo_layer; mini_height_map := demo_layer;
      mini_player_relative := demo_layer; mini_creep := demo_layer;
      mini_buildable := demo_layer; mini_pathable := demo_layer;
      mini_camera := demo_layer |};
    player := [1; 50; 25];
    feature_units := units |};
  sc_reward := 0;
  sc_last := false;
|}.

(** A simulator whose state counts the calls it served and which shows the
    same three units on every frame. *)
Definition demo_sim : SC2Env nat := {|
  sc2_create := λ _, inr 0%nat;
  sc2_functions := λ i, List.find (λ f, fn_id f =? i) demo_functions;
  sc2_step := λ _ n,
    (inr (demo_timestep [[48; 1; 100]; [105; 4; 35]; [48; 1; 60]]), S n);
  sc2_reset := λ n,
    (inr (demo_timestep [[48; 1; 100]; [105; 4; 35]; [48; 1; 60]]), S n);
|}.

Definition demo_sc2 (max_units : Z) : result (Sc2 nat) :=
  (Sc2_init demo_lib demo_sim "Simple64" 64 64 max_units 8 0 false false).2.

(** An environment of one state with the given action spaces, whose step
    shows the action it received as its observation. *)
Definition echo_env (action_spaces : spaces) : Env := {|
  St := unit;
  observation_space := λ _, inr {| is_gym_dict := true; space_items := [] |};
  action_space := λ _, inr action_spaces;
  step := λ action,
    ret (VTuple [VDict [("received", action)]; VFloat (Finite 0); VBool false; VDict []]);
  reset := ret (VDict []);
|}.

Definition half_bounded : spaces := {|
  is_gym_dict := true;
  space_items := [("action", Box [NegInf; Finite 0] [PosInf; Finite 2])];
|}.

(** A dm_control task with one observation and a two-step episode; its
    state is the number of steps taken. *)
Definition demo_dm : DMControl nat := {|
  suite_load := λ _ _, inr 0%nat;
  dm_action_spec := λ _, ([Finite (-1)], [Finite 1]);
  dm_observation_spec := λ _, [("position", [2%nat])];
  dm_step := λ _ n,
    (inr {| dm_reward := Some (Finite 1); dm_discount := Some (Finite 1);
            dm_observation := [("position", VArray [Finite 0; Finite 0])];
            dm_last := (2 <=? S n)%nat |}, S n);
  dm_reset := λ _,
    (inr {| dm_reward := None; dm_discount := None;
            dm_observation := [("position", VArray [Finite 0; Finite 0])];
            dm_last := false |}, 0%nat);
  dm_render := λ h w _ n, (inr (VImage [h; w; 3%nat] n), n);
|}.

(** An Atari emulator whose state is the number of frames shown. *)
Definition demo_gym : AtariGym nat := {|
  AtariEnv := λ _ _ _, inr 0%nat;
  configure_spec := λ n, n;
  AtariPreprocessing := λ n _ _ _ _ _, inr n;
  gym_step := λ _ n,
    (inr (VTuple [VImage [84; 84]%nat (S n); VFloat (Finite 0); VBool false; VDict []]),
     S n);
  gym_reset := λ _, (inr (VImage [84; 84]%nat 0), 0%nat);
  gym_get_ram := λ n, VIntArray [Z.of_nat n];
  gym_observation_space := λ _, BoxShaped (Finite 0) (Finite 255) [84; 84; 1]%nat;
  gym_action_space := λ _, Discrete 18;
|}.

(** A pooling layer with [d_model = 2], one head and one seed vector. *)
Definition demo_dense (biased : bool) : Dense := {|
  units := 2;
  kernel := [[1; 0]; [0; 1]]%R;
  bias := if biased then Some [0; 0]%R else None;
|}.

Definition demo_norm : LayerNormalization := {|
  epsilon := (1 / 1000000)%R;
  gamma := [1; 1]%R;
  beta := [0; 0]%R;
|}.

Definition demo_pooling : PoolingMultiheadAttention := {|
  mab := {|
    mha := {| num_heads := 1; d_model := 2; depth := 2;
              wq := demo_dense false; wk := demo_dense false;
              wv := demo_dense false; ff := demo_dense false |};
    ffn := {| ff1 := demo_dense true; ff2 := demo_dense true |};
    layernorm1 := demo_norm;
    layernorm2 := demo_norm;
  |};
  seed_vectors := [[[1; 2]]]%R;
|}.

(** Two sets of three entities of width two. *)
Definition demo_entities : list (list (list R)) :=
  [[[1; 0]; [0; 1]; [1; 1]]; [[2; 0]; [0; 2]; [2; 2]]]%R.

(** A padding mask of shape (2, 1, 1, 3) hiding the last entity of the
    second set. *)
Definition demo_mask : list (list (list (list R))) :=
  [[[[0; 0; 0]]]; [[[0; 0; 1]]]]%R.

(** The adapter [demo_sc2] builds, with its lookups written out. *)
Definition demo_self (max_units : Z) : Sc2 nat := {|
  blocked_actions := [4];
  unit_embed_lookup := [(48, 1); (105, 2)];
  buff_embed_lookup := [];
  action_embed_lookup := [(0, 0); (9, 1)];
  action_id_lookup := [(0, 0); (1, 9)];
  args_size_lookup := [(0, [64; 64]); (3, [2]); (4, [5]); (5, [10])];
  unit_max := max_units;
  sc2_env := 0%nat;
|}.

(** * Verification *)

(** ** Facts about the runtime model *)

Section dict_facts.
Context {K V : Type} `{EqDecision K}.
Implicit Types (d : dict K V) (k : K) (v : V).

Lemma dict_get_None k d : dict_get k d = None ↔ k ∉ d.*1.
Proof.
  induction d as [|[k' v'] d IH]; simpl.
  - split; [intros _; apply not_elem_of_nil | done].
  - rewrite not_elem_of_cons. destruct (decide (k = k')) as [Heq|Hne].
    + split; [done|]. by intros [Hne _].
    + rewrite IH. split; [by split|by intros [_ Hd]].
Qed.

Lemma dict_get_is_Some k d : is_Some (dict_get k d) ↔ k ∈ d.*1.
Proof.
  rewrite <- not_eq_None_Some, dict_get_None.
  split; [apply dec_stable | auto].
Qed.

Lemma dict_get_elem_of k v d : dict_get k d = Some v → (k, v) ∈ d.
Proof.
  induction d as [|[k' v'] d IH]; simpl; [done|].
  destruct (decide (k = k')) as [->|]; intros Hg.
  - injection Hg as ->. apply list_elem_of_here.
  - apply list_elem_of_further; auto.
Qed.

Lemma dict_get_NoDup k v d : NoDup d.*1 → (k, v) ∈ d → dict_get k d = Some v.
Proof.
  induction d as [|[k' v'] d IH]; simpl; intros Hnd Hin.
  - by apply elem_of_nil in Hin.
  - apply NoDup_cons in Hnd as [Hk' Hnd].
    apply elem_of_cons in Hin as [Heq|Hin].
    + injection Heq as -> ->. by rewrite decide_True.
    + destruct (decide (k = k')) as [->|]; [|auto].
      exfalso. apply Hk'. apply list_elem_of_fmap. by exists (k', v).
Qed.

Lemma dict_get_set_eq k v d : dict_get k (dict_set k v d) = Some v.
Proof.
  induction d as [|[k' v'] d IH]; simpl.
  - by rewrite decide_True.
  - destruct (decide (k = k')) as [->|Hne]; simpl.
    + by rewrite decide_True.
    + by rewrite decide_False.
Qed.

Lemma dict_get_set_ne k k' v d :
  k ≠ k' → dict_get k' (dict_set k v d) = dict_get k' d.
Proof.
  intros Hne. induction d as [|[k0 v0] d IH]; simpl.
  - by rewrite decide_False.
  - destruct (decide (k = k0)) as [->|]; simpl.
    + by rewrite !decide_False.
    + destruct (decide (k' = k0)); auto.
Qed.

Lemma dict_set_fresh k v d : k ∉ d.*1 → dict_set k v d = d ++ [(k, v)].
Proof.
  induction d as [|[k' v'] d IH]; simpl; [done|].
  rewrite not_elem_of_cons. intros [Hne Hd].
  rewrite decide_False by done. by rewrite IH.
Qed.

Lemma dict_update_fresh d items :
  NoDup (d.*1 ++ items.*1) → dict_update d items = d ++ items.
Proof.
  unfold dict_update. revert d.
  induction items as [|[k v] items IH]; intros d Hnd; simpl.
  - by rewrite app_nil_r.
  - simpl in Hnd. rewrite dict_set_fresh.
    + rewrite IH; [by rewrite <- app_assoc|].
      rewrite fmap_app. simpl. by rewrite <- app_assoc.
    + apply NoDup_app in Hnd as (_ & Hdis & _).
      intros Hin. apply (Hdis k Hin). apply list_elem_of_here.
Qed.

Lemma dict_of_items_NoDup (items : list (K * V)) :
  NoDup items.*1 → dict_of_items items = items.
Proof. intros Hnd. unfold dict_of_items. by rewrite dict_update_fresh. Qed.
End dict_facts.

Lemma rbind_inr {A B} (r : result A) (k : A → result B) (b : B) :
  rbind r k = inr b ↔ ∃ a, r = inr a ∧ k a = inr b.
Proof.
  destruct r as [e|a]; simpl.
  - split; [done|]. by intros (a & Ha & _).
  - split; [by exists a|]. by intros (a' & [= <-] & Hk).
Qed.

Lemma mapR_inr {A B} (f : A → result B) (l : list A) (l' : list B) :
  mapR f l = inr l' ↔ Forall2 (λ x y, f x = inr y) l l'.
Proof.
  revert l'. induction l as [|x l IH]; intros l'; simpl.
  - split; [intros [= <-]; constructor | by inversion 1].
  - rewrite rbind_inr. split.
    + intros (y & Hy & Hr). apply rbind_inr in Hr as (ys & Hys & [= <-]).
      constructor; [done|]. by apply IH.
    + inversion 1 as [|? y ? ys Hy Hys]; subst. exists y. split; [done|].
      apply IH in Hys. by rewrite Hys.
Qed.

Lemma mapR_total {A B} (f : A → result B) (g : A → B) (l : list A) :
  Forall (λ x, f x = inr (g x)) l → mapR f l = inr (g <$> l).
Proof.
  induction 1 as [|x l Hx _ IH]; simpl; [done|]. by rewrite Hx, IH.
Qed.


(** ** The StarCraft II adapter: action enumeration *)

Lemma enumerate_from_cons start k ids :
  enumerate_from start (k :: ids) = (k, start) :: enumerate_from (start + 1) ids.
Proof.
  unfold enumerate_from. simpl. f_equal; [f_equal; lia|].
  apply imap_ext. intros i x _. simpl. f_equal. lia.
Qed.

Lemma enumerate_from_keys start ids : (enumerate_from start ids).*1 = ids.
Proof.
  revert start. induction ids as [|k ids IH]; intros start; [done|].
  rewrite enumerate_from_cons. simpl. f_equal. apply IH.
Qed.

Lemma enumerate_from_values start ids :
  (enumerate_from start ids).*2 = (λ i, start + Z.of_nat i) <$> seq 0 (length ids).
Proof.
  revert start. induction ids as [|k ids IH]; intros start; [done|].
  rewrite enumerate_from_cons. simpl. f_equal; [lia|].
  rewrite IH, <- fmap_S_seq, <- list_fmap_compose.
  apply list_fmap_ext. intros _ i _. simpl. lia.
Qed.

Lemma enumerate_from_length start ids :
  length (enumerate_from start ids) = length ids.
Proof. unfold enumerate_from. apply length_imap. Qed.

Lemma action_lookup_fold blocked fs lookup index :
  NoDup (lookup.*1 ++ (fn_id <$> List.filter (enumerated_function blocked) fs)) →
  foldl (action_lookup_step blocked) (lookup, index) fs =
  (lookup ++ enumerate_from index (fn_id <$> List.filter (enumerated_function blocked) fs),
   index + Z.of_nat (length (List.filter (enumerated_function blocked) fs))).
Proof.
  revert lookup index. induction fs as [|f fs IH]; intros lookup index Hnd.
  - simpl. rewrite app_nil_r. f_equal. lia.
  - cbn [foldl List.filter]. unfold action_lookup_step at 2.
    fold (enumerated_function blocked f).
    destruct (enumerated_function blocked f) eqn:Hsel.
    + cbn [List.filter] in Hnd. rewrite Hsel in Hnd. simpl in Hnd.
      rewrite dict_set_fresh.
      * rewrite IH.
        -- simpl. rewrite enumerate_from_cons, <- app_assoc. simpl.
           f_equal. lia.
        -- rewrite fmap_app. simpl. by rewrite <- app_assoc.
      * apply NoDup_app in Hnd as (_ & Hdis & _).
        intros Hin. apply (Hdis _ Hin). apply list_elem_of_here.
    + cbn [List.filter] in Hnd. rewrite Hsel in Hnd. by apply IH.
Qed.

Lemma filter_fmap_NoDup {A B} (f : A → B) (p : A → bool) (l : list A) :
  NoDup (f <$> l) → NoDup (f <$> List.filter p l).
Proof.
  induction l as [|x l IH]; simpl; [done|].
  rewrite NoDup_cons. intros [Hx Hnd]. destruct (p x); simpl; [|auto].
  apply NoDup_cons. split; [|auto].
  intros Hin. apply Hx. apply list_elem_of_fmap in Hin as (y & -> & Hy).
  apply list_elem_of_fmap. exists y. split; [done|].
  apply list_elem_of_In in Hy. apply filter_In in Hy as [Hy _].
  by apply list_elem_of_In.
Qed.

Lemma get_action_lookup_spec blocked fs :
  NoDup (fn_id <$> fs) →
  _get_action_lookup blocked fs =
  enumerate_from 0 (fn_id <$> List.filter (enumerated_function blocked) fs).
Proof.
  intros Hnd. unfold _get_action_lookup.
  rewrite action_lookup_fold; [done|]. simpl. by apply filter_fmap_NoDup.
Qed.

Lemma seq_offsets_NoDup start n :
  NoDup ((λ i, start + Z.of_nat i) <$> seq 0 n).
Proof.
  apply NoDup_fmap_2; [|apply NoDup_seq]. intros i j Hij. lia.
Qed.

Lemma reversed_items_enumerate ids :
  reversed_items (enumerate_from 0 ids) =
  (λ kv, (kv.2, kv.1)) <$> enumerate_from 0 ids.
Proof.
  unfold reversed_items. apply dict_of_items_NoDup.
  rewrite <- list_fmap_compose.
  change (NoDup (enumerate_from 0 ids).*2).
  rewrite enumerate_from_values. apply seq_offsets_NoDup.
Qed.

Lemma arg_key_not_action_id arg i : arg_key arg i ≠ "action_id".
Proof. unfold arg_key. simpl. discriminate. Qed.

Lemma get_arg_keys_present {Sim} (self : Sc2 Sim) arg sizes :
  dict_get arg (args_size_lookup self) = Some sizes →
  _get_arg_keys self arg = inr (imap (λ i _, arg_key arg i) sizes).
Proof. intros Hg. unfold _get_arg_keys. by rewrite Hg. Qed.

Lemma action_space_inner_fold arg (sizes : list Z) n (pairs : list (nat * Z))
    (acc : dict string space) sp :
  dict_get "action_id" acc = Some sp →
  Forall (λ p, (p.1 < n)%nat) pairs →
  ∃ acc',
    foldl (λ acc' i_size,
       rbind acc' (λ action_args',
       rbind (from_option IndexError
                (imap (λ i (_ : Z), arg_key arg i) (replicate n 0) !! i_size.1)) (λ k,
       inr (dict_set k (Discrete i_size.2) action_args'))))
      (inr acc) pairs = inr acc'
    ∧ dict_get "action_id" acc' = Some sp.
Proof.
  revert acc. induction pairs as [|[i size] pairs IH]; intros acc Hacc Hall.
  - by exists acc.
  - apply Forall_cons in Hall as [Hi Hall]. simpl in Hi. cbn [foldl rbind fst snd].
    rewrite list_lookup_imap, lookup_replicate_2 by done. simpl.
    apply IH; [|done]. rewrite dict_get_set_ne; [done|apply arg_key_not_action_id].
Qed.

Lemma imap_const_replicate {A B} (f : nat → B) (l : list A) (x : Z) :
  imap (λ i _, f i) l = imap (λ i (_ : Z), f i) (replicate (length l) x).
Proof.
  apply list_eq. intros i. rewrite !list_lookup_imap.
  destruct (l !! i) eqn:Hl.
  - rewrite lookup_replicate_2; [done|]. by eapply lookup_lt_Some.
  - apply lookup_ge_None in Hl.
    by rewrite (proj1 (lookup_replicate_None (length l) x i) Hl).
Qed.

Lemma Sc2_action_space_total {Sim} (self : Sc2 Sim) :
  ∃ items,
    Sc2_action_space self = inr {| is_gym_dict := false; space_items := items |}
    ∧ dict_get "action_id" items =
        Some (Discrete (Z.of_nat (length (action_embed_lookup self)))).
Proof.
  unfold Sc2_action_space.
  set (sp := Discrete _).
  assert (∀ args acc, dict_get "action_id" acc = Some sp →
    Forall (λ a, a ∈ dict_keys (args_size_lookup self)) args →
    ∃ acc', foldl (λ acc arg,
       rbind acc (λ action_args,
       rbind (_get_arg_keys self arg) (λ arg_keys,
       rbind (from_option (KeyError (key_of_Z arg))
                (dict_get arg (args_size_lookup self))) (λ sizes,
       foldl (λ acc' i_size,
          rbind acc' (λ action_args',
          rbind (from_option IndexError (arg_keys !! i_size.1)) (λ k,
          inr (dict_set k (Discrete i_size.2) action_args'))))
         (inr action_args) (imap pair sizes)))))
      (inr acc) args = inr acc' ∧ dict_get "action_id" acc' = Some sp) as Hfold.
  { induction args as [|arg args IH]; intros acc Hacc Hall.
    - by exists acc.
    - apply Forall_cons in Hall as [Harg Hall].
      apply dict_get_is_Some in Harg as [sizes Hsizes].
      cbn [foldl rbind]. rewrite (get_arg_keys_present _ _ _ Hsizes), Hsizes.
      cbn [rbind from_option].
      rewrite (imap_const_replicate (arg_key arg) sizes 0).
      destruct (action_space_inner_fold arg sizes (length sizes) (imap pair sizes)
                  acc sp Hacc) as (acc1 & Hacc1 & Hget1).
      { apply Forall_forall. intros [i z] Hin.
        apply list_elem_of_lookup in Hin as (j & Hj).
        rewrite list_lookup_imap in Hj.
        destruct (sizes !! j) eqn:Hs; simplify_eq/=.
        by eapply lookup_lt_Some. }
      rewrite Hacc1. by apply IH. }
  destruct (Hfold (dict_keys (args_size_lookup self)) [("action_id", sp)])
    as (acc' & Hacc' & Hget); [done| by apply Forall_forall |].
  exists acc'. by rewrite Hacc'.
Qed.

Lemma dict_get_swap_enumerate ids k i :
  NoDup ids →
  dict_get k (enumerate_from 0 ids) = Some i ↔
  dict_get i ((λ kv, (kv.2, kv.1)) <$> enumerate_from 0 ids) = Some k.
Proof.
  intros Hnd.
  assert (∀ k i, (i, k) ∈ (λ kv : Z * Z, (kv.2, kv.1)) <$> enumerate_from 0 ids ↔
                 (k, i) ∈ enumerate_from 0 ids) as Hswap.
  { intros k' i'. rewrite list_elem_of_fmap. split.
    - intros ([? ?] & [= -> ->] & Hin). done.
    - intros Hin. by exists (k', i'). }
  split; intros Hg.
  - apply dict_get_NoDup.
    + rewrite <- list_fmap_compose. change (NoDup (enumerate_from 0 ids).*2).
      rewrite enumerate_from_values. apply seq_offsets_NoDup.
    + apply Hswap. by apply dict_get_elem_of.
  - apply dict_get_NoDup; [by rewrite enumerate_from_keys|].
    apply Hswap. by apply dict_get_elem_of.
Qed.

(** C2: [_get_action_lookup] numbers exactly the function ids that are
    general ([general_id = 0]) and not blocked, consecutively from 0 and in
    the order of [actions._FUNCTIONS]; [action_space] offers a [Discrete]
    space of that many actions under ['action_id']; and
    [action_embed_lookup] and [action_id_lookup] are inverse to each other.
    The ids of the library's table are pairwise distinct. *)
Theorem action_lookup_enumeration {Sim} (lib : Pysc2) (sim : SC2Env Sim)
    (map_name : string)
    (screen_size minimap_size max_units steps_per_action steps_per_episode : Z)
    (fog visualise : bool) (self : Sc2 Sim) :
  NoDup (fn_id <$> _FUNCTIONS lib) →
  (Sc2_init lib sim map_name screen_size minimap_size max_units steps_per_action
     steps_per_episode fog visualise).2 = inr self →
  let enumerated :=
    List.filter (λ f, (fn_general_id f =? 0) &&
                      negb (bool_decide (fn_id f ∈ blocked_actions self)))
      (_FUNCTIONS lib) in
  let N := Z.of_nat (length enumerated) in
  blocked_actions self = [4]
  ∧ action_embed_lookup self = imap (λ i f, (fn_id f, Z.of_nat i)) enumerated
  ∧ (∃ items,
       Sc2_action_space self = inr {| is_gym_dict := false; space_items := items |}
       ∧ dict_get "action_id" items = Some (Discrete N))
  ∧ (∀ k i, dict_get k (action_embed_lookup self) = Some i ↔
            dict_get i (action_id_lookup self) = Some k)
  ∧ (∀ k, is_Some (dict_get k (action_embed_lookup self)) ↔
          k ∈ fn_id <$> enumerated)
  ∧ (∀ i, is_Some (dict_get i (action_id_lookup self)) ↔ 0 ≤ i < N).
Proof.
  intros Hnd Hinit. unfold Sc2_init in Hinit. cbn [snd] in Hinit.
  apply rbind_inr in Hinit as (env & _ & [= <-]). cbn.
  fold (enumerated_function [4]).
  set (enumerated := List.filter (enumerated_function [4]) (_FUNCTIONS lib)).
  assert (NoDup (fn_id <$> enumerated)) as Hids by by apply filter_fmap_NoDup.
  assert (_get_action_lookup [4] (_FUNCTIONS lib) =
          enumerate_from 0 (fn_id <$> enumerated)) as Hembed
    by by apply get_action_lookup_spec.
  rewrite Hembed, reversed_items_enumerate.
  split; [done|]. split; [|split; [|split; [|split]]].
  - unfold enumerate_from. rewrite imap_fmap. by apply imap_ext.
  - destruct (Sc2_action_space_total
      {| blocked_actions := [4];
         unit_embed_lookup := get_unit_embed_lookup lib;
         buff_embed_lookup := get_buff_embed_lookup lib;
         action_embed_lookup := enumerate_from 0 (fn_id <$> enumerated);
         action_id_lookup :=
           (λ kv : Z * Z, (kv.2, kv.1)) <$> enumerate_from 0 (fn_id <$> enumerated);
         args_size_lookup := get_arg_size_lookup lib screen_size minimap_size;
         unit_max := max_units; sc2_env := env |}) as (items & Hsp & Hget).
    exists items. split; [done|]. rewrite Hget. cbn.
    by rewrite enumerate_from_length, length_fmap.
  - intros k i. by apply dict_get_swap_enumerate.
  - intros k. by rewrite dict_get_is_Some, enumerate_from_keys.
  - intros i. rewrite dict_get_is_Some, <- list_fmap_compose.
    change (i ∈ (enumerate_from 0 (fn_id <$> enumerated)).*2 ↔
            0 ≤ i < Z.of_nat (length enumerated)).
    rewrite enumerate_from_values, length_fmap, list_elem_of_fmap.
    split.
    + intros (j & -> & Hj). apply elem_of_seq in Hj. lia.
    + intros Hi. exists (Z.to_nat i). split; [lia|]. apply elem_of_seq. lia.
Qed.

Lemma action_lookup_enumeration_witness :
  ∃ self,
    demo_sc2 2 = inr self
    ∧ action_embed_lookup self = [(0, 0); (9, 1)]
    ∧ action_id_lookup self = [(0, 0); (1, 9)]
    ∧ (∀ k i, dict_get k (action_embed_lookup self) = Some i ↔
              dict_get i (action_id_lookup self) = Some k).
Proof.
  eexists. split; [reflexivity|]. split; [reflexivity|]. split; [reflexivity|].
  refine (proj1 (proj2 (proj2 (proj2
    (action_lookup_enumeration demo_lib demo_sim "Simple64" 64 64 2 8 0 false false
       _ _ _))))).
  - apply (bool_decide_unpack (NoDup (fn_id <$> _FUNCTIONS demo_lib))).
    vm_compute. exact I.
  - reflexivity.
Defined.

(** ** The StarCraft II adapter: arguments of an action *)

Lemma imap_index_only {A B} (f : nat → B) (l : list A) :
  imap (λ i _, f i) l = f <$> seq 0 (length l).
Proof.
  apply list_eq. intros i. rewrite list_lookup_imap, list_lookup_fmap.
  destruct (l !! i) eqn:Hl; simpl.
  - rewrite lookup_seq_lt; [done|]. by eapply lookup_lt_Some.
  - apply lookup_ge_None in Hl. by rewrite lookup_seq_ge.
Qed.

Lemma get_arg_keys_expected {Sim} (self : Sc2 Sim) arg :
  is_Some (dict_get arg (args_size_lookup self)) →
  _get_arg_keys self arg = inr (expected_arg_keys self arg).
Proof.
  intros [sizes Hs]. rewrite (get_arg_keys_present _ _ _ Hs).
  unfold expected_arg_keys, arg_sizes. rewrite Hs. simpl.
  by rewrite imap_index_only.
Qed.

Section arguments.
Context {Sim : Type} (sim : SC2Env Sim) (self : Sc2 Sim).

Lemma required_arg_keys_known f :
  args_known self f →
  required_arg_keys self f =
  inr ((λ r, expected_arg_keys self (arg_id r)) <$> fn_args f).
Proof.
  intros Hk. unfold required_arg_keys. apply mapR_total.
  eapply Forall_impl; [exact Hk|]. intros r Hr. by apply get_arg_keys_expected.
Qed.

Lemma resolves_functional a f f' : resolves sim self a f → resolves sim self a f' → f = f'.
Proof. intros (fid & H1 & H2 & _) (fid' & H1' & H2' & _). congruence. Qed.

Lemma action_arg_lookup_fold ids acc :
  Forall (λ a, ∃ f, resolves sim self a f) ids →
  ∃ reqs,
    foldl (λ acc action_id,
       rbind acc (λ action_arg_reqs,
       rbind (from_option (KeyError (key_of_Z action_id))
                (dict_get action_id (action_id_lookup self))) (λ fid,
       rbind (functions_getitem sim fid) (λ f,
       rbind (required_arg_keys self f) (λ keys,
       inr (dict_set action_id (concat keys) action_arg_reqs))))))
      (inr acc) ids = inr reqs
    ∧ ∀ a, (a ∈ ids → ∀ f, resolves sim self a f →
              dict_get a reqs =
              Some (concat ((λ r, expected_arg_keys self (arg_id r)) <$> fn_args f)))
           ∧ (a ∉ ids → dict_get a reqs = dict_get a acc).
Proof.
  revert acc. induction ids as [|a0 ids IH]; intros acc Hall.
  - exists acc. split; [done|]. intros a. split; [|done].
    intros Hin. by apply elem_of_nil in Hin.
  - apply Forall_cons in Hall as [(f0 & Hres0) Hall].
    pose proof Hres0 as (fid & Hfid & Hf0 & Hk0).
    cbn [foldl rbind]. rewrite Hfid. cbn [from_option rbind].
    unfold functions_getitem. rewrite Hf0. cbn [from_option rbind].
    rewrite (required_arg_keys_known _ Hk0). cbn [rbind].
    destruct (IH (dict_set a0
      (concat ((λ r, expected_arg_keys self (arg_id r)) <$> fn_args f0)) acc) Hall)
      as (reqs & Hfold & Hreqs).
    exists reqs. split; [done|]. intros a. split.
    + intros Hin f Hres. destruct (decide (a ∈ ids)) as [Hids|Hids].
      * by apply (proj1 (Hreqs a)).
      * rewrite (proj2 (Hreqs a) Hids).
        apply elem_of_cons in Hin as [->|]; [|done].
        rewrite dict_get_set_eq. by rewrite (resolves_functional _ _ _ Hres Hres0).
    + intros Hnin. apply not_elem_of_cons in Hnin as [Hne Hnin].
      rewrite (proj2 (Hreqs a) Hnin). by apply dict_get_set_ne.
Qed.

Lemma rebuild_args_known (items : dict string value) f :
  args_known self f →
  Forall (λ k, is_Some (dict_get k items))
    (concat ((λ r, expected_arg_keys self (arg_id r)) <$> fn_args f)) →
  ∃ args,
    mapR (λ r,
       rbind (_get_arg_keys self (arg_id r)) (λ keys,
       mapR (λ k, getitem (VDict items) k) keys)) (fn_args f) = inr args
    ∧ Forall2 (λ r vs,
        Forall2 (λ k v, dict_get k items = Some v)
          (expected_arg_keys self (arg_id r)) vs) (fn_args f) args.
Proof.
  unfold args_known. induction (fn_args f) as [|r rs IH]; intros Hk Hpres.
  - exists []. split; [done|constructor].
  - apply Forall_cons in Hk as [Hr Hk]. simpl in Hpres.
    apply Forall_app in Hpres as [Hpr Hpres].
    destruct (IH Hk Hpres) as (args & Hargs & Hall).
    assert (∃ vs, mapR (λ k, getitem (VDict items) k)
                    (expected_arg_keys self (arg_id r)) = inr vs
                  ∧ Forall2 (λ k v, dict_get k items = Some v)
                      (expected_arg_keys self (arg_id r)) vs) as (vs & Hvs & Hvall).
    { assert (∃ vs, Forall2 (λ k v, dict_get k items = Some v)
                      (expected_arg_keys self (arg_id r)) vs) as (vs & Hvall).
      { clear -Hpr. induction Hpr as [|k ks [v Hv] _ (vs & Hall)].
        - exists []. constructor.
        - exists (v :: vs). by constructor. }
      exists vs. split; [|done]. apply mapR_inr.
      eapply Forall2_impl; [exact Hvall|]. intros k v Hkv. simpl. by rewrite Hkv. }
    exists (vs :: args). split; [|by constructor].
    cbn [mapR]. rewrite (get_arg_keys_expected _ _ Hr). cbn [rbind].
    rewrite Hvs. cbn [rbind]. by rewrite Hargs.
Qed.
End arguments.

(** C3: for every embedded action index, [action_arg_lookup] lists exactly
    the keys ['arg_{arg_id}_{i}'], one per dimension [i] of each argument the
    pysc2 function requires, in the order of its argument specification; and
    [Sc2.step] calls the simulator with the function id and, per required
    argument in that order, the values the action dict holds under those
    keys. The action specification and the size lookup know every function
    and argument type that is enumerated. *)
Theorem action_arguments {Sim} (lib : Pysc2) (sim : SC2Env Sim) (self : Sc2 Sim) :
  (∀ a, a ∈ dict_keys (action_id_lookup self) → ∃ f, resolves sim self a f) →
  ∃ reqs,
    action_arg_lookup sim self = inr reqs
    ∧ ∀ a fid f,
        dict_get a (action_id_lookup self) = Some fid →
        sc2_functions sim fid = Some f →
        let keys := (λ r, expected_arg_keys self (arg_id r)) <$> fn_args f in
        dict_get a reqs = Some (concat keys)
        ∧ ∀ items,
            dict_get "action_id" items = Some (VInt a) →
            Forall (λ k, is_Some (dict_get k items)) (concat keys) →
            ∃ args,
              rebuild_action sim self (VDict items) =
                inr {| call_function := fid; call_arguments := args |}
              ∧ Forall2 (λ ks vs, Forall2 (λ k v, dict_get k items = Some v) ks vs)
                  keys args
              ∧ trace (Sc2_step lib sim (VDict items)) self = [Call "SC2Env.step"]
              ∧ sc2_env (final (Sc2_step lib sim (VDict items)) self) =
                  (sc2_step sim {| call_function := fid; call_arguments := args |}
                     (sc2_env self)).2.
Proof.
  intros Hres.
  destruct (action_arg_lookup_fold sim self (dict_keys (action_id_lookup self)) [])
    as (reqs & Hfold & Hreqs).
  { apply Forall_forall. exact Hres. }
  exists reqs. split; [exact Hfold|].
  intros a fid f Hfid Hf keys.
  assert (a ∈ dict_keys (action_id_lookup self)) as Hin.
  { apply dict_get_is_Some. by exists fid. }
  destruct (Hres a Hin) as (f' & Hres').
  assert (f' = f) as ->.
  { destruct Hres' as (fid' & Hfid' & Hf' & _). congruence. }
  split; [by apply (proj1 (Hreqs a))|].
  intros items Hid Hpres.
  destruct Hres' as (fid' & Hfid' & _ & Hknown).
  destruct (rebuild_args_known self items f Hknown Hpres) as (args & Hargs & Hall).
  assert (rebuild_action sim self (VDict items) =
          inr {| call_function := fid; call_arguments := args |}) as Hcall.
  { unfold rebuild_action.
    replace (getitem (VDict items) "action_id") with (inr (VInt a) : result value)
      by (simpl; by rewrite Hid).
    cbn [from_option rbind]. rewrite Hfid. cbn [from_option rbind].
    unfold functions_getitem. rewrite Hf. cbn [from_option rbind].
    by rewrite Hargs. }
  exists args. split; [exact Hcall|]. split.
  { apply Forall2_fmap_l. eapply Forall2_impl; [exact Hall|]. done. }
  unfold trace, final, Sc2_step, bind, get, lift_result, sc2_call, ret.
  rewrite Hcall.
  destruct (sc2_step sim _ (sc2_env self)) as [[e|timestep] env']; [done|].
  cbn. by destruct (collect_sc_observation lib self timestep).
Qed.

Lemma action_arguments_witness :
  ∃ self reqs,
    demo_sc2 2 = inr self
    ∧ action_arg_lookup demo_sim self = inr reqs
    ∧ dict_get 1 reqs = Some ["arg_3_0"; "arg_0_0"; "arg_0_1"]
    ∧ rebuild_action demo_sim self
        (VDict [("action_id", VInt 1); ("arg_0_0", VInt 11); ("arg_0_1", VInt 12);
                ("arg_3_0", VInt 1); ("arg_4_0", VInt 3)]) =
      inr {| call_function := 9;
             call_arguments := [[VInt 1]; [VInt 11; VInt 12]] |}.
Proof.
  eexists. 
  destruct (action_arguments demo_lib demo_sim
    {| blocked_actions := [4];
       unit_embed_lookup := [(48, 1); (105, 2)];
       buff_embed_lookup := [];
       action_embed_lookup := [(0, 0); (9, 1)];
       action_id_lookup := [(0, 0); (1, 9)];
       args_size_lookup := [(0, [64; 64]); (3, [2]); (4, [5]); (5, [10])];
       unit_max := 2; sc2_env := 0%nat |}) as (reqs & Hreqs & Hall).
  - intros a Hin. cbn in Hin.
    apply elem_of_cons in Hin as [->|Hin];
      [|apply elem_of_cons in Hin as [->|Hin]; [|by apply elem_of_nil in Hin]].
    + eexists. exists 0. split; [reflexivity|]. split; [reflexivity|]. constructor.
    + eexists. exists 9. split; [reflexivity|]. split; [reflexivity|].
      repeat constructor; by eexists.
  - exists reqs. split; [reflexivity|]. split; [exact Hreqs|].
    destruct (Hall 1 9 _ eq_refl eq_refl) as [Hget Hstep]. split; [exact Hget|].
    reflexivity.
Defined.

(** ** The StarCraft II adapter: unit rows *)

Section unit_rows.
Context {Sim : Type} (lib : Pysc2) (self : Sc2 Sim).

Lemma collect_units_rows units unit_type_ids unit_embed_ids unit_features :
  mapR (λ row, from_option IndexError (row !! 0%nat)) units = inr unit_type_ids →
  mapR (λ x, from_option (KeyError (key_of_Z x))
               (dict_get x (unit_embed_lookup self))) unit_type_ids
    = inr unit_embed_ids →
  mapR (take_columns (unit_feature_columns lib)) units = inr unit_features →
  Forall2 (unit_row lib self) units (zip_with cons unit_embed_ids unit_features).
Proof.
  rewrite !mapR_inr. intros Hids. revert unit_embed_ids unit_features.
  induction Hids as [|row type units ids Hrow _ IH];
    intros embeds feats Hemb Hfeat.
  - inversion Hemb; subst. inversion Hfeat; subst. constructor.
  - inversion Hemb as [|? embed ? embeds' Hembed Hembs]; subst.
    inversion Hfeat as [|? features ? feats' Hfeatures Hfeats]; subst.
    simpl. constructor; [|by apply IH].
    exists type, embed, features. repeat split; [| |done].
    + by destruct (row !! 0%nat); simplify_eq/=.
    + by destruct (dict_get type (unit_embed_lookup self)); simplify_eq/=.
Qed.

(** Whenever the unit rows are returned, there were at most [unit_max]
    units: their rows come first, zero rows fill up to [unit_max]. *)
Lemma collect_units_padded units rows count :
  collect_units lib self units = inr (rows, count) →
  ∃ units_out,
    Forall2 (unit_row lib self) units units_out
    ∧ Z.of_nat (length units) ≤ unit_max self
    ∧ rows = units_out ++
             replicate (Z.to_nat (unit_max self) - length units)
               (replicate (S (length (unit_feature_columns lib))) 0)
    ∧ Z.of_nat (length rows) = unit_max self
    ∧ count = Z.of_nat (length units).
Proof.
  unfold collect_units. intros Hc.
  apply rbind_inr in Hc as (ids & Hids & Hc).
  apply rbind_inr in Hc as (embeds & Hembeds & Hc).
  apply rbind_inr in Hc as (feats & Hfeats & Hc).
  pose proof (collect_units_rows _ _ _ _ Hids Hembeds Hfeats) as Hrows.
  pose proof (Forall2_length _ _ _ Hrows) as Hlen.
  destruct (unit_max self - Z.of_nat (length (zip_with cons embeds feats)) <? 0)
    eqn:Hneg; [done|].
  injection Hc as <- <-. apply Z.ltb_ge in Hneg.
  exists (zip_with cons embeds feats). split; [done|].
  split; [lia|]. split; [f_equal; f_equal; lia|].
  split; [|by rewrite Hlen].
  rewrite length_app, length_replicate. lia.
Qed.

(** With more than [unit_max] units no observation is returned. *)
Lemma collect_units_too_many units :
  unit_max self < Z.of_nat (length units) →
  ∃ e, collect_units lib self units = inl e.
Proof.
  intros Hmany. destruct (collect_units lib self units) as [e|[rows count]] eqn:Hc.
  - by exists e.
  - apply collect_units_padded in Hc as (? & _ & Hle & _). lia.
Qed.
End unit_rows.

(** C1 (the code does not truncate): with [max_units = 2] and three units on
    the screen, the padding has a negative number of rows, [np.zeros] raises,
    and neither unit rows nor an observation are returned. *)
Theorem collect_units_exceeding_max :
  ∃ self,
    demo_sc2 2 = inr self
    ∧ collect_units demo_lib self [[48; 1; 100]; [105; 4; 35]; [48; 1; 60]]
      = inl (ValueError "negative dimensions are not allowed")
    ∧ outcome (Sc2_reset demo_lib demo_sim) self
      = inl (ValueError "negative dimensions are not allowed").
Proof. eexists. split; [reflexivity|]. split; reflexivity. Qed.

(** The same frame with [max_units = 5]: three unit rows, two rows of
    padding, and a count of three. *)
Example collect_units_within_max :
  ∃ self,
    demo_sc2 5 = inr self
    ∧ collect_units demo_lib self [[48; 1; 100]; [105; 4; 35]; [48; 1; 60]]
      = inr ([[1; 1; 100]; [2; 4; 35]; [1; 1; 60]; [0; 0; 0]; [0; 0; 0]], 3).
Proof. eexists. split; reflexivity. Qed.

(** ** Running methods *)

Ltac run_method :=
  unfold bind, inner, fields, set_fields, ret, raise, get, put, lift_result,
    trace, outcome, final;
  cbn.

(** ** [TimeLimit] *)

(** C8: [TimeLimit.step] fails its assertion while the counter is [None],
    that is before any reset and after a step that ended the episode at the
    limit; otherwise it steps the wrapped environment and increments the
    counter; when the counter has then reached the duration it forces
    [done = True], adds [info['discount'] = 1.0] unless the wrapped step
    gave a discount, and clears the counter; [reset] sets the counter
    to 0. *)
Theorem time_limit_protocol (E : Env) (env : St E) (duration : Z) (action : value) :
  let state c := (env, {| tl_duration := duration; tl_step := c |}) in
  TimeLimit_init E env duration = ([], inr (state None))
  ∧ TimeLimit_step E action (state None) =
      ([], state None, inl (AssertionError "Must reset environment."))
  ∧ (∀ c tr env' r,
       reset E env = (tr, env', r) →
       TimeLimit_reset E (state c) =
         (tr, (env', {| tl_duration := duration; tl_step := Some 0 |}), r))
  ∧ (∀ n tr env' e,
       step E action env = (tr, env', inl e) →
       TimeLimit_step E action (state (Some n)) =
         (tr, (env', {| tl_duration := duration; tl_step := Some n |}), inl e))
  ∧ (∀ n tr env' obs reward done info,
       step E action env = (tr, env', inr (VTuple [obs; reward; done; VDict info])) →
       TimeLimit_step E action (state (Some n)) =
         if duration <=? n + 1
         then (tr, (env', {| tl_duration := duration; tl_step := None |}),
               inr (VTuple [obs; reward; VBool true;
                            VDict (if dict_mem "discount" info then info
                                   else dict_set "discount" (VFloat (Finite 1)) info)]))
         else (tr, (env', {| tl_duration := duration; tl_step := Some (n + 1) |}),
               inr (VTuple [obs; reward; done; VDict info]))).
Proof.
  intros state. split; [done|]. split; [done|]. split; [|split].
  - intros c tr env' r Hr. unfold TimeLimit_reset, state. run_method.
    rewrite Hr. destruct r; by rewrite ?app_nil_r.
  - intros n tr env' e Hs. unfold TimeLimit_step, state. run_method.
    by rewrite Hs.
  - intros n tr env' obs reward done info Hs. unfold TimeLimit_step, state.
    run_method. rewrite Hs. cbn.
    destruct (duration <=? n + 1); cbn; [|by rewrite app_nil_r].
    unfold dict_mem. destruct (dict_get "discount" info); cbn; by rewrite app_nil_r.
Qed.

Lemma time_limit_protocol_witness :
  step Dummy_env (VDict []) tt =
    ([], tt, inr (VTuple [VDict [("image", VImage [64; 64; 3]%nat 0)];
                          VFloat (Finite 0); VBool false; VDict []]))
  ∧ TimeLimit_step Dummy_env (VDict [])
      (tt, {| tl_duration := 2; tl_step := Some 1 |}) =
    ([], (tt, {| tl_duration := 2; tl_step := None |}),
     inr (VTuple [VDict [("image", VImage [64; 64; 3]%nat 0)];
                  VFloat (Finite 0); VBool true;
                  VDict [("discount", VFloat (Finite 1))]])).
Proof.
  split; [reflexivity|].
  exact (proj2 (proj2 (proj2 (proj2
    (time_limit_protocol Dummy_env tt 2 (VDict [])))))
    1 [] tt _ _ _ _ eq_refl).
Defined.

(** A step of [TimeLimit] whose wrapped step returns a 4-tuple with a dict
    as [info]. *)
Lemma TimeLimit_step_returns (E : Env) (env : St E) (duration n : Z)
    (action : value) tr env' obs reward fin info :
  step E action env = (tr, env', inr (VTuple [obs; reward; fin; VDict info])) →
  TimeLimit_step E action (env, {| tl_duration := duration; tl_step := Some n |}) =
    if duration <=? n + 1
    then (tr, (env', {| tl_duration := duration; tl_step := None |}),
          inr (VTuple [obs; reward; VBool true;
                       VDict (if dict_mem "discount" info then info
                              else dict_set "discount" (VFloat (Finite 1)) info)]))
    else (tr, (env', {| tl_duration := duration; tl_step := Some (n + 1) |}),
          inr (VTuple [obs; reward; fin; VDict info])).
Proof.
  intros Hs. unfold TimeLimit_step. run_method. rewrite Hs. cbn.
  destruct (duration <=? n + 1); cbn; [|by rewrite app_nil_r].
  unfold dict_mem. destruct (dict_get "discount" info); cbn; by rewrite app_nil_r.
Qed.

(** From a reset on, as long as the wrapped steps return, the counter stays
    below the duration: it is cleared exactly at the step that makes it
    equal to the duration. *)
Lemma time_limit_counter_in_range (E : Env) (env : St E) (duration n : Z)
    (action : value) tr env' obs reward fin info :
  0 ≤ n < duration →
  step E action env = (tr, env', inr (VTuple [obs; reward; fin; VDict info])) →
  let after :=
    (final (TimeLimit_step E action)
       (env, {| tl_duration := duration; tl_step := Some n |})).2 in
  (n + 1 = duration ∧ tl_step after = None)
  ∨ (0 ≤ n + 1 < duration ∧ tl_step after = Some (n + 1)).
Proof.
  intros Hn Hs after. subst after. unfold final.
  rewrite (TimeLimit_step_returns E env duration n action _ _ _ _ _ _ Hs).
  destruct (duration <=? n + 1) eqn:Hle; cbn.
  - left. apply Z.leb_le in Hle. split; [lia|done].
  - right. apply Z.leb_gt in Hle. split; [lia|done].
Qed.

(** ** [OneHotAction] *)

Lemma zeros_like_replicate (a : list num) :
  zeros_like a = replicate (length a) (Finite 0).
Proof. unfold zeros_like. by apply const_fmap. Qed.

Lemma one_hot_length n i : length (one_hot n i) = n.
Proof. unfold one_hot. by rewrite length_insert, length_replicate. Qed.

Lemma one_hot_lookup n i j :
  (j < n)%nat →
  one_hot n i !! j = Some (if decide (j = i) then Finite 1 else Finite 0).
Proof.
  intros Hj. unfold one_hot. destruct (decide (j = i)) as [->|Hne].
  - rewrite list_lookup_insert_eq; [done|]. by rewrite length_replicate.
  - rewrite list_lookup_insert_ne by done. by apply lookup_replicate_2.
Qed.

Lemma one_hot_index_argmax (a : list num) (index : nat) :
  np_argmax a = inr index →
  one_hot_index a = inr (if tolerant a index then Z.of_nat index else -1).
Proof.
  intros Harg. unfold one_hot_index, np_allclose, broadcast2, tolerant.
  rewrite Harg. cbn [rbind]. rewrite zeros_like_replicate.
  fold (one_hot (length a) index).
  rewrite decide_True by apply one_hot_length. cbn [rbind].
  by destruct (forallb _ _).
Qed.

Lemma tolerant_spec (a : list num) (index : nat) :
  tolerant a index = true ↔
  ∀ j x, a !! j = Some x →
         isclose (if decide (j = index) then Finite 1 else Finite 0) x = true.
Proof.
  unfold tolerant. rewrite forallb_forall. split.
  - intros Hall j x Hj. apply Hall. apply list_elem_of_In, list_elem_of_lookup.
    exists j. rewrite lookup_zip_with, one_hot_lookup by (by eapply lookup_lt_Some).
    simpl. by rewrite Hj.
  - intros Hall c Hc. apply list_elem_of_In, list_elem_of_lookup in Hc as (j & Hj).
    rewrite lookup_zip_with in Hj.
    destruct (a !! j) as [x|] eqn:Hx.
    + rewrite one_hot_lookup in Hj by (by eapply lookup_lt_Some).
      simpl in Hj. injection Hj as <-. by apply Hall.
    + by destruct (one_hot (length a) index !! j).
Qed.

Lemma isclose_num_eq (r x : num) : isfinite r = true → num_eq x r → isclose r x = true.
Proof.
  destruct r as [q| | |], x as [p| | |];
    cbn [isclose num_eq isfinite num_eqb]; try done.
  intros _ Heq. apply Qle_bool_iff. rewrite Heq.
  setoid_replace (q - q)%Q with 0%Q using relation Qeq by ring.
  change (Qabs 0) with 0%Q. pose proof (Qabs_nonneg q) as Hq.
  unfold atol, rtol. Lqa.lra.
Qed.

Lemma is_one_hot_tolerant a i : is_one_hot a i → tolerant a i = true.
Proof.
  intros [_ Hall]. apply tolerant_spec. intros j x Hj.
  apply isclose_num_eq; [by destruct (decide (j = i))|by apply Hall].
Qed.

Lemma argmax_from_keeps best_i best k xs :
  Forall (λ x, argmax_takes best x = false) xs →
  argmax_from best_i best k xs = best_i.
Proof.
  revert k. induction xs as [|x xs IH]; intros k Hall; [done|].
  apply Forall_cons in Hall as [Hx Hall]. simpl. rewrite Hx. by apply IH.
Qed.

Lemma argmax_takes_zero_zero x y :
  num_eq x (Finite 0) → num_eq y (Finite 0) → argmax_takes x y = false.
Proof.
  destruct x as [p| | |], y as [q| | |];
    cbn [argmax_takes num_ltb num_eq]; try done.
  intros Hp Hq. apply negb_false_iff, Qle_bool_iff. by rewrite Hp, Hq.
Qed.

Lemma argmax_takes_one_zero x y :
  num_eq x (Finite 1) → num_eq y (Finite 0) → argmax_takes x y = false.
Proof.
  destruct x as [p| | |], y as [q| | |];
    cbn [argmax_takes num_ltb num_eq]; try done.
  intros Hp Hq. apply negb_false_iff, Qle_bool_iff. by rewrite Hp, Hq.
Qed.

Lemma argmax_takes_zero_one x y :
  num_eq x (Finite 0) → num_eq y (Finite 1) → argmax_takes x y = true.
Proof.
  destruct x as [p| | |], y as [q| | |];
    cbn [argmax_takes num_ltb num_eq]; try done.
  intros Hp Hq. apply negb_true_iff. destruct (Qle_bool q p) eqn:Hle; [|done].
  apply Qle_bool_iff in Hle. rewrite Hp, Hq in Hle. by apply Qle_not_lt in Hle.
Qed.

Lemma argmax_from_one_hot best_i best k xs i :
  num_eq best (Finite 0) →
  (i < length xs)%nat →
  (∀ j x, xs !! j = Some x →
          num_eq x (if decide (j = i) then Finite 1 else Finite 0)) →
  argmax_from best_i best k xs = (k + i)%nat.
Proof.
  revert best_i best k i. induction xs as [|x xs IH]; intros bi best k i Hb Hi Hall.
  - simpl in Hi. lia.
  - simpl. destruct i as [|i].
    + pose proof (Hall 0%nat x eq_refl) as Hx. simpl in Hx.
      rewrite (argmax_takes_zero_one _ _ Hb Hx).
      rewrite argmax_from_keeps; [lia|].
      apply Forall_forall. intros y Hy. apply list_elem_of_lookup in Hy as (j & Hj).
      apply argmax_takes_one_zero; [done|]. by apply (Hall (S j) y Hj).
    + pose proof (Hall 0%nat x eq_refl) as Hx. simpl in Hx.
      rewrite (argmax_takes_zero_zero _ _ Hb Hx).
      rewrite (IH bi best (S k) i); [lia|done|simpl in Hi; lia|].
      intros j y Hj. specialize (Hall (S j) y Hj).
      destruct (decide (j = i)), (decide (S j = S i)); done || lia.
Qed.

Lemma is_one_hot_argmax a i : is_one_hot a i → np_argmax a = inr i.
Proof.
  intros [Hi Hall]. destruct a as [|x a]; [simpl in Hi; lia|].
  unfold np_argmax. f_equal. destruct i as [|i].
  - apply argmax_from_keeps. apply Forall_forall. intros y Hy.
    apply list_elem_of_lookup in Hy as (j & Hj).
    apply argmax_takes_one_zero; [by apply (Hall 0%nat x)|by apply (Hall (S j) y)].
  - rewrite (argmax_from_one_hot 0 x 1 a i); [done| |simpl in Hi; lia|].
    + by apply (Hall 0%nat x).
    + intros j y Hj. specialize (Hall (S j) y Hj).
      destruct (decide (j = i)), (decide (S j = S i)); done || lia.
Qed.

Lemma np_argmax_nonempty (a : list num) : a ≠ [] → ∃ index, np_argmax a = inr index.
Proof. destruct a; [done|]. intros _. by eexists. Qed.

Lemma one_hot_indices_fold (items : dict string value) keys acc :
  (∀ k, k ∈ keys → ∃ a, dict_get k items = Some (VArray a) ∧ a ≠ []) →
  ∃ indices,
    foldl (λ acc k,
       rbind acc (λ action_indices,
       rbind (rbind (getitem (VDict items) k) as_array) (λ a,
       rbind (one_hot_index a) (λ index,
       inr (dict_set k (VInt index) action_indices)))))
      (inr acc) keys = inr indices
    ∧ ∀ k, (k ∈ keys → ∀ a index,
              dict_get k items = Some (VArray a) → np_argmax a = inr index →
              dict_get k indices =
              Some (VInt (if tolerant a index then Z.of_nat index else -1)))
           ∧ (k ∉ keys → dict_get k indices = dict_get k acc).
Proof.
  revert acc. induction keys as [|k0 keys IH]; intros acc Hall.
  - exists acc. split; [done|]. intros k. split; [|done].
    intros Hin. by apply elem_of_nil in Hin.
  - destruct (Hall k0) as (a0 & Hk0 & Hne); [apply list_elem_of_here|].
    destruct (np_argmax_nonempty a0 Hne) as (i0 & Hi0).
    cbn [foldl rbind getitem]. rewrite Hk0. cbn [from_option rbind as_array].
    rewrite (one_hot_index_argmax _ _ Hi0). cbn [rbind].
    destruct (IH (dict_set k0 (VInt (if tolerant a0 i0 then Z.of_nat i0 else -1)) acc))
      as (indices & Hfold & Hind).
    { intros k Hk. apply Hall. by apply list_elem_of_further. }
    exists indices. split; [done|]. intros k. split.
    + intros Hin a index Hk Harg. destruct (decide (k ∈ keys)) as [Hkeys|Hkeys].
      * by apply (proj1 (Hind k)).
      * rewrite (proj2 (Hind k) Hkeys).
        apply elem_of_cons in Hin as [->|]; [|done].
        rewrite dict_get_set_eq.
        assert (a = a0) as -> by congruence.
        assert (index = i0) as -> by congruence. done.
    + intros Hnin. apply not_elem_of_cons in Hnin as [Hne' Hnin].
      rewrite (proj2 (Hind k) Hnin). by apply dict_get_set_ne.
Qed.

(** C9, as the code has it: for every key of the wrapped action space,
    [OneHotAction.step] forwards [argmax(action[k])] exactly when every
    entry of [action[k]] is within the tolerance of [np.allclose]
    ([|ref - a| <= 1e-8 + 1e-5 * |a|]) of the one-hot vector at that argmax,
    and the sentinel [-1] otherwise, without raising; an exactly one-hot
    vector is within the tolerance, and its argmax is the position of its
    one. The entries of the action are non-empty arrays. *)
Theorem one_hot_forwarding (E : Env) (env : St E) (self : OneHotAction)
    (items : dict string value) :
  (∀ k, k ∈ oh_keys self → ∃ a, dict_get k items = Some (VArray a) ∧ a ≠ []) →
  ∃ indices,
    one_hot_indices (oh_keys self) (VDict items) = inr indices
    ∧ OneHotAction_step E (VDict items) (env, self) =
        inner (step E (VDict indices)) (env, self)
    ∧ ∀ k a, k ∈ oh_keys self → dict_get k items = Some (VArray a) →
        ∃ index,
          np_argmax a = inr index
          ∧ dict_get k indices =
              Some (VInt (if tolerant a index then Z.of_nat index else -1))
          ∧ (tolerant a index = true ↔
             ∀ j x, a !! j = Some x →
                    isclose (if decide (j = index) then Finite 1 else Finite 0) x = true)
          ∧ (∀ i, is_one_hot a i → i = index ∧ tolerant a index = true).
Proof.
  intros Hall.
  destruct (one_hot_indices_fold items (oh_keys self) [] Hall)
    as (indices & Hfold & Hind).
  exists indices. split; [exact Hfold|]. split.
  - change (one_hot_indices (oh_keys self) (VDict items) = inr indices) in Hfold.
    unfold OneHotAction_step, bind, fields, lift_result. cbn [snd].
    rewrite Hfold. unfold inner. cbn [fst snd].
    by destruct (step E (VDict indices) env) as [[tr env'] r].
  - intros k a Hk Hget. destruct (Hall k Hk) as (a' & Hget' & Hne).
    assert (a' = a) as -> by congruence.
    destruct (np_argmax_nonempty a Hne) as (index & Harg).
    exists index. split; [done|]. split; [by apply (proj1 (Hind k))|].
    split; [apply tolerant_spec|].
    intros i Hoh. pose proof (is_one_hot_argmax _ _ Hoh) as Harg'.
    assert (i = index) as -> by congruence.
    split; [done|by apply is_one_hot_tolerant].
Qed.

Lemma one_hot_forwarding_witness :
  ∃ indices,
    one_hot_indices ["action"] (VDict [("action", VArray [Finite 0; Finite 1; Finite 0])])
      = inr indices
    ∧ dict_get "action" indices = Some (VInt 1).
Proof.
  destruct (one_hot_forwarding Dummy_env tt {| oh_keys := ["action"] |}
              [("action", VArray [Finite 0; Finite 1; Finite 0])])
    as (indices & Hind & _ & Hall).
  - intros k Hk. apply list_elem_of_singleton in Hk as ->. by eexists.
  - exists indices. split; [exact Hind|].
    destruct (Hall "action" [Finite 0; Finite 1; Finite 0])
      as (index & Harg & Hget & _); [apply list_elem_of_here|reflexivity|].
    injection Harg as <-. exact Hget.
Defined.

(** C9 as stated fails: [[0, 1.000001]] is not exactly one-hot, yet its
    argmax 1 is forwarded, not [-1]. *)
Lemma one_hot_exact_counterexample :
  let a := [Finite 0; Finite (1000001 # 1000000)] in
  np_argmax a = inr 1%nat
  ∧ one_hot_index a = inr 1
  ∧ (∀ k, one_hot_indices [k] (VDict [(k, VArray a)]) = inr [(k, VInt 1)])
  ∧ ¬ ∃ i, is_one_hot a i.
Proof.
  split; [reflexivity|]. split; [reflexivity|]. split.
  - intros k. unfold one_hot_indices. cbn [foldl rbind getitem dict_get].
    by rewrite decide_True.
  - intros (i & _ & Hall). specialize (Hall 1%nat _ eq_refl).
    destruct (decide (1%nat = i)); vm_compute in Hall; discriminate.
Qed.

(** ** [NormalizeAction] *)

Lemma broadcast2_same {A B C} (f : A → B → C) xs ys :
  length xs = length ys → broadcast2 f xs ys = inr (zip_with f xs ys).
Proof. intros Hlen. unfold broadcast2. by rewrite decide_True. Qed.

Lemma broadcast2_scalar {A B C} (f : A → B → C) xs y :
  broadcast2 f xs [y] = inr ((λ x, f x y) <$> xs).
Proof.
  unfold broadcast2. destruct (decide (length xs = length [y])) as [Hlen|Hlen].
  - destruct xs as [|x [|x' xs]]; done.
  - destruct xs as [|x [|x' xs]]; done.
Qed.

Lemma np_where_scalar {A} (mask : list bool) (xs : list A) (y : A) :
  length mask = length xs →
  np_where mask xs [y] = inr (zip_with (λ (m : bool) x, if m then x else y) mask xs).
Proof.
  intros Hlen. unfold np_where. rewrite broadcast2_scalar. cbn [rbind].
  rewrite broadcast2_same by (by rewrite length_fmap). f_equal.
  rewrite zip_with_fmap_r. done.
Qed.

Lemma np_where_same {A} (mask : list bool) (xs ys : list A) :
  length mask = length xs → length xs = length ys →
  np_where mask xs ys =
  inr (zip_with (λ (m : bool) (p : A * A), if m then p.1 else p.2) mask (zip xs ys)).
Proof.
  intros Hm Hxy. unfold np_where. rewrite broadcast2_same by done. cbn [rbind].
  rewrite broadcast2_same; [done|]. rewrite length_zip_with. lia.
Qed.

Lemma affine_endpoints (l h : Q) :
  num_eq (affine (Finite (-1)) (Finite l) (Finite h)) (Finite l)
  ∧ num_eq (affine (Finite 1) (Finite l) (Finite h)) (Finite h).
Proof.
  unfold affine. cbn [num_add num_sub num_neg num_mul num_div num_eq].
  change (Qeq_bool 2 0) with false. cbn [num_add num_mul num_eq].
  split; field.
Qed.


Section normalize_facts.
Context (E : Env) (env : St E) (key : string).
Context (sp : spaces) (space : space) (low high : list num).
Context (Hsp : action_space E env = inr sp).
Context (Hspace : spaces_get sp key = inr space).
Context (Hlow : space_low space = inr low) (Hhigh : space_high space = inr high).
Context (Hlen : length low = length high).

Let self := normalized_fields key low high.

Lemma normalized_mask_length : length (na_mask self) = length low.
Proof. cbn. rewrite length_zip_with, !length_fmap. lia. Qed.

Lemma normalized_low_length : length (na_low self) = length low.
Proof. cbn. rewrite !length_zip_with, !length_fmap. lia. Qed.

Lemma normalized_high_length : length (na_high self) = length low.
Proof. cbn. rewrite !length_zip_with, !length_fmap. lia. Qed.

Lemma NormalizeAction_init_fields :
  NormalizeAction_init E env key = ([], inr (env, self)).
Proof.
  unfold NormalizeAction_init. rewrite Hsp. cbn [rbind]. rewrite Hspace.
  cbn [rbind]. rewrite Hlow, Hhigh. cbn [rbind].
  rewrite broadcast2_same by (by rewrite !length_fmap). cbn [rbind].
  rewrite !np_where_scalar by (rewrite length_zip_with, !length_fmap; lia).
  done.
Qed.

Lemma normalized_lookup i l h :
  low !! i = Some l → high !! i = Some h →
  na_mask self !! i = Some (isfinite l && isfinite h)
  ∧ na_low self !! i = Some (if isfinite l && isfinite h then l else Finite (-1))
  ∧ na_high self !! i = Some (if isfinite l && isfinite h then h else Finite 1).
Proof.
  intros Hl Hh. cbn.
  rewrite !lookup_zip_with, !list_lookup_fmap, Hl, Hh. done.
Qed.

Lemma denormalize_spec (a : list num) :
  length a = length low →
  ∃ orig,
    denormalize self a = inr orig
    ∧ length orig = length a
    ∧ ∀ i x l h,
        a !! i = Some x → low !! i = Some l → high !! i = Some h →
        orig !! i = Some (if isfinite l && isfinite h then affine x l h else x).
Proof.
  intros Ha. unfold denormalize.
  rewrite broadcast2_scalar. cbn [rbind]. rewrite broadcast2_scalar. cbn [rbind].
  rewrite broadcast2_same
    by (by rewrite normalized_high_length, normalized_low_length).
  cbn [rbind].
  rewrite broadcast2_same
    by (rewrite length_zip_with, !length_fmap, normalized_high_length,
          normalized_low_length; lia).
  cbn [rbind].
  rewrite broadcast2_same
    by (rewrite !length_zip_with, !length_fmap, normalized_high_length,
          normalized_low_length; lia).
  cbn [rbind].
  rewrite np_where_same.
  2:{ rewrite !length_zip_with, !length_fmap, normalized_high_length,
        normalized_low_length, normalized_mask_length. lia. }
  2:{ rewrite !length_zip_with, !length_fmap, normalized_high_length,
        normalized_low_length. lia. }
  eexists. split; [done|]. split.
  { rewrite !length_zip_with, !length_fmap, normalized_high_length,
      normalized_low_length, normalized_mask_length. lia. }
  intros i x l h Hx Hl Hh.
  destruct (normalized_lookup i l h Hl Hh) as (Hm & Hl' & Hh').
  rewrite !lookup_zip_with, !list_lookup_fmap, Hm, Hx, Hl', Hh'. cbn.
  by destruct (isfinite l && isfinite h).
Qed.

(** On every dimension the advertised bounds are -1 and 1. *)
Lemma NormalizeAction_action_space_bounds items :
  spaces_attr sp = inr items →
  NormalizeAction_action_space E (env, self) =
  inr {| is_gym_dict := false;
         space_items :=
           dict_set key (Box (replicate (length low) (Finite (-1)))
                           (replicate (length low) (Finite 1))) items |}.
Proof.
  intros Hitems. unfold NormalizeAction_action_space. cbn [fst snd].
  rewrite !np_where_same.
  2-5: unfold ones_like;
    rewrite ?length_fmap, ?normalized_high_length, ?normalized_low_length,
      ?normalized_mask_length; done.
  cbn [rbind]. rewrite Hsp. cbn [rbind]. rewrite Hitems. cbn [rbind].
  do 4 f_equal.
  - apply list_eq. intros i. rewrite lookup_zip_with, lookup_zip_with.
    unfold ones_like. rewrite !list_lookup_fmap.
    destruct (low !! i) as [l|] eqn:Hl.
    + destruct (high !! i) as [h|] eqn:Hh.
      * destruct (normalized_lookup i l h Hl Hh) as (Hm & Hl' & Hh').
        rewrite Hm, Hl'. cbn. rewrite lookup_replicate_2 by (by eapply lookup_lt_Some).
        by destruct (isfinite l && isfinite h).
      * apply lookup_ge_None in Hh. apply lookup_lt_Some in Hl. lia.
    + pose proof Hl as Hge. apply lookup_ge_None in Hge.
      rewrite (proj1 (lookup_replicate_None _ _ _) Hge).
      rewrite (proj2 (lookup_ge_None (na_mask self) i))
        by (rewrite normalized_mask_length; lia). done.
  - apply list_eq. intros i. rewrite lookup_zip_with, lookup_zip_with.
    unfold ones_like. rewrite !list_lookup_fmap.
    destruct (low !! i) as [l|] eqn:Hl.
    + destruct (high !! i) as [h|] eqn:Hh.
      * destruct (normalized_lookup i l h Hl Hh) as (Hm & Hl' & Hh').
        rewrite Hm, Hl', Hh'. cbn.
        rewrite lookup_replicate_2 by (by eapply lookup_lt_Some).
        by destruct (isfinite l && isfinite h).
      * apply lookup_ge_None in Hh. apply lookup_lt_Some in Hl. lia.
    + pose proof Hl as Hge. apply lookup_ge_None in Hge.
      rewrite (proj1 (lookup_replicate_None _ _ _) Hge).
      rewrite (proj2 (lookup_ge_None (na_mask self) i))
        by (rewrite normalized_mask_length; lia). done.
Qed.

Lemma NormalizeAction_step_forwards items a orig :
  dict_get key items = Some (VArray a) →
  denormalize self a = inr orig →
  NormalizeAction_step E (VDict items) (env, self) =
  inner (step E (VDict (dict_set key (VArray orig) items))) (env, self).
Proof.
  intros Hget Hden. unfold NormalizeAction_step, bind, fields, lift_result.
  cbn [snd na_key normalized_fields self getitem]. rewrite Hget.
  cbn [from_option rbind as_array]. rewrite Hden. cbn [setitem].
  unfold inner. cbn [fst snd].
  by destruct (step E _ env) as [[tr env'] r].
Qed.
End normalize_facts.




(** ** The uniform interface *)

Lemma uniform_Dummy : uniform Dummy_env.
Proof.
  split.
  - intros action s v [= <-]. by eexists _, _, _, _.
  - intros s v [= <-]. by eexists.
Qed.

Lemma collect_sc_observation_dict {Sim} lib (self : Sc2 Sim) timestep v :
  collect_sc_observation lib self timestep = inr v → obs_dict v.
Proof.
  unfold collect_sc_observation. intros Hc.
  repeat (apply rbind_inr in Hc as (? & _ & Hc)).
  injection Hc as <-. by eexists.
Qed.

Lemma uniform_Sc2 {Sim} lib (sim : SC2Env Sim) : uniform (Sc2_env lib sim).
Proof.
  split.
  - intros action self v. cbn [step Sc2_env]. unfold Sc2_step, outcome.
    unfold bind, get, lift_result, sc2_call, ret.
    destruct (rebuild_action sim self action) as [e|call]; [done|].
    destruct (sc2_step sim call (sc2_env self)) as [[e|timestep] env']; [done|].
    destruct (collect_sc_observation lib self timestep) as [e|obs] eqn:Hobs; [done|].
    cbn. intros [= <-]. apply collect_sc_observation_dict in Hobs as [items ->].
    by eexists _, _, _, _.
  - intros self v. cbn [reset Sc2_env]. unfold Sc2_reset, outcome.
    unfold bind, get, lift_result, sc2_call, ret.
    destruct (sc2_reset sim (sc2_env self)) as [[e|timestep] env']; [done|].
    destruct (collect_sc_observation lib self timestep) as [e|obs] eqn:Hobs; [done|].
    cbn. intros [= <-]. by eapply collect_sc_observation_dict.
Qed.

Lemma uniform_DMC {Sim} (sim : DMControl Sim) : uniform (DMC_env sim).
Proof.
  split.
  - intros action self v. cbn [step DMC_env]. unfold DMC_step, outcome.
    unfold bind at 1 2 3, get, lift_result.
    destruct (getitem action "action") as [e|a]; [done|]. cbn [fst snd].
    destruct (all_finite a) as [e|[|]]; [done| |done]. cbn [negb].
    unfold bind at 1.
    destruct (DMC_repeat sim _ a (Finite 0) None self) as [[tr s'] [e|[reward [ts|]]]];
      [done| |done].
    unfold DMC_render, bind, get, dmc_call, ret.
    destruct (dm_render sim _ _ _ (dmc_env s')) as [[e|image] env']; [done|].
    cbn. intros [= <-]. by eexists _, _, _, _.
  - intros self v. cbn [reset DMC_env]. unfold DMC_reset, outcome.
    unfold DMC_render, bind, get, dmc_call, ret.
    destruct (dm_reset sim (dmc_env self)) as [[e|ts] env']; [done|]. cbn.
    destruct (dm_render sim _ _ _ env') as [[e|image] env'']; [done|].
    cbn. intros [= <-]. by eexists.
Qed.

Lemma Atari_observe_dict {Sim} (gym : AtariGym Sim) image self v :
  outcome (Atari_observe gym image) self = inr v → obs_dict v.
Proof.
  unfold Atari_observe, outcome, bind, get, lift_result, ret.
  destruct (atari_grayscale self); cbn.
  - destruct (expand_last_axis image); [done|]. cbn. intros [= <-]. by eexists.
  - intros [= <-]. by eexists.
Qed.

Lemma uniform_Atari {Sim} (gym : AtariGym Sim) : uniform (Atari_env gym).
Proof.
  split.
  - intros action self v. cbn [step Atari_env]. unfold Atari_step, outcome.
    unfold bind at 1 2 3, lift_result, atari_call.
    destruct (getitem action "action") as [e|a]; [done|]. cbn [fst snd].
    destruct (gym_step gym a (atari_env self)) as [[e|res] env']; [done|].
    destruct (unpack4 res) as [e|[[[image reward] fin] info]]; [done|].
    unfold bind, ret.
    destruct (Atari_observe gym image _) as [[tr s'] [e|obs]] eqn:Hobs; [done|].
    cbn. intros [= <-].
    destruct (Atari_observe_dict gym image
                {| atari_env := env'; atari_grayscale := atari_grayscale self |} obs)
      as [items ->].
    { unfold outcome. by rewrite Hobs. }
    by eexists _, _, _, _.
  - intros self v. cbn [reset Atari_env]. unfold Atari_reset, outcome.
    unfold bind, with_lock, atari_call.
    destruct (gym_reset gym (atari_env self)) as [[e|image] env']; [done|].
    destruct (Atari_observe gym image _) as [[tr s'] r] eqn:Hobs.
    cbn. intros ->. eapply (Atari_observe_dict gym image).
    unfold outcome. by rewrite Hobs.
Qed.

Section wrappers_uniform.
Context (E : Env) (HE : uniform E).

Lemma inner_step_result action env tr env' v :
  step E action env = (tr, env', inr v) →
  ∃ obs reward fin info, v = VTuple [VDict obs; reward; fin; info].
Proof.
  intros Hs. apply (proj1 HE action env). unfold outcome. by rewrite Hs.
Qed.

Lemma inner_reset_dict env tr env' v :
  reset E env = (tr, env', inr v) → ∃ obs, v = VDict obs.
Proof. intros Hr. apply (proj2 HE env). unfold outcome. by rewrite Hr. Qed.

Lemma uniform_TimeLimit : uniform (TimeLimit_env E).
Proof.
  split.
  - intros action [env self] v. cbn [step TimeLimit_env].
    unfold TimeLimit_step, outcome. run_method.
    destruct (tl_step self) as [count|]; [|done].
    destruct (step E action env) as [[tr env'] [e|res]] eqn:Hs; cbn in *; rewrite ?Hs; cbn; [done|].
    destruct (inner_step_result _ _ _ _ _ Hs) as (obs & reward & fin & info & ->).
    cbn. destruct (tl_duration self <=? count + 1); cbn.
    + destruct (contains info "discount") as [e|[|]]; cbn; [done| |].
      * intros [= <-]. by eexists _, _, _, _.
      * destruct (setitem info "discount" _); cbn; [done|].
        intros [= <-]. by eexists _, _, _, _.
    + intros [= <-]. by eexists _, _, _, _.
  - intros [env self] v. cbn [reset TimeLimit_env].
    unfold TimeLimit_reset, outcome. run_method.
    destruct (reset E env) as [[tr env'] [e|obs]] eqn:Hr; cbn in *; rewrite ?Hr; cbn; [done|].
    cbn. intros [= <-]. by eapply inner_reset_dict.
Qed.

Lemma uniform_NormalizeAction : uniform (NormalizeAction_env E).
Proof.
  split.
  - intros action [env self] v. cbn [step NormalizeAction_env].
    unfold NormalizeAction_step, outcome, bind, fields, lift_result, inner.
    cbn [fst snd].
    destruct (rbind (getitem action (na_key self)) as_array) as [e|a]; [done|].
    destruct (denormalize self a) as [e|orig]; [done|].
    destruct (setitem action (na_key self) (VArray orig)) as [e|action']; [done|].
    destruct (step E action' env) as [[tr env'] [e|res]] eqn:Hs; cbn in *; rewrite ?Hs; cbn; [done|].
    cbn. intros [= <-]. by eapply inner_step_result.
  - intros [env self] v. cbn [reset NormalizeAction_env].
    unfold outcome, inner. cbn [fst snd].
    destruct (reset E env) as [[tr env'] [e|obs]] eqn:Hr; cbn in *; rewrite ?Hr; cbn; [done|].
    cbn. intros [= <-]. by eapply inner_reset_dict.
Qed.

Lemma uniform_OneHotAction : uniform (OneHotAction_env E).
Proof.
  split.
  - intros action [env self] v. cbn [step OneHotAction_env].
    unfold OneHotAction_step, outcome, bind, fields, lift_result, inner.
    cbn [fst snd].
    destruct (one_hot_indices (oh_keys self) action) as [e|indices]; [done|].
    destruct (step E (VDict indices) env) as [[tr env'] [e|res]] eqn:Hs; cbn in *; rewrite ?Hs; cbn; [done|].
    cbn. intros [= <-]. by eapply inner_step_result.
  - intros [env self] v. cbn [reset OneHotAction_env].
    unfold OneHotAction_reset, outcome, inner. cbn [fst snd].
    destruct (reset E env) as [[tr env'] [e|obs]] eqn:Hr; cbn in *; rewrite ?Hr; cbn; [done|].
    cbn. intros [= <-]. by eapply inner_reset_dict.
Qed.

Lemma uniform_RewardObs : uniform (RewardObs_env E).
Proof.
  split.
  - intros action [env self] v. cbn [step RewardObs_env].
    unfold RewardObs_step, outcome. run_method.
    destruct (step E action env) as [[tr env'] [e|res]] eqn:Hs; cbn in *; rewrite ?Hs; cbn; [done|].
    destruct (inner_step_result _ _ _ _ _ Hs) as (obs & reward & fin & info & ->).
    cbn. intros [= <-]. by eexists _, _, _, _.
  - intros [env self] v. cbn [reset RewardObs_env].
    unfold RewardObs_reset, outcome. run_method.
    destruct (reset E env) as [[tr env'] [e|obs]] eqn:Hr; cbn in *; rewrite ?Hr; cbn; [done|].
    destruct (inner_reset_dict _ _ _ _ Hr) as [items ->].
    cbn. intros [= <-]. by eexists.
Qed.

Lemma uniform_ResetObs : uniform (ResetObs_env E).
Proof.
  split.
  - intros action [env self] v. cbn [step ResetObs_env].
    unfold ResetObs_step, outcome. run_method.
    destruct (step E action env) as [[tr env'] [e|res]] eqn:Hs; cbn in *; rewrite ?Hs; cbn; [done|].
    destruct (inner_step_result _ _ _ _ _ Hs) as (obs & reward & fin & info & ->).
    cbn. intros [= <-]. by eexists _, _, _, _.
  - intros [env self] v. cbn [reset ResetObs_env].
    unfold ResetObs_reset, outcome. run_method.
    destruct (reset E env) as [[tr env'] [e|obs]] eqn:Hr; cbn in *; rewrite ?Hr; cbn; [done|].
    destruct (inner_reset_dict _ _ _ _ Hr) as [items ->].
    cbn. intros [= <-]. by eexists.
Qed.
Lemma wrappers_reset_returns env :
  returns (reset E) env →
  (∀ f, returns (reset (TimeLimit_env E)) (env, f))
  ∧ (∀ f, returns (reset (NormalizeAction_env E)) (env, f))
  ∧ (∀ f, returns (reset (OneHotAction_env E)) (env, f))
  ∧ (∀ f, returns (reset (RewardObs_env E)) (env, f))
  ∧ (∀ f, returns (reset (ResetObs_env E)) (env, f)).
Proof.
  intros [v Hv]. unfold outcome in Hv.
  destruct (reset E env) as [[tr env'] r] eqn:Hr. cbn in Hv. subst r.
  destruct (inner_reset_dict _ _ _ _ Hr) as [items ->].
  repeat split; intros f; unfold returns, outcome; cbn;
    unfold TimeLimit_reset, OneHotAction_reset, RewardObs_reset, ResetObs_reset;
    run_method; rewrite Hr; cbn; by eexists.
Qed.

Lemma obs_wrappers_step_return action env :
  returns (step E action) env →
  (∀ f, returns (step (RewardObs_env E) action) (env, f))
  ∧ (∀ f, returns (step (ResetObs_env E) action) (env, f)).
Proof.
  intros [v Hv]. unfold outcome in Hv.
  destruct (step E action env) as [[tr env'] r] eqn:Hs. cbn in Hv. subst r.
  destruct (inner_step_result _ _ _ _ _ Hs) as (obs & reward & fin & info & ->).
  split; intros f; unfold returns, outcome; cbn;
    unfold RewardObs_step, ResetObs_step; run_method; rewrite Hs; cbn; by eexists.
Qed.
End wrappers_uniform.

(** C6: every adapter and wrapper class has the same interface: whatever
    [step] returns is a 4-tuple [(obs, reward, done, info)] whose [obs] is a
    dict, and whatever [reset] returns is a dict; a wrapper has it whenever
    the environment it wraps has it, and [NormalizeAction], which defines no
    [reset], answers with the wrapped environment's. [Dummy] always
    returns, every wrapper's [reset] returns when the wrapped one does, and
    so does the [step] of [RewardObs] and [ResetObs]. *)
Theorem uniform_interface {SimD SimA SimS : Type} (dm : DMControl SimD)
    (gym : AtariGym SimA) (lib : Pysc2) (sc : SC2Env SimS) (E : Env) :
  uniform E →
  (uniform (DMC_env dm) ∧ uniform (Atari_env gym) ∧ uniform (Sc2_env lib sc)
   ∧ uniform Dummy_env)
  ∧ (uniform (TimeLimit_env E) ∧ uniform (NormalizeAction_env E)
     ∧ uniform (OneHotAction_env E) ∧ uniform (RewardObs_env E)
     ∧ uniform (ResetObs_env E))
  ∧ reset (NormalizeAction_env E) = inner (reset E)
  ∧ ((∀ action s, returns (step Dummy_env action) s)
     ∧ (∀ s, returns (reset Dummy_env) s))
  ∧ (∀ env,
       returns (reset E) env →
       (∀ f, returns (reset (TimeLimit_env E)) (env, f))
       ∧ (∀ f, returns (reset (NormalizeAction_env E)) (env, f))
       ∧ (∀ f, returns (reset (OneHotAction_env E)) (env, f))
       ∧ (∀ f, returns (reset (RewardObs_env E)) (env, f))
       ∧ (∀ f, returns (reset (ResetObs_env E)) (env, f)))
  ∧ (∀ action env,
       returns (step E action) env →
       (∀ f, returns (step (RewardObs_env E) action) (env, f))
       ∧ (∀ f, returns (step (ResetObs_env E) action) (env, f))).
Proof.
  intros HE. split.
  { split; [apply uniform_DMC|]. split; [apply uniform_Atari|].
    split; [apply uniform_Sc2|apply uniform_Dummy]. }
  split.
  { split; [by apply uniform_TimeLimit|]. split; [by apply uniform_NormalizeAction|].
    split; [by apply uniform_OneHotAction|].
    split; [by apply uniform_RewardObs|by apply uniform_ResetObs]. }
  split; [done|]. split.
  { split; intros; by eexists. }
  split; [by apply wrappers_reset_returns|by apply obs_wrappers_step_return].
Qed.

Lemma uniform_interface_witness :
  let stack := ResetObs_env (RewardObs_env (TimeLimit_env Dummy_env)) in
  uniform Dummy_env
  ∧ uniform stack
  ∧ outcome (step stack (VDict []))
      (tt, {| tl_duration := 1; tl_step := Some 0 |}, {| ro_key := "reward" |},
       {| rs_key := "reset" |}) =
    inr (VTuple [VDict [("image", VImage [64; 64; 3]%nat 0);
                        ("reward", VFloat (Finite 0)); ("reset", VBool false)];
                 VFloat (Finite 0); VBool true;
                 VDict [("discount", VFloat (Finite 1))]]).
Proof.
  intros stack.
  assert (uniform Dummy_env) as Hdummy.
  { split.
    - intros action s v [= <-]. by eexists _, _, _, _.
    - intros s v [= <-]. by eexists. }
  split; [exact Hdummy|]. split; [|reflexivity].
  pose proof (uniform_interface demo_dm demo_gym demo_lib demo_sim Dummy_env Hdummy)
    as (_ & (Htl & _) & _).
  pose proof (uniform_interface demo_dm demo_gym demo_lib demo_sim _ Htl)
    as (_ & (_ & _ & _ & Hro & _) & _).
  pose proof (uniform_interface demo_dm demo_gym demo_lib demo_sim _ Hro)
    as (_ & (_ & _ & _ & _ & Hrs) & _).
  exact Hrs.
Defined.

(** ** Locks *)

Lemma no_lock_nil : no_lock [].
Proof. constructor. Qed.

Lemma no_lock_app tr tr' : no_lock tr → no_lock tr' → no_lock (tr ++ tr').
Proof. unfold no_lock. intros. by apply Forall_app. Qed.

Lemma no_lock_call target : no_lock [Call target].
Proof. by repeat constructor. Qed.

Create HintDb locks.
#[local] Hint Resolve no_lock_nil no_lock_app no_lock_call : locks.

Lemma DMC_repeat_no_lock {Sim} (sim : DMControl Sim) n action reward ts self :
  no_lock (trace (DMC_repeat sim n action reward ts) self).
Proof.
  revert reward ts self. induction n as [|n IH]; intros reward ts self.
  - apply no_lock_nil.
  - unfold trace. cbn [DMC_repeat]. unfold bind, dmc_call.
    destruct (dm_step sim action (dmc_env self)) as [[e|time_step] env'].
    + apply no_lock_call.
    + destruct (dm_last time_step).
      * cbn. apply no_lock_call.
      * specialize (IH (num_add reward (default (Finite 0) (dm_reward time_step)))
                      (Some time_step)
                      {| dmc_env := env'; dmc_action_repeat := dmc_action_repeat self;
                         dmc_size := dmc_size self; dmc_camera := dmc_camera self |}).
        unfold trace in IH.
        destruct (DMC_repeat sim n action _ _ _) as [[tr s'] r].
        cbn in *. by apply (no_lock_app [_]); [apply no_lock_call|].
Qed.

Lemma DMC_render_no_lock {Sim} (sim : DMControl Sim) self :
  no_lock (trace (DMC_render sim) self).
Proof.
  unfold trace, DMC_render, bind, get, dmc_call.
  destruct (dm_render sim _ _ _ (dmc_env self)) as [r env']. cbn.
  destruct r; apply no_lock_call.
Qed.

Lemma lock_free_DMC {Sim} (sim : DMControl Sim) : lock_free (DMC_env sim).
Proof.
  split.
  - intros action self. cbn [step DMC_env]. unfold trace, DMC_step.
    unfold bind at 1 2 3, get, lift_result.
    destruct (getitem action "action") as [e|a]; [apply no_lock_nil|]. cbn [fst snd].
    destruct (all_finite a) as [e|[|]];
      [apply no_lock_nil| |apply no_lock_nil]. cbn [negb].
    unfold bind at 1.
    pose proof (DMC_repeat_no_lock sim (Z.to_nat (dmc_action_repeat self)) a
                  (Finite 0) None self) as Hrep. unfold trace in Hrep.
    destruct (DMC_repeat sim _ a (Finite 0) None self) as [[tr s'] [e|[reward [ts|]]]];
      cbn in Hrep; cbn [app fst snd]; rewrite ?app_nil_r; try done.
    + pose proof (DMC_render_no_lock sim s') as Hren. unfold trace in Hren.
      unfold bind, ret.
      destruct (DMC_render sim s') as [[tr' s''] [e|image]]; cbn in *;
        rewrite ?app_nil_r; auto with locks.
    + cbn. by rewrite app_nil_r.
  - intros self. cbn [reset DMC_env]. unfold trace, DMC_reset.
    unfold bind at 1, dmc_call at 1.
    destruct (dm_reset sim (dmc_env self)) as [[e|ts] env']; [apply no_lock_call|].
    pose proof (DMC_render_no_lock sim
                  {| dmc_env := env'; dmc_action_repeat := dmc_action_repeat self;
                     dmc_size := dmc_size self; dmc_camera := dmc_camera self |})
      as Hren. unfold trace in Hren.
    unfold bind, ret. destruct (DMC_render sim _) as [[tr' s''] [e|image]];
      cbn in *; rewrite ?app_nil_r; by apply (no_lock_app [_]); [apply no_lock_call|].
Qed.

Lemma lock_free_Sc2 {Sim} lib (sim : SC2Env Sim) : lock_free (Sc2_env lib sim).
Proof.
  split.
  - intros action self. cbn [step Sc2_env]. unfold trace, Sc2_step.
    unfold bind, get, lift_result, sc2_call, ret.
    destruct (rebuild_action sim self action) as [e|call]; [apply no_lock_nil|].
    destruct (sc2_step sim call (sc2_env self)) as [[e|timestep] env'];
      [apply no_lock_call|].
    destruct (collect_sc_observation lib self timestep); cbn; apply no_lock_call.
  - intros self. cbn [reset Sc2_env]. unfold trace, Sc2_reset.
    unfold bind, get, lift_result, sc2_call, ret.
    destruct (sc2_reset sim (sc2_env self)) as [[e|timestep] env'];
      [apply no_lock_call|].
    destruct (collect_sc_observation lib self timestep); cbn; apply no_lock_call.
Qed.

Lemma lock_free_Dummy : lock_free Dummy_env.
Proof. split; intros; apply no_lock_nil. Qed.

Lemma Atari_observe_no_trace {Sim} (gym : AtariGym Sim) image self :
  trace (Atari_observe gym image) self = [].
Proof.
  unfold trace, Atari_observe, bind, get, lift_result, ret.
  destruct (atari_grayscale self); cbn; [|done].
  by destruct (expand_last_axis image).
Qed.

Lemma Atari_step_no_lock {Sim} (gym : AtariGym Sim) action self :
  no_lock (trace (Atari_step gym action) self).
Proof.
  unfold trace, Atari_step. unfold bind at 1 2 3, lift_result, atari_call.
  destruct (getitem action "action") as [e|a]; [apply no_lock_nil|]. cbn [fst snd].
  destruct (gym_step gym a (atari_env self)) as [[e|res] env']; [apply no_lock_call|].
  destruct (unpack4 res) as [e|[[[image reward] fin] info]]; [apply no_lock_call|].
  unfold bind, ret.
  pose proof (Atari_observe_no_trace gym image
                {| atari_env := env'; atari_grayscale := atari_grayscale self |}) as Hobs.
  unfold trace in Hobs.
  destruct (Atari_observe gym image _) as [[tr s'] [e|obs]]; cbn in *; subst tr;
    apply no_lock_call.
Qed.

(** [Atari.reset] takes the class lock around [env.reset()] and releases it
    before building the observation. *)
Lemma Atari_reset_trace {Sim} (gym : AtariGym Sim) self :
  trace (Atari_reset gym) self = [Acquire LOCK; Call "env.reset"; Release LOCK].
Proof.
  unfold trace, Atari_reset, bind, with_lock, atari_call.
  destruct (gym_reset gym (atari_env self)) as [[e|image] env']; [done|].
  pose proof (Atari_observe_no_trace gym image
                {| atari_env := env'; atari_grayscale := atari_grayscale self |}) as Hobs.
  unfold trace in Hobs.
  destruct (Atari_observe gym image _) as [[tr s'] r]. cbn in *. by subst tr.
Qed.

(** [Atari.__init__] takes the class lock around the creation of the
    emulator, unless the size assertion fails first. *)
Lemma Atari_init_trace {Sim} (gym : AtariGym Sim) name action_repeat size grayscale
    noops life_done sticky_actions all_actions :
  size.1 = size.2 →
  ∃ rest,
    (Atari_init gym name action_repeat size grayscale noops life_done
       sticky_actions all_actions).1 =
    [Acquire LOCK; Call "gym.envs.atari.AtariEnv"; Release LOCK] ++ rest
    ∧ no_lock rest.
Proof.
  intros Hsize. unfold Atari_init. rewrite Hsize, Z.eqb_refl. cbn [negb].
  destruct (AtariEnv gym _ _ _) as [e|env].
  - exists []. split; [done|apply no_lock_nil].
  - eexists. split; [done|]. by repeat constructor.
Qed.

Section wrappers_lock_free.
Context (E : Env) (HE : lock_free E).

Lemma inner_step_no_lock action env tr env' r :
  step E action env = (tr, env', r) → no_lock tr.
Proof.
  intros Hs. pose proof (proj1 HE action env) as H. unfold trace in H.
  by rewrite Hs in H.
Qed.

Lemma inner_reset_no_lock env tr env' r :
  reset E env = (tr, env', r) → no_lock tr.
Proof.
  intros Hr. pose proof (proj2 HE env) as H. unfold trace in H.
  by rewrite Hr in H.
Qed.

Ltac after_inner_step action env :=
  let Hs := fresh "Hs" in
  let Htr := fresh "Htr" in
  destruct (step E action env) as [[?tr ?env'] [?e|?res]] eqn:Hs;
  pose proof (inner_step_no_lock _ _ _ _ _ Hs) as Htr;
  cbn in *; rewrite ?Hs; cbn; rewrite ?app_nil_r; [done|].

Ltac after_inner_reset env :=
  let Hr := fresh "Hr" in
  let Htr := fresh "Htr" in
  destruct (reset E env) as [[?tr ?env'] [?e|?obs]] eqn:Hr;
  pose proof (inner_reset_no_lock _ _ _ _ Hr) as Htr;
  cbn in *; rewrite ?Hr; cbn; rewrite ?app_nil_r; [done|].

Lemma lock_free_TimeLimit : lock_free (TimeLimit_env E).
Proof.
  split.
  - intros action [env self]. cbn [step TimeLimit_env].
    unfold TimeLimit_step, trace. run_method.
    destruct (tl_step self) as [count|]; [|apply no_lock_nil].
    after_inner_step action env.
    destruct (unpack4 res) as [e|[[[obs reward] fin] info]]; cbn;
      rewrite ?app_nil_r; [done|].
    destruct (tl_duration self <=? count + 1); cbn; rewrite ?app_nil_r; [|done].
    destruct (contains info "discount") as [e|[|]]; cbn; rewrite ?app_nil_r;
      [done|done|].
    destruct (setitem info "discount" _); cbn; by rewrite ?app_nil_r.
  - intros [env self]. cbn [reset TimeLimit_env].
    unfold TimeLimit_reset, trace. run_method.
    after_inner_reset env. done.
Qed.

Lemma lock_free_NormalizeAction : lock_free (NormalizeAction_env E).
Proof.
  split.
  - intros action [env self]. cbn [step NormalizeAction_env].
    unfold NormalizeAction_step, trace, bind, fields, lift_result, inner.
    cbn [fst snd].
    destruct (rbind (getitem action (na_key self)) as_array) as [e|a];
      [apply no_lock_nil|].
    destruct (denormalize self a) as [e|orig]; [apply no_lock_nil|].
    destruct (setitem action (na_key self) (VArray orig)) as [e|action'];
      [apply no_lock_nil|].
    after_inner_step action' env. done.
  - intros [env self]. cbn [reset NormalizeAction_env]. unfold trace, inner.
    cbn [fst snd]. after_inner_reset env. done.
Qed.

Lemma lock_free_OneHotAction : lock_free (OneHotAction_env E).
Proof.
  split.
  - intros action [env self]. cbn [step OneHotAction_env].
    unfold OneHotAction_step, trace, bind, fields, lift_result, inner.
    cbn [fst snd].
    destruct (one_hot_indices (oh_keys self) action) as [e|indices];
      [apply no_lock_nil|].
    after_inner_step (VDict indices) env. done.
  - intros [env self]. cbn [reset OneHotAction_env].
    unfold OneHotAction_reset, trace, inner. cbn [fst snd].
    after_inner_reset env. done.
Qed.

Lemma lock_free_RewardObs : lock_free (RewardObs_env E).
Proof.
  split.
  - intros action [env self]. cbn [step RewardObs_env].
    unfold RewardObs_step, trace. run_method.
    after_inner_step action env.
    destruct (unpack4 res) as [e|[[[obs reward] fin] info]]; cbn;
      rewrite ?app_nil_r; [done|].
    destruct (setitem obs "reward" reward); cbn; by rewrite ?app_nil_r.
  - intros [env self]. cbn [reset RewardObs_env].
    unfold RewardObs_reset, trace. run_method.
    after_inner_reset env.
    destruct (setitem obs "reward" _); cbn; by rewrite ?app_nil_r.
Qed.

Lemma lock_free_ResetObs : lock_free (ResetObs_env E).
Proof.
  split.
  - intros action [env self]. cbn [step ResetObs_env].
    unfold ResetObs_step, trace. run_method.
    after_inner_step action env.
    destruct (unpack4 res) as [e|[[[obs reward] fin] info]]; cbn;
      rewrite ?app_nil_r; [done|].
    destruct (setitem obs "reset" _); cbn; by rewrite ?app_nil_r.
  - intros [env self]. cbn [reset ResetObs_env].
    unfold ResetObs_reset, trace. run_method.
    after_inner_reset env.
    destruct (setitem obs "reset" _); cbn; by rewrite ?app_nil_r.
Qed.
End wrappers_lock_free.

Lemma DMC_init_no_lock {Sim} (sim : DMControl Sim) name action_repeat size camera :
  no_lock (DMC_init sim name action_repeat size camera).1.
Proof.
  unfold DMC_init. cbn [fst]. destruct (split_once name); by repeat constructor.
Qed.

Lemma Sc2_init_no_lock {Sim} lib (sim : SC2Env Sim) map_name screen_size minimap_size
    max_units steps_per_action steps_per_episode fog visualise :
  no_lock (Sc2_init lib sim map_name screen_size minimap_size max_units
             steps_per_action steps_per_episode fog visualise).1.
Proof.
  unfold Sc2_init. cbn [fst]. destruct (sc2_create sim _); by repeat constructor.
Qed.

(** C7, as the code has it: the constructors, [step] and [reset] of [DMC],
    [Sc2] and [Dummy] take no lock, the wrappers' constructors do nothing
    observable and their [step] and [reset] take no lock unless the wrapped
    environment does, and [Atari.step] takes none; but [Atari.__init__]
    takes the class lock [Atari.LOCK] around the creation of the emulator
    and [Atari.reset] takes it around [env.reset()]. *)
Theorem locks_only_in_atari {SimD SimA SimS : Type} (dm : DMControl SimD)
    (gym : AtariGym SimA) (lib : Pysc2) (sc : SC2Env SimS) (E : Env) :
  lock_free E →
  (lock_free (DMC_env dm) ∧ lock_free (Sc2_env lib sc) ∧ lock_free Dummy_env)
  ∧ ((∀ name action_repeat size camera,
        no_lock (DMC_init dm name action_repeat size camera).1)
     ∧ (∀ map_name screen_size minimap_size max_units steps_per_action
          steps_per_episode fog visualise,
          no_lock (Sc2_init lib sc map_name screen_size minimap_size max_units
                     steps_per_action steps_per_episode fog visualise).1)
     ∧ Dummy_init.1 = [])
  ∧ (lock_free (TimeLimit_env E) ∧ lock_free (NormalizeAction_env E)
     ∧ lock_free (OneHotAction_env E) ∧ lock_free (RewardObs_env E)
     ∧ lock_free (ResetObs_env E))
  ∧ ((∀ env duration, (TimeLimit_init E env duration).1 = [])
     ∧ (∀ env key, (NormalizeAction_init E env key).1 = [])
     ∧ (∀ env, (OneHotAction_init E env).1 = [])
     ∧ (∀ env key, (RewardObs_init E env key).1 = [])
     ∧ (∀ env key, (ResetObs_init E env key).1 = []))
  ∧ (∀ action self, no_lock (trace (Atari_step gym action) self))
  ∧ (∀ self,
       trace (Atari_reset gym) self = [Acquire LOCK; Call "env.reset"; Release LOCK])
  ∧ (∀ name action_repeat size grayscale noops life_done sticky_actions all_actions,
       size.1 = size.2 →
       ∃ rest,
         (Atari_init gym name action_repeat size grayscale noops life_done
            sticky_actions all_actions).1 =
         [Acquire LOCK; Call "gym.envs.atari.AtariEnv"; Release LOCK] ++ rest
         ∧ no_lock rest).
Proof.
  intros HE.
  split; [split; [apply lock_free_DMC|split; [apply lock_free_Sc2|apply lock_free_Dummy]]|].
  split; [split; [apply DMC_init_no_lock|split; [apply Sc2_init_no_lock|done]]|].
  split.
  { split; [by apply lock_free_TimeLimit|].
    split; [by apply lock_free_NormalizeAction|].
    split; [by apply lock_free_OneHotAction|].
    split; [by apply lock_free_RewardObs|by apply lock_free_ResetObs]. }
  split; [done|].
  split; [apply Atari_step_no_lock|].
  split; [apply Atari_reset_trace|apply Atari_init_trace].
Qed.

Lemma locks_only_in_atari_witness :
  lock_free Dummy_env
  ∧ lock_free (TimeLimit_env Dummy_env)
  ∧ trace (Atari_reset demo_gym) {| atari_env := 3%nat; atari_grayscale := true |}
    = [Acquire LOCK; Call "env.reset"; Release LOCK].
Proof.
  assert (lock_free Dummy_env) as Hdummy.
  { split; intros; constructor. }
  split; [exact Hdummy|].
  pose proof (locks_only_in_atari demo_dm demo_gym demo_lib demo_sim Dummy_env Hdummy)
    as (_ & _ & (Htl & _) & _ & _ & Hreset & _).
  split; [exact Htl|]. apply Hreset.
Defined.

(** C7 as stated fails for [Atari]: constructing it and resetting it
    acquire [Atari.LOCK]. *)
Lemma atari_lock_counterexample :
  (Atari_init demo_gym "pong" 4 (84, 84) true 30 false true false).1 =
    [Acquire LOCK; Call "gym.envs.atari.AtariEnv"; Release LOCK;
     Call "gym.envs.registration.EnvSpec"; Call "get_action_meanings";
     Call "gym.wrappers.AtariPreprocessing"]
  ∧ trace (Atari_reset demo_gym) {| atari_env := 0%nat; atari_grayscale := true |} =
    [Acquire LOCK; Call "env.reset"; Release LOCK]
  ∧ ¬ no_lock (Atari_init demo_gym "pong" 4 (84, 84) true 30 false true false).1
  ∧ ¬ lock_free (Atari_env demo_gym).
Proof.
  split; [reflexivity|]. split; [reflexivity|]. split.
  - intros Hno. apply Forall_cons in Hno as [Hacq _]. discriminate.
  - intros [_ Hreset].
    specialize (Hreset {| atari_env := 0%nat; atari_grayscale := true |}).
    apply Forall_cons in Hreset as [Hacq _]. discriminate.
Qed.

(** ** The set transformer: shapes *)

Lemma vadd_length u v : length (vadd u v) = Nat.min (length u) (length v).
Proof. apply length_zip_with. Qed.

Lemma vscale_length a v : length (vscale a v) = length v.
Proof. apply length_fmap. Qed.

Lemma vec_mat_length cols w B :
  Forall (shape1 cols) B → length (vec_mat cols w B) = cols.
Proof.
  unfold vec_mat. revert w. induction B as [|r B IH]; intros w HB.
  - destruct w; simpl; apply length_replicate.
  - apply Forall_cons in HB as [Hr HB]. destruct w as [|a w]; simpl.
    + apply length_replicate.
    + rewrite vadd_length, vscale_length, (IH w HB), Hr. lia.
Qed.

Lemma Dense_row_shape inputs outputs layer x :
  dense_shaped inputs outputs layer → shape1 inputs x →
  ∃ y, Dense_row layer x = Some y ∧ shape1 outputs y.
Proof.
  intros (Hu & [Hk Hrows] & Hb) Hx. unfold Dense_row, shape1 in *.
  rewrite decide_True by congruence. eexists. split; [done|].
  pose proof (vec_mat_length (units layer) x (kernel layer)) as Hlen.
  rewrite Hu in *. specialize (Hlen Hrows).
  destruct (bias layer) as [b|]; [|done].
  rewrite vadd_length, Hlen, Hb. lia.
Qed.

Lemma mapM_shape {A B} (f : A → option B) (P : A → Prop) (Q : B → Prop) l :
  (∀ x, P x → ∃ y, f x = Some y ∧ Q y) →
  Forall P l →
  ∃ k, mapM f l = Some k ∧ length k = length l ∧ Forall Q k.
Proof.
  intros Hf. induction 1 as [|x l Hx _ (k & Hk & Hlen & HQ)].
  - exists []. by repeat split.
  - destruct (Hf x Hx) as (y & Hy & HQy). exists (y :: k).
    split; [|split; [simpl; lia|by constructor]].
    apply mapM_Some. constructor; [done|]. by apply mapM_Some.
Qed.

Lemma Dense_call_shape inputs outputs layer b n x :
  dense_shaped inputs outputs layer → shape3 b n inputs x →
  ∃ y, Dense_call layer x = Some y ∧ shape3 b n outputs y.
Proof.
  intros Hl [Hb Hx]. unfold Dense_call.
  destruct (mapM_shape (mapM (Dense_row layer)) (shape2 n inputs) (shape2 n outputs) x)
    as (y & Hy & Hlen & Hall); [|done|].
  - intros m [Hn Hm].
    destruct (mapM_shape (Dense_row layer) (shape1 inputs) (shape1 outputs) m)
      as (m' & Hm' & Hlen' & Hall'); [|done|].
    + intros r Hr. by eapply Dense_row_shape.
    + exists m'. split; [done|]. split; [congruence|done].
  - exists y. split; [done|]. split; [congruence|done].
Qed.

Lemma zip_with_shape {A B C} (f : A → B → C) (P : A → Prop) (Q : B → Prop)
    (T : C → Prop) xs ys :
  (∀ x y, P x → Q y → T (f x y)) →
  length xs = length ys → Forall P xs → Forall Q ys →
  length (zip_with f xs ys) = length xs ∧ Forall T (zip_with f xs ys).
Proof.
  intros Hf Hlen HP. revert ys Hlen. induction HP as [|x xs Hx _ IH]; intros ys Hlen HQ.
  - by split.
  - destruct ys as [|y ys]; [done|]. apply Forall_cons in HQ as [Hy HQ].
    destruct (IH ys) as [Hl Hall]; [simpl in Hlen; lia|done|].
    split; [simpl; lia|]. constructor; auto.
Qed.

Lemma fmap_shape {A B} (f : A → B) (P : A → Prop) (Q : B → Prop) l :
  (∀ x, P x → Q (f x)) → Forall P l → Forall Q (f <$> l).
Proof. intros Hf. induction 1; constructor; auto. Qed.

Lemma reshape_heads_shape h depth (row : list R) :
  shape1 (h * depth) row → shape2 h depth (reshape (replicate h depth) row).
Proof.
  unfold shape1, shape2. split; [by rewrite length_reshape, length_replicate|].
  revert row H. induction h as [|h IH]; intros row Hrow; [constructor|].
  simpl. constructor.
  - unfold shape1. rewrite length_take. simpl in Hrow. lia.
  - apply IH. rewrite length_drop. simpl in Hrow. lia.
Qed.

Lemma transpose12_shape a b c (x : list (list (list R))) :
  shape3 a b c x → shape3 b a c (transpose12 b x).
Proof.
  intros [Ha Hx]. unfold transpose12. split; [by rewrite length_fmap, length_seq|].
  apply Forall_fmap, Forall_forall. intros j Hj. apply elem_of_seq in Hj.
  split; [by rewrite length_fmap|].
  eapply fmap_shape; [|exact Hx]. intros row [Hb Hrow]. cbn beta.
  destruct (row !! j) as [r|] eqn:Hr.
  - simpl. eapply Forall_lookup_1 in Hrow; eauto.
  - apply lookup_ge_None in Hr. lia.
Qed.

Lemma split_heads_shape self b n (x : list (list (list R))) :
  shape3 b n (num_heads self * depth self) x →
  shape4 b (num_heads self) n (depth self) (split_heads self x).
Proof.
  intros [Hb Hx]. unfold split_heads.
  split; [by rewrite !length_fmap|].
  apply Forall_fmap. eapply fmap_shape; [|exact Hx].
  intros m [Hn Hm]. cbn beta. apply transpose12_shape.
  split; [by rewrite length_fmap|].
  eapply fmap_shape; [|exact Hm]. intros row Hrow. by apply reshape_heads_shape.
Qed.

Lemma concat_shape h depth (pieces : list (list R)) :
  shape2 h depth pieces → shape1 (h * depth) (concat pieces).
Proof.
  intros [Hh Hp]. unfold shape1. subst h.
  induction Hp as [|p pieces Hp _ IH]; [done|].
  simpl. rewrite length_app, IH, Hp. lia.
Qed.

Lemma concat_heads_shape h q depth (heads : list (list (list R))) :
  shape3 h q depth heads → shape2 q (h * depth) (concat_heads q heads).
Proof.
  intros Hh. apply transpose12_shape in Hh as [Hq Hx]. unfold concat_heads.
  split; [by rewrite length_fmap|].
  eapply fmap_shape; [|exact Hx]. intros pieces Hp. by apply concat_shape.
Qed.

Lemma matmul_transpose_b_shape q n d (A B : list (list R)) :
  shape2 q d A → shape2 n d B → shape2 q n (matmul_transpose_b A B).
Proof.
  intros [Hq HA] [Hn HB]. unfold matmul_transpose_b.
  split; [by rewrite length_fmap|].
  eapply fmap_shape; [|exact HA]. intros a _. unfold shape1. by rewrite length_fmap.
Qed.

Lemma matmul_shape q n d (W V : list (list R)) :
  shape2 q n W → shape2 n d V → shape2 q d (matmul d W V).
Proof.
  intros [Hq HW] [Hn HV]. unfold matmul. split; [by rewrite length_fmap|].
  eapply fmap_shape; [|exact HW]. intros w _. by apply vec_mat_length.
Qed.

Lemma softmax_length l : length (softmax l) = length l.
Proof. unfold softmax. apply length_fmap. Qed.

Lemma broadcast_to_fits {A} (P : A → Prop) n (l : list A) :
  axis_fits n P l → ∃ l', broadcast_to n l = Some l' ∧ length l' = n ∧ Forall P l'.
Proof.
  intros [Hlen Hl]. unfold broadcast_to. destruct (decide (length l = n)) as [Heq|Hne].
  - by exists l.
  - destruct Hlen as [?|Hone]; [done|]. destruct l as [|x [|x' l]]; try done.
    exists (replicate n x). split; [done|]. split; [apply length_replicate|].
    apply Forall_replicate. by apply Forall_cons in Hl as [Hx _].
Qed.

Lemma with_mask_axis_shape {A B C} (f : A → B → option C) (Px : A → Prop)
    (Pm : B → Prop) (Q : C → Prop) n xs ms :
  (∀ x m, Px x → Pm m → ∃ y, f x m = Some y ∧ Q y) →
  length xs = n → Forall Px xs → axis_fits n Pm ms →
  ∃ ys, with_mask_axis f xs ms = Some ys ∧ length ys = n ∧ Forall Q ys.
Proof.
  intros Hf Hlen Hxs Hms. unfold with_mask_axis. rewrite Hlen.
  destruct (broadcast_to_fits Pm n ms Hms) as (ms' & -> & Hlen' & Hms').
  cbn [mbind option_bind].
  destruct (mapM_shape (λ xm : A * B, f xm.1 xm.2) (λ xm, Px xm.1 ∧ Pm xm.2) Q (zip xs ms'))
    as (ys & Hys & Hl & HQ).
  - intros [x m] [Hx Hm]. by apply Hf.
  - apply Forall_forall. intros [x m] Hin.
    apply elem_of_zip_l in Hin as Hinx. apply elem_of_zip_r in Hin as Hinm.
    split; [by eapply Forall_forall in Hxs|by eapply Forall_forall in Hms'].
  - exists ys. split; [done|]. split; [|done].
    rewrite Hl, length_zip_with. lia.
Qed.

Lemma add_mask_shape b h q n logits mask :
  shape4 b h q n logits → mask_fits b h q n (Some mask) →
  ∃ masked, add_mask logits mask = Some masked ∧ shape4 b h q n masked.
Proof.
  intros [Hb Hl] Hm. unfold add_mask, mask_fits in *.
  eapply with_mask_axis_shape; [|exact Hb|exact Hl|exact Hm].
  intros t3 m3 [Hh Ht3] Hm3.
  eapply with_mask_axis_shape; [|exact Hh|exact Ht3|exact Hm3].
  intros t2 m2 [Hq Ht2] Hm2.
  eapply with_mask_axis_shape; [|exact Hq|exact Ht2|exact Hm2].
  intros row mrow Hrow Hmrow. unfold shape1 in Hrow.
  destruct (with_mask_axis_shape (λ l m : R, Some (l + m * minus_1e9)%R)
              (λ _, True) (λ _, True) (λ _, True) n row mrow)
    as (ys & Hys & Hlen & _); [by eauto|done|by apply Forall_true|done|].
  by exists ys.
Qed.

Lemma zip_heads_shape (g : list (list R) → list (list R) → list (list R))
    (P Q T : list (list R) → Prop) b h (X Y : list (list (list (list R)))) :
  (∀ x y, P x → Q y → T (g x y)) →
  length X = b → Forall (λ t, length t = h ∧ Forall P t) X →
  length Y = b → Forall (λ t, length t = h ∧ Forall Q t) Y →
  length (zip_with (zip_with g) X Y) = b
  ∧ Forall (λ t, length t = h ∧ Forall T t) (zip_with (zip_with g) X Y).
Proof.
  intros Hg HX HXs HY HYs.
  destruct (zip_with_shape (zip_with g) (λ t, length t = h ∧ Forall P t)
              (λ t, length t = h ∧ Forall Q t) (λ t, length t = h ∧ Forall T t) X Y)
    as [Hlen Hall]; [|congruence|done|done|].
  - intros x y [Hx HPx] [Hy HQy].
    destruct (zip_with_shape g P Q T x y) as [Hl Ha]; [done|congruence|done|done|].
    split; [congruence|done].
  - split; [congruence|done].
Qed.

Lemma scaled_dot_product_attention_shape b h q n d dv Q K V mask :
  shape4 b h q d Q → shape4 b h n d K → shape4 b h n dv V →
  mask_fits b h q n mask →
  ∃ output weights,
    scaled_dot_product_attention d dv Q K V mask = Some (output, weights)
    ∧ shape4 b h q dv output ∧ shape4 b h q n weights.
Proof.
  intros [HbQ HQ] [HbK HK] [HbV HV] Hmask. unfold scaled_dot_product_attention.
  set (logits := map (map (map (map (λ x : R, (x / sqrt (INR d))%R)))) _).
  assert (shape4 b h q n logits) as Hlogits.
  { destruct (zip_heads_shape matmul_transpose_b (shape2 q d) (shape2 n d)
                (shape2 q n) b h Q K) as [Hlen Hall]; try done.
    { intros x y. apply matmul_transpose_b_shape. }
    subst logits. split; [by rewrite length_fmap|].
    eapply fmap_shape; [|exact Hall]. intros t3 [Hh Ht3].
    split; [by rewrite length_fmap|].
    eapply fmap_shape; [|exact Ht3]. intros t2 [Hq Ht2].
    split; [by rewrite length_fmap|].
    eapply fmap_shape; [|exact Ht2]. intros row Hrow.
    unfold shape1 in *. by rewrite length_fmap. }
  assert (∃ masked,
            match mask with
            | Some mask => add_mask logits mask
            | None => Some logits
            end = Some masked ∧ shape4 b h q n masked) as (masked & -> & [Hbm Hm]).
  { destruct mask as [mask|]; [by apply add_mask_shape|by exists logits]. }
  cbn [mbind option_bind]. eexists _, _. split; [done|].
  assert (shape4 b h q n (map (map (map softmax)) masked)) as [Hbw Hw].
  { split; [by rewrite length_fmap|].
    eapply fmap_shape; [|exact Hm]. intros t3 [Hh Ht3].
    split; [by rewrite length_fmap|].
    eapply fmap_shape; [|exact Ht3]. intros t2 [Hq Ht2].
    split; [by rewrite length_fmap|].
    eapply fmap_shape; [|exact Ht2]. intros row Hrow.
    unfold shape1 in *. by rewrite softmax_length. }
  split; [|by split].
  destruct (zip_heads_shape (matmul dv) (shape2 q n) (shape2 n dv) (shape2 q dv) b h
              (map (map (map softmax)) masked) V) as [Hlen Hall]; try done.
  intros x y. apply matmul_shape.
Qed.

Lemma LayerNormalization_row_length d layer x :
  norm_shaped d layer → shape1 d x → shape1 d (LayerNormalization_row layer x).
Proof.
  intros [Hg Hb] Hx. unfold LayerNormalization_row, shape1 in *.
  rewrite vadd_length, length_zip_with, length_fmap. lia.
Qed.

Lemma LayerNormalization_call_shape b n d layer x :
  norm_shaped d layer → shape3 b n d x →
  shape3 b n d (LayerNormalization_call layer x).
Proof.
  intros Hl [Hb Hx]. unfold LayerNormalization_call.
  split; [by rewrite length_fmap|].
  eapply fmap_shape; [|exact Hx]. intros m [Hn Hm].
  split; [by rewrite length_fmap|].
  eapply fmap_shape; [|exact Hm]. intros r Hr. by apply LayerNormalization_row_length.
Qed.

Lemma add3_shape b n d x y : shape3 b n d x → shape3 b n d y → shape3 b n d (add3 x y).
Proof.
  intros [Hbx Hx] [Hby Hy]. unfold add3.
  destruct (zip_with_shape (zip_with vadd) (shape2 n d) (shape2 n d) (shape2 n d) x y)
    as [Hlen Hall]; [|congruence|done|done|by split; [congruence|]].
  intros m m' [Hn Hm] [Hn' Hm'].
  destruct (zip_with_shape vadd (shape1 d) (shape1 d) (shape1 d) m m')
    as [Hl Ha]; [|congruence|done|done|by split; [congruence|]].
  intros r r' Hr Hr'. unfold shape1 in *. rewrite vadd_length. lia.
Qed.

Lemma PointwiseFeedforward_call_shape b n d self x :
  dense_shaped d d (ff1 self) → dense_shaped d d (ff2 self) → shape3 b n d x →
  ∃ y, PointwiseFeedforward_call self x = Some y ∧ shape3 b n d y.
Proof.
  intros H1 H2 Hx. unfold PointwiseFeedforward_call.
  destruct (Dense_call_shape d d (ff1 self) b n x H1 Hx) as (y1 & -> & [Hb Hy1]).
  cbn [mbind option_bind]. apply (Dense_call_shape d d); [done|].
  split; [by rewrite length_fmap|].
  eapply fmap_shape; [|exact Hy1]. intros m [Hn Hm].
  split; [by rewrite length_fmap|].
  eapply fmap_shape; [|exact Hm]. intros r Hr. unfold shape1 in *.
  by rewrite length_fmap.
Qed.

(** What [MultiHeadAttention.__init__] guarantees when its assertion
    holds. *)
Lemma MultiHeadAttention_init_shaped d h kq kk kv kf self :
  MultiHeadAttention_init d h kq kk kv kf = Some self →
  shape2 d d kq → shape2 d d kk → shape2 d d kv → shape2 d d kf →
  d_model self = d ∧ num_heads self = h ∧ h ≠ 0%nat ∧ d = (h * depth self)%nat
  ∧ dense_shaped d d (wq self) ∧ dense_shaped d d (wk self)
  ∧ dense_shaped d d (wv self) ∧ dense_shaped d d (ff self).
Proof.
  unfold MultiHeadAttention_init. case_decide as Hassert; [|done].
  destruct Hassert as [Hh Hmod]. intros [= <-] Hq Hk Hv Hf. cbn.
  split; [done|]. split; [done|]. split; [done|].
  split; [by apply Nat.Div0.div_exact|].
  assert (∀ k, shape2 d d k →
               dense_shaped d d {| units := d; kernel := k; bias := None |}) as Hds.
  { intros k Hk'. split; [done|]. by split. }
  auto.
Qed.

Section pooling_shapes.
Context (self : PoolingMultiheadAttention) (d k h : nat).
Context (Hself : pooling_shaped d k h self).

Lemma MultiHeadAttention_call_shape b n q x mask :
  shape3 b k d q → shape3 b n d x → mask_fits b h k n mask →
  ∃ output weights,
    MultiHeadAttention_call (mha (mab self)) q x x mask = Some (output, weights)
    ∧ shape3 b k d output.
Proof.
  destruct Hself as (Hd & Hh & Hh0 & Hdepth & Hwq & Hwk & Hwv & Hff & _).
  intros Hq Hx Hmask. unfold MultiHeadAttention_call.
  destruct (Dense_call_shape d d _ b k q Hwq Hq) as (q' & -> & Hq').
  destruct (Dense_call_shape d d _ b n x Hwk Hx) as (k' & -> & Hk').
  destruct (Dense_call_shape d d _ b n x Hwv Hx) as (v' & -> & Hv').
  cbn [mbind option_bind].
  rewrite Hdepth, <- Hh in Hq', Hk', Hv'.
  apply split_heads_shape in Hq', Hk', Hv'. rewrite Hh in Hq', Hk', Hv'.
  destruct (scaled_dot_product_attention_shape b h k n _ _ _ _ _ mask Hq' Hk' Hv' Hmask)
    as (output & weights & -> & [Hbo Ho] & _).
  cbn [mbind option_bind].
  assert (shape3 b k d (zip_with concat_heads ((λ m : list (list R), length m) <$> q) output))
    as Hconcat.
  { destruct Hq as [Hbq Hq].
    destruct (zip_with_shape concat_heads (λ len, len = k)
                (shape3 h k (depth (mha (mab self)))) (shape2 k d)
                ((λ m : list (list R), length m) <$> q) output) as [Hlen Hall].
    - intros len heads -> Hheads. rewrite Hdepth. by apply concat_heads_shape.
    - rewrite length_fmap. congruence.
    - eapply fmap_shape; [|exact Hq]. by intros m [Hm _].
    - done.
    - split; [|done]. rewrite Hlen, length_fmap. done. }
  destruct (Dense_call_shape d d _ b k _ Hff Hconcat) as (out & -> & Hout).
  cbn [mbind option_bind]. by eexists _, _.
Qed.

Lemma TransformerLayer_call_shape b n s x mask :
  shape3 b k d s → shape3 b n d x → mask_fits b h k n mask →
  ∃ out, TransformerLayer_call (mab self) s x mask = Some out ∧ shape3 b k d out.
Proof.
  intros Hs Hx Hmask. unfold TransformerLayer_call.
  destruct (MultiHeadAttention_call_shape b n s x mask Hs Hx Hmask)
    as (attn & weights & -> & Hattn).
  destruct Hself as (_ & _ & _ & _ & _ & _ & _ & _ & Hff1 & Hff2 & Hn1 & Hn2 & _).
  cbn [mbind option_bind].
  pose proof (LayerNormalization_call_shape b k d _ _ Hn1 (add3_shape _ _ _ _ _ Hs Hattn))
    as Hout1.
  destruct (PointwiseFeedforward_call_shape b k d _ _ Hff1 Hff2 Hout1)
    as (ffn_output & -> & Hffn).
  cbn [mbind option_bind]. eexists. split; [done|].
  apply LayerNormalization_call_shape; [done|]. by apply add3_shape.
Qed.

Lemma tile0_seed_vectors_shape b : shape3 b k d (tile0 b (seed_vectors self)).
Proof.
  destruct Hself as (_ & _ & _ & _ & _ & _ & _ & _ & _ & _ & _ & _ & [Hone Hseed]).
  destruct (seed_vectors self) as [|s [|s' rest]]; try done.
  apply Forall_cons in Hseed as [Hs _]. unfold tile0.
  split.
  - induction b as [|b IH]; [done|]. simpl. by rewrite IH.
  - induction b as [|b IH]; [constructor|]. simpl. by constructor.
Qed.
End pooling_shapes.

(** C4: called on an input of shape (batch, n, d_model) with n >= 1 and a
    mask that is absent or broadcasts to the attention logits,
    [PoolingMultiheadAttention.call] returns a tensor of shape
    (batch, num_seed_vectors, d_model), whatever n is. *)
Theorem pooling_output_shape (self : PoolingMultiheadAttention)
    (d_model num_seed_vectors num_heads batch n : nat)
    (x : list (list (list R))) (mask : option (list (list (list (list R))))) :
  pooling_shaped d_model num_seed_vectors num_heads self →
  (1 ≤ n)%nat →
  shape3 batch n d_model x →
  mask_fits batch num_heads num_seed_vectors n mask →
  ∃ out,
    PoolingMultiheadAttention_call self x mask = Some out
    ∧ shape3 batch num_seed_vectors d_model out.
Proof.
  intros Hself _ Hx Hmask. unfold PoolingMultiheadAttention_call.
  destruct Hx as [Hb Hx]. rewrite Hb.
  eapply TransformerLayer_call_shape; [exact Hself| |by split|exact Hmask].
  by eapply tile0_seed_vectors_shape.
Qed.

Lemma pooling_output_shape_witness :
  pooling_shaped 2 1 1 demo_pooling
  ∧ shape3 2 3 2 demo_entities
  ∧ mask_fits 2 1 1 3 (Some demo_mask)
  ∧ ∃ out,
      PoolingMultiheadAttention_call demo_pooling demo_entities (Some demo_mask) = Some out
      ∧ shape3 2 1 2 out.
Proof.
  assert (pooling_shaped 2 1 1 demo_pooling) as Hp.
  { unfold pooling_shaped, dense_shaped, norm_shaped, shape3, shape2, shape1.
    cbn. repeat split; try done; repeat constructor. }
  assert (shape3 2 3 2 demo_entities) as Hx.
  { unfold shape3, shape2, shape1. cbn. repeat split; repeat constructor. }
  assert (mask_fits 2 1 1 3 (Some demo_mask)) as Hm.
  { unfold mask_fits, axis_fits. cbn. repeat split; try (by left); repeat constructor;
      try (by left); repeat constructor. }
  split; [exact Hp|]. split; [exact Hx|]. split; [exact Hm|].
  apply (pooling_output_shape demo_pooling 2 1 1 2 3 demo_entities (Some demo_mask) Hp);
    [lia|exact Hx|exact Hm].
Defined.

(** ** The set transformer: permutations of the entities *)

Section permute_facts.
Context {A : Type}.
Implicit Types (pi : list nat) (l : list A).

Lemma permute_cons i pi l :
  permute (i :: pi) l =
  match l !! i with
  | Some x => x :: permute pi l
  | None => permute pi l
  end.
Proof. done. Qed.

Lemma permute_shift pi x l : permute (S <$> pi) (x :: l) = permute pi l.
Proof.
  induction pi as [|i pi IH]; [done|].
  rewrite fmap_cons, !permute_cons, IH. done.
Qed.

Lemma permute_seq l : permute (seq 0 (length l)) l = l.
Proof.
  induction l as [|x l IH]; [done|].
  cbn [length seq]. rewrite permute_cons. cbn [lookup list_lookup]. f_equal.
  by rewrite <- fmap_S_seq, permute_shift.
Qed.

Lemma permute_Permutation pi l : pi ≡ₚ seq 0 (length l) → permute pi l ≡ₚ l.
Proof.
  intros Hpi. rewrite <- (permute_seq l) at 2. unfold permute. by rewrite Hpi.
Qed.

Lemma permute_length pi l : pi ≡ₚ seq 0 (length l) → length (permute pi l) = length l.
Proof. intros Hpi. by rewrite (permute_Permutation pi l Hpi). Qed.

Lemma perm_indices_lt pi n i : pi ≡ₚ seq 0 n → i ∈ pi → (i < n)%nat.
Proof. intros Hpi Hi. rewrite Hpi in Hi. apply elem_of_seq in Hi. lia. Qed.

Lemma perm_length pi n : pi ≡ₚ seq 0 n → length pi = n.
Proof. intros Hpi. by rewrite Hpi, length_seq. Qed.

Lemma permute_replicate pi n (x : A) :
  pi ≡ₚ seq 0 n → permute pi (replicate n x) = replicate n x.
Proof.
  intros Hpi. rewrite <- (perm_length pi n Hpi) at 2.
  assert (Forall (λ i, (i < n)%nat) pi) as Hall.
  { apply Forall_forall. intros i Hi. by eapply perm_indices_lt. }
  clear Hpi. induction Hall as [|i pi Hi _ IH]; [done|].
  rewrite permute_cons, lookup_replicate_2 by done. simpl. by rewrite IH.
Qed.
End permute_facts.

Lemma permute_fmap {A B} (f : A → B) pi (l : list A) :
  permute pi (f <$> l) = f <$> permute pi l.
Proof.
  induction pi as [|i pi IH]; [done|].
  rewrite !permute_cons, list_lookup_fmap, IH. by destruct (l !! i).
Qed.

Lemma permute_zip_with {A B C} (f : A → B → C) pi (a : list A) (b : list B) :
  length a = length b →
  permute pi (zip_with f a b) = zip_with f (permute pi a) (permute pi b).
Proof.
  intros Hlen. induction pi as [|i pi IH]; [done|].
  rewrite !permute_cons, lookup_zip_with.
  destruct (a !! i) as [x|] eqn:Ha.
  - destruct (b !! i) as [y|] eqn:Hb.
    + simpl. by rewrite IH.
    + apply lookup_ge_None in Hb. apply lookup_lt_Some in Ha. lia.
  - simpl. destruct (b !! i) as [y|] eqn:Hb; [|done].
    apply lookup_ge_None in Ha. apply lookup_lt_Some in Hb. lia.
Qed.

Lemma mapM_permute {A B} (f : A → option B) pi (l : list A) :
  pi ≡ₚ seq 0 (length l) →
  mapM f (permute pi l) = permute pi <$> mapM f l.
Proof.
  intros Hpi. destruct (mapM f l) as [k|] eqn:Hk; simpl.
  - apply mapM_Some in Hk. apply mapM_Some.
    clear Hpi. induction pi as [|i pi IH]; [constructor|].
    rewrite !permute_cons.
    destruct (l !! i) as [x|] eqn:Hx.
    + destruct (Forall2_lookup_l _ _ _ _ _ Hk Hx) as (y & -> & Hy). by constructor.
    + apply lookup_ge_None in Hx. rewrite (Forall2_length _ _ _ Hk) in Hx.
      apply lookup_ge_None in Hx. by rewrite Hx.
  - apply mapM_None in Hk. apply mapM_None.
    by rewrite (permute_Permutation pi l Hpi).
Qed.

Lemma sum_Permutation (l l' : list R) :
  l ≡ₚ l' → foldr Rplus 0%R l = foldr Rplus 0%R l'.
Proof.
  intros Hl. apply (foldr_permutation_proper eq Rplus 0%R); [|done].
  intros a b c. Lra.lra.
Qed.

Lemma vadd_comm u v : vadd u v = vadd v u.
Proof.
  unfold vadd. revert v. induction u as [|a u IH]; intros [|b v]; simpl; try done.
  f_equal; [Lra.lra|apply IH].
Qed.

Lemma vadd_assoc u v w : vadd u (vadd v w) = vadd (vadd u v) w.
Proof.
  unfold vadd. revert v w. induction u as [|a u IH]; intros [|b v] [|c w]; simpl;
    try done.
  f_equal; [Lra.lra|apply IH].
Qed.

Lemma vsum_Permutation cols (rows rows' : list (list R)) :
  rows ≡ₚ rows' →
  foldr vadd (replicate cols 0%R) rows = foldr vadd (replicate cols 0%R) rows'.
Proof.
  intros Hr. apply (foldr_permutation_proper eq vadd (replicate cols 0%R)); [|done].
  intros a b c. by rewrite !vadd_assoc, (vadd_comm a b).
Qed.

Section permuted_rows.
Context (pi : list nat) (n : nat) (Hpi : pi ≡ₚ seq 0 n).

Lemma vec_mat_permute cols (w : list R) (V : list (list R)) :
  length w = n → length V = n →
  vec_mat cols (permute pi w) (permute pi V) = vec_mat cols w V.
Proof.
  intros Hw HV. unfold vec_mat.
  rewrite <- permute_zip_with by congruence.
  apply vsum_Permutation, permute_Permutation.
  rewrite length_zip_with, Hw, HV, Nat.min_id. done.
Qed.

Lemma softmax_permute (l : list R) :
  length l = n → softmax (permute pi l) = permute pi (softmax l).
Proof.
  intros Hl. unfold softmax. rewrite permute_fmap.
  rewrite <- (permute_fmap exp).
  rewrite (sum_Permutation (permute pi (exp <$> l)) (exp <$> l)); [done|].
  apply permute_Permutation. by rewrite length_fmap, Hl.
Qed.

Lemma matmul_permute cols (W V : list (list R)) :
  Forall (λ w, length w = n) W → length V = n →
  matmul cols (permute pi <$> W) (permute pi V) = matmul cols W V.
Proof.
  intros HW HV. unfold matmul. rewrite <- list_fmap_compose.
  apply Forall_fmap_ext. eapply Forall_impl; [exact HW|].
  intros w Hw. simpl. by apply vec_mat_permute.
Qed.

Lemma matmul_transpose_b_permute (Q K : list (list R)) :
  matmul_transpose_b Q (permute pi K) = map (permute pi) (matmul_transpose_b Q K).
Proof.
  unfold matmul_transpose_b. rewrite <- list_fmap_compose.
  apply list_fmap_ext. intros _ a _. simpl. symmetry. apply permute_fmap.
Qed.

(** One row of logits and the matching row of the mask. *)
Lemma mask_row_permute (g : R → R → option R) (L m : list R) :
  length L = n →
  with_mask_axis g (permute pi L) (permute_key_axis pi m) =
  permute pi <$> with_mask_axis g L m.
Proof.
  intros HL. unfold with_mask_axis.
  pose proof (perm_length pi n Hpi) as Hlen.
  rewrite permute_length by (by rewrite HL). rewrite HL.
  unfold permute_key_axis, broadcast_to.
  destruct (decide (length m = n)) as [Hm|Hm].
  - destruct (decide (length m = length pi)) as [_|Hne]; [|congruence].
    rewrite decide_True by (rewrite permute_length; [done|by rewrite Hm]).
    cbn [mbind option_bind].
    rewrite <- (permute_zip_with pair) by congruence.
    apply mapM_permute. rewrite length_zip_with, HL, Hm, Nat.min_id. done.
  - destruct (decide (length m = length pi)) as [Heq|_]; [congruence|].
    rewrite decide_False by done.
    destruct m as [|x [|x' m]]; try done.
    cbn [mbind option_bind].
    rewrite <- (permute_replicate pi n x Hpi) at 1.
    rewrite <- (permute_zip_with pair) by (by rewrite length_replicate).
    apply mapM_permute. rewrite length_zip_with, HL, length_replicate, Nat.min_id. done.
Qed.
End permuted_rows.

Lemma mapM_fmap_equivariant {A B} (g g' : A → option B) (h : A → A) (chi : B → B)
    (l : list A) :
  Forall (λ x, g' (h x) = chi <$> g x) l →
  mapM g' (h <$> l) = fmap (M := list) chi <$> mapM g l.
Proof.
  induction 1 as [|x l Hx _ IH]; [done|].
  simpl. rewrite Hx. destruct (g x) as [y|]; [|done]. simpl.
  change (list_fmap A A h l) with (h <$> l). rewrite IH.
  by destruct (mapM g l).
Qed.

Lemma zip_fmap_both {A B} (phi : A → A) (psi : B → B) (xs : list A) (ms : list B) :
  zip (phi <$> xs) (psi <$> ms) = (λ xm, (phi xm.1, psi xm.2)) <$> zip xs ms.
Proof.
  revert ms. induction xs as [|x xs IH]; intros [|m ms]; try done.
  simpl. f_equal. apply IH.
Qed.

(** An outer axis: the entries of both operands are transformed, the
    results correspondingly. *)
Lemma with_mask_axis_fmap {A B C} (f f' : A → B → option C) (phi : A → A)
    (psi : B → B) (chi : C → C) (P : A → Prop) (xs : list A) (ms : list B) :
  (∀ x m, P x → f' (phi x) (psi m) = chi <$> f x m) →
  Forall P xs →
  with_mask_axis f' (phi <$> xs) (psi <$> ms) =
  fmap (M := list) chi <$> with_mask_axis f xs ms.
Proof.
  intros Hf Hxs. unfold with_mask_axis. rewrite length_fmap.
  assert (broadcast_to (length xs) (psi <$> ms) =
          fmap (M := list) psi <$> broadcast_to (length xs) ms) as ->.
  { unfold broadcast_to. rewrite length_fmap. case_decide; [done|].
    destruct ms as [|m [|m' ms]]; try done. simpl. by rewrite fmap_replicate. }
  destruct (broadcast_to (length xs) ms) as [ms'|]; [|done].
  cbn [mbind option_bind fmap option_fmap option_map].
  rewrite zip_fmap_both.
  apply (mapM_fmap_equivariant (λ xm : A * B, f xm.1 xm.2)
           (λ xm : A * B, f' xm.1 xm.2) (λ xm, (phi xm.1, psi xm.2)) chi).
  apply Forall_forall. intros [x m] Hin. cbn [fst snd].
  apply Hf. apply elem_of_zip_l in Hin. by eapply Forall_forall in Hxs.
Qed.

Lemma with_mask_axis_Forall {A B C} (f : A → B → option C) (P : A → Prop)
    (Q : C → Prop) (xs : list A) (ms : list B) (ys : list C) :
  (∀ x m y, P x → f x m = Some y → Q y) →
  Forall P xs →
  with_mask_axis f xs ms = Some ys → Forall Q ys.
Proof.
  intros Hf Hxs. unfold with_mask_axis.
  destruct (broadcast_to (length xs) ms) as [ms'|]; [|done].
  cbn [mbind option_bind]. intros Hys. apply mapM_Some in Hys.
  clear ms. revert ms' ys Hys. induction Hxs as [|x xs Hx _ IH]; intros ms' ys Hys.
  - inversion Hys. constructor.
  - destruct ms' as [|m ms']; [inversion Hys; constructor|].
    inversion Hys as [|? y ? ys' Hy Hys']; subst. constructor; [by eapply Hf|].
    by eapply IH.
Qed.

Lemma with_mask_axis_length {A B C} (f : A → B → option C)
    (xs : list A) (ms : list B) (ys : list C) :
  with_mask_axis f xs ms = Some ys → length ys = length xs.
Proof.
  unfold with_mask_axis, broadcast_to. case_decide as Hlen.
  - cbn [mbind option_bind]. intros Hys. apply length_mapM in Hys.
    rewrite <- Hys, length_zip_with. lia.
  - destruct ms as [|m [|m' ms]]; try done. cbn [mbind option_bind].
    intros Hys. apply length_mapM in Hys.
    rewrite <- Hys, length_zip_with, length_replicate. lia.
Qed.

Section permuted_attention.
Context (pi : list nat) (n : nat) (Hpi : pi ≡ₚ seq 0 n).

Lemma add_mask_permute logits mask :
  rows_of_length n logits →
  add_mask (map (map (map (permute pi))) logits) (permute_mask_keys pi mask) =
  fmap (M := list) (map (map (permute pi))) <$> add_mask logits mask.
Proof.
  intros Hrows. unfold add_mask, permute_mask_keys.
  eapply (with_mask_axis_fmap _ _ _ _ _
            (Forall (Forall (λ row : list R, length row = n)))); [|exact Hrows].
  intros t3 m3 Ht3.
  eapply (with_mask_axis_fmap _ _ _ _ _ (Forall (λ row : list R, length row = n)));
    [|exact Ht3].
  intros t2 m2 Ht2.
  eapply (with_mask_axis_fmap _ _ _ _ _ (λ row : list R, length row = n)); [|exact Ht2].
  intros row m Hrow. by apply (mask_row_permute pi n Hpi).
Qed.

Lemma add_mask_rows logits mask masked :
  rows_of_length n logits → add_mask logits mask = Some masked →
  rows_of_length n masked.
Proof.
  intros Hrows. unfold add_mask, rows_of_length.
  eapply with_mask_axis_Forall; [|exact Hrows]. intros t3 m3 y3 Ht3.
  eapply with_mask_axis_Forall; [|exact Ht3]. intros t2 m2 y2 Ht2.
  eapply with_mask_axis_Forall; [|exact Ht2]. intros row m y Hrow Hy.
  apply with_mask_axis_length in Hy. congruence.
Qed.

Lemma zip_with_fmap_r_Forall {A B C} (f : A → B → C) (psi : B → B) (chi : C → C)
    (Q : B → Prop) (xs : list A) (ys : list B) :
  (∀ x y, Q y → f x (psi y) = chi (f x y)) →
  Forall Q ys →
  zip_with f xs (psi <$> ys) = chi <$> zip_with f xs ys.
Proof.
  intros Hf Hys. revert xs. induction Hys as [|y ys Hy _ IH]; intros [|x xs]; try done.
  simpl. f_equal; [by apply Hf|apply IH].
Qed.

Lemma zip_with_fmap_both_Forall {A B C} (f : A → B → C) (phi : A → A) (psi : B → B)
    (P : A → Prop) (Q : B → Prop) (xs : list A) (ys : list B) :
  (∀ x y, P x → Q y → f (phi x) (psi y) = f x y) →
  Forall P xs → Forall Q ys →
  zip_with f (phi <$> xs) (psi <$> ys) = zip_with f xs ys.
Proof.
  intros Hf Hxs. revert ys. induction Hxs as [|x xs Hx _ IH]; intros ys Hys; [done|].
  destruct Hys as [|y ys Hy Hys]; [done|]. simpl. f_equal; [by apply Hf|by apply IH].
Qed.

Lemma zip_with_Forall_r {A B C} (f : A → B → C) (Q : B → Prop) (T : C → Prop)
    (xs : list A) (ys : list B) :
  (∀ x y, Q y → T (f x y)) → Forall Q ys → Forall T (zip_with f xs ys).
Proof.
  intros Hf Hys. revert xs. induction Hys as [|y ys Hy _ IH]; intros [|x xs];
    try constructor; auto.
Qed.

Lemma matmul_qk_permute (Q K : list (list (list (list R)))) :
  zip_with (zip_with matmul_transpose_b) Q (map (map (permute pi)) K) =
  map (map (map (permute pi))) (zip_with (zip_with matmul_transpose_b) Q K).
Proof.
  apply (zip_with_fmap_r_Forall _ _ _ (λ _, True)); [|by apply Forall_true].
  intros q k _.
  apply (zip_with_fmap_r_Forall _ _ _ (λ _, True)); [|by apply Forall_true].
  intros a b _. apply matmul_transpose_b_permute.
Qed.

Lemma matmul_qk_rows (Q K : list (list (list (list R)))) :
  matrices_of_length n K →
  rows_of_length n (zip_with (zip_with matmul_transpose_b) Q K).
Proof.
  intros HK. unfold rows_of_length.
  eapply zip_with_Forall_r; [|exact HK]. intros q k Hk.
  eapply zip_with_Forall_r; [|exact Hk]. intros a b Hb.
  unfold matmul_transpose_b. apply Forall_fmap, Forall_true. intros r. simpl.
  by rewrite length_fmap.
Qed.

Lemma map4_rows (f : R → R) (t : list (list (list (list R)))) :
  rows_of_length n t → rows_of_length n (map (map (map (map f))) t).
Proof.
  intros Ht. unfold rows_of_length in *.
  apply Forall_fmap. eapply Forall_impl; [exact Ht|]. intros t3 Ht3. simpl.
  apply Forall_fmap. eapply Forall_impl; [exact Ht3|]. intros t2 Ht2. simpl.
  apply Forall_fmap. eapply Forall_impl; [exact Ht2|]. intros row Hrow. simpl.
  by rewrite length_fmap.
Qed.

Lemma map4_permute (f : R → R) (t : list (list (list (list R)))) :
  map (map (map (map f))) (map (map (map (permute pi))) t) =
  map (map (map (permute pi))) (map (map (map (map f))) t).
Proof.
  rewrite <- !list_fmap_compose. apply list_fmap_ext. intros _ t3 _. simpl.
  rewrite <- !list_fmap_compose. apply list_fmap_ext. intros _ t2 _. simpl.
  rewrite <- !list_fmap_compose. apply list_fmap_ext. intros _ row _. simpl.
  symmetry. apply permute_fmap.
Qed.

Lemma softmax_permute_rows (t : list (list (list (list R)))) :
  rows_of_length n t →
  map (map (map softmax)) (map (map (map (permute pi))) t) =
  map (map (map (permute pi))) (map (map (map softmax)) t).
Proof.
  intros Ht. rewrite <- !list_fmap_compose.
  apply Forall_fmap_ext. eapply Forall_impl; [exact Ht|]. intros t3 Ht3. simpl.
  rewrite <- !list_fmap_compose.
  apply Forall_fmap_ext. eapply Forall_impl; [exact Ht3|]. intros t2 Ht2. simpl.
  rewrite <- !list_fmap_compose.
  apply Forall_fmap_ext. eapply Forall_impl; [exact Ht2|]. intros row Hrow. simpl.
  by apply (softmax_permute pi n Hpi).
Qed.

Lemma softmax_rows (t : list (list (list (list R)))) :
  rows_of_length n t → rows_of_length n (map (map (map softmax)) t).
Proof.
  intros Ht. unfold rows_of_length in *.
  apply Forall_fmap. eapply Forall_impl; [exact Ht|]. intros t3 Ht3. simpl.
  apply Forall_fmap. eapply Forall_impl; [exact Ht3|]. intros t2 Ht2. simpl.
  apply Forall_fmap. eapply Forall_impl; [exact Ht2|]. intros row Hrow. simpl.
  by rewrite softmax_length.
Qed.

Lemma weighted_values_permute cols (W V : list (list (list (list R)))) :
  rows_of_length n W → matrices_of_length n V →
  zip_with (zip_with (matmul cols)) (map (map (map (permute pi))) W)
    (map (map (permute pi)) V) =
  zip_with (zip_with (matmul cols)) W V.
Proof.
  intros HW HV.
  eapply zip_with_fmap_both_Forall; [|exact HW|exact HV]. intros w3 v3 Hw3 Hv3.
  eapply zip_with_fmap_both_Forall; [|exact Hw3|exact Hv3]. intros w v Hw Hv.
  by apply (matmul_permute pi n Hpi).
Qed.

(** The attention output does not see the permutation; the attention
    weights are permuted along the key axis. *)
Lemma scaled_dot_product_attention_permute dk dv Q K V mask :
  matrices_of_length n K → matrices_of_length n V →
  scaled_dot_product_attention dk dv Q (map (map (permute pi)) K)
    (map (map (permute pi)) V) (permute_mask_keys pi <$> mask) =
  (λ ow, (ow.1, map (map (map (permute pi))) ow.2))
    <$> scaled_dot_product_attention dk dv Q K V mask.
Proof.
  intros HK HV. unfold scaled_dot_product_attention.
  rewrite matmul_qk_permute, map4_permute.
  set (logits := map (map (map (map (λ x : R, (x / sqrt (INR dk))%R)))) _).
  assert (rows_of_length n logits) as Hlogits.
  { subst logits. apply map4_rows. by apply matmul_qk_rows. }
  assert (match permute_mask_keys pi <$> mask with
          | Some mask => add_mask (map (map (map (permute pi))) logits) mask
          | None => Some (map (map (map (permute pi))) logits)
          end =
          fmap (M := list) (map (map (permute pi))) <$>
          match mask with
          | Some mask => add_mask logits mask
          | None => Some logits
          end) as ->.
  { destruct mask as [mask|]; [|done]. by apply add_mask_permute. }
  destruct (match mask with
            | Some mask => add_mask logits mask
            | None => Some logits
            end) as [masked|] eqn:Hmasked; [|done].
  assert (rows_of_length n masked) as Hrows.
  { destruct mask as [mask|]; [by eapply add_mask_rows|congruence]. }
  cbn [fmap option_fmap option_map mbind option_bind fst snd].
  change (list_fmap _ _ ?f ?l) with (map f l).
  rewrite softmax_permute_rows by done.
  rewrite weighted_values_permute by (done || by apply softmax_rows).
  done.
Qed.
End permuted_attention.

Section permuted_pooling.
Context (pi : list nat) (n : nat) (Hpi : pi ≡ₚ seq 0 n).

Lemma Dense_call_permute layer (x : list (list (list R))) :
  Forall (λ m, length m = n) x →
  Dense_call layer (permute pi <$> x) =
  fmap (M := list) (permute pi) <$> Dense_call layer x.
Proof.
  intros Hx. unfold Dense_call. apply mapM_fmap_equivariant.
  eapply Forall_impl; [exact Hx|]. intros m Hm. simpl.
  apply mapM_permute. by rewrite Hm.
Qed.

Lemma Dense_call_lengths layer (x y : list (list (list R))) :
  Forall (λ m, length m = n) x → Dense_call layer x = Some y →
  Forall (λ m, length m = n) y.
Proof.
  intros Hx Hy. unfold Dense_call in Hy. apply mapM_Some in Hy.
  induction Hy as [|m m' x y Hm _ IH]; [constructor|].
  apply Forall_cons in Hx as [Hlen Hx]. constructor; [|by apply IH].
  apply length_mapM in Hm. congruence.
Qed.

Lemma transpose12_permute {A} h (y : list (list (list A))) :
  transpose12 h (permute pi y) = map (permute pi) (transpose12 h y).
Proof.
  unfold transpose12. rewrite <- list_fmap_compose.
  apply list_fmap_ext. intros _ j _. simpl. symmetry. apply permute_fmap.
Qed.

Lemma split_heads_permute self (x : list (list (list R))) :
  split_heads self (permute pi <$> x) = map (map (permute pi)) (split_heads self x).
Proof.
  unfold split_heads. rewrite <- !list_fmap_compose.
  apply list_fmap_ext. intros _ m _. simpl.
  rewrite <- transpose12_permute. f_equal. symmetry. apply permute_fmap.
Qed.

Lemma split_heads_matrices self (x : list (list (list R))) :
  Forall (λ m, length m = n) x → matrices_of_length n (split_heads self x).
Proof.
  intros Hx. unfold split_heads, matrices_of_length.
  rewrite <- list_fmap_compose. apply Forall_fmap.
  eapply Forall_impl; [exact Hx|]. intros m Hm. simpl.
  unfold transpose12. apply Forall_fmap, Forall_true. intros j. simpl.
  by rewrite !length_fmap.
Qed.

Lemma MultiHeadAttention_call_permute self q k v mask :
  Forall (λ m, length m = n) k → Forall (λ m, length m = n) v →
  MultiHeadAttention_call self q (permute pi <$> k) (permute pi <$> v)
    (permute_mask_keys pi <$> mask) =
  (λ ow, (ow.1, map (map (map (permute pi))) ow.2))
    <$> MultiHeadAttention_call self q k v mask.
Proof.
  intros Hk Hv. unfold MultiHeadAttention_call.
  destruct (Dense_call (wq self) q) as [q'|]; [|done].
  cbn [mbind option_bind].
  rewrite (Dense_call_permute (wk self) k Hk).
  destruct (Dense_call (wk self) k) as [k'|] eqn:Hk'; [|done].
  cbn [fmap option_fmap option_map mbind option_bind].
  rewrite (Dense_call_permute (wv self) v Hv).
  destruct (Dense_call (wv self) v) as [v'|] eqn:Hv'; [|done].
  cbn [fmap option_fmap option_map mbind option_bind].
  change (list_fmap _ _ (permute pi) ?l) with (permute pi <$> l).
  rewrite !split_heads_permute.
  rewrite (scaled_dot_product_attention_permute pi n Hpi).
  2: { apply split_heads_matrices. by apply (Dense_call_lengths (wk self) k). }
  2: { apply split_heads_matrices. by apply (Dense_call_lengths (wv self) v). }
  destruct (scaled_dot_product_attention _ _ _ _ _ mask) as [[output weights]|]; [|done].
  cbn [fmap option_fmap option_map mbind option_bind fst snd].
  by destruct (Dense_call (ff self) _).
Qed.

Lemma TransformerLayer_call_permute self s x mask :
  Forall (λ m, length m = n) x →
  TransformerLayer_call self s (permute pi <$> x) (permute_mask_keys pi <$> mask) =
  TransformerLayer_call self s x mask.
Proof.
  intros Hx. unfold TransformerLayer_call.
  rewrite (MultiHeadAttention_call_permute (mha self) s x x mask Hx Hx).
  by destruct (MultiHeadAttention_call (mha self) s x x mask) as [[attn weights]|].
Qed.
End permuted_pooling.

(** C5: the pooling sees its input as a set: for every input whose batch
    elements have n entities, every mask and every permutation of the n
    positions, [PoolingMultiheadAttention.call] gives the same result on
    the input with its entities permuted and the mask with its key axis
    permuted as on the original input and mask (over the real numbers). *)
Theorem pooling_permutation_invariant (self : PoolingMultiheadAttention)
    (x : list (list (list R))) (mask : option (list (list (list (list R)))))
    (pi : list nat) (n : nat) :
  Forall (λ m, length m = n) x →
  pi ≡ₚ seq 0 n →
  PoolingMultiheadAttention_call self (permute_entities pi x)
    (permute_mask_keys pi <$> mask) =
  PoolingMultiheadAttention_call self x mask.
Proof.
  intros Hx Hpi. unfold PoolingMultiheadAttention_call, permute_entities.
  rewrite length_fmap. by apply (TransformerLayer_call_permute pi n Hpi).
Qed.

Lemma pooling_permutation_invariant_witness :
  let pi := [2; 0; 1]%nat in
  permute_entities pi demo_entities =
    [[[1; 1]; [1; 0]; [0; 1]]; [[2; 2]; [2; 0]; [0; 2]]]%R
  ∧ permute_mask_keys pi demo_mask = [[[[0; 0; 0]]]; [[[1; 0; 0]]]]%R
  ∧ PoolingMultiheadAttention_call demo_pooling (permute_entities pi demo_entities)
      (Some (permute_mask_keys pi demo_mask)) =
    PoolingMultiheadAttention_call demo_pooling demo_entities (Some demo_mask).
Proof.
  intros pi. split; [reflexivity|]. split; [reflexivity|].
  apply (pooling_permutation_invariant demo_pooling demo_entities (Some demo_mask) pi 3).
  - repeat constructor.
  - simpl. apply (Permutation_cons_app [0; 1]%nat [] 2%nat). reflexivity.
Defined.

(** ** The StarCraft II adapter: padding, failures and the action vector *)

(** Closed decidable facts are settled by evaluation. *)
Ltac by_evaluation := apply (bool_decide_unpack _); vm_compute; exact I.

Section sc2_units_extra.
Context {Sim : Type} (lib : Pysc2) (self : Sc2 Sim).

Lemma unit_rows_resolve units units_out :
  Forall2 (unit_row lib self) units units_out →
  ∃ ids embeds feats,
    mapR (λ row, from_option IndexError (row !! 0%nat)) units = inr ids
    ∧ mapR (λ x, from_option (KeyError (key_of_Z x))
                   (dict_get x (unit_embed_lookup self))) ids = inr embeds
    ∧ mapR (take_columns (unit_feature_columns lib)) units = inr feats
    ∧ units_out = zip_with cons embeds feats.
Proof.
  induction 1 as [|row out units outs (type & embed & features & Ht & He & Hf & ->) _
                   (ids & embeds & feats & H1 & H2 & H3 & ->)].
  - by exists [], [], [].
  - exists (type :: ids), (embed :: embeds), (features :: feats).
    cbn. rewrite Ht, H1. cbn. rewrite He, H2. cbn. by rewrite Hf, H3.
Qed.

Lemma take_columns_length cols row out :
  take_columns cols row = inr out → length out = length cols.
Proof.
  unfold take_columns. rewrite mapR_inr. intros H. symmetry.
  by eapply Forall2_length.
Qed.

Lemma unit_row_width row out :
  unit_row lib self row out → length out = S (length (unit_feature_columns lib)).
Proof.
  intros (type & embed & features & _ & _ & Hf & ->). cbn.
  by rewrite (take_columns_length _ _ _ Hf).
Qed.
End sc2_units_extra.

(** X1: when at most [unit_max] units are on the screen and every unit row
    resolves (it has a type, the type has an embedding, the selected columns
    exist), [collect_sc_observation]'s unit block is the rows of the units in
    their order followed by all-zero rows; it has exactly [unit_max] rows,
    each of width one plus the number of selected feature columns, and the
    count returned with it is the number of real units. *)
Theorem collect_units_pads_to_unit_max {Sim} (lib : Pysc2) (self : Sc2 Sim)
    (units units_out : list (list Z)) :
  Forall2 (unit_row lib self) units units_out →
  Z.of_nat (length units) ≤ unit_max self →
  let width := S (length (unit_feature_columns lib)) in
  let rows :=
    units_out ++ replicate (Z.to_nat (unit_max self) - length units)
                   (replicate width 0) in
  collect_units lib self units = inr (rows, Z.of_nat (length units))
  ∧ Z.of_nat (length rows) = unit_max self
  ∧ Forall (λ row, length row = width) rows.
Proof.
  intros Hrows Hle width rows.
  pose proof (Forall2_length _ _ _ Hrows) as Hlen.
  destruct (unit_rows_resolve lib self _ _ Hrows)
    as (ids & embeds & feats & H1 & H2 & H3 & Hout).
  split; [|split].
  - unfold collect_units. rewrite H1. cbn [rbind]. rewrite H2. cbn [rbind].
    rewrite H3. cbn [rbind]. rewrite <- Hout, <- Hlen.
    destruct (unit_max self - Z.of_nat (length units) <? 0) eqn:Hneg.
    { apply Z.ltb_lt in Hneg. lia. }
    subst rows width.
    replace (Z.to_nat (unit_max self - Z.of_nat (length units)))
      with (Z.to_nat (unit_max self) - length units)%nat by lia.
    done.
  - subst rows. rewrite length_app, length_replicate. lia.
  - subst rows. apply Forall_app. split.
    + clear Hlen Hout Hle H1 H2 H3. induction Hrows as [|row out ? ? Hrow _ IH]; constructor.
      * by apply (unit_row_width lib self row).
      * apply IH.
    + apply Forall_replicate. apply length_replicate.
Qed.

Lemma collect_units_pads_to_unit_max_witness :
  ∃ self,
    demo_sc2 4 = inr self
    ∧ collect_units demo_lib self [[48; 1; 100]; [105; 4; 35]] =
        inr ([[1; 1; 100]; [2; 4; 35]; [0; 0; 0]; [0; 0; 0]], 2).
Proof.
  eexists. split; [reflexivity|].
  refine (proj1 (collect_units_pads_to_unit_max demo_lib _
                   [[48; 1; 100]; [105; 4; 35]] [[1; 1; 100]; [2; 4; 35]] _ _)).
  - repeat constructor; do 3 eexists; repeat split; reflexivity.
  - cbn. lia.
Defined.

(** X2: a frame with more than [unit_max] units never yields an observation:
    [collect_sc_observation] raises, and so do [reset] and [step], after the
    simulator has been advanced by the call. *)
Theorem too_many_units_no_observation {Sim} (lib : Pysc2) (sim : SC2Env Sim)
    (self : Sc2 Sim) (timestep : SC2TimeStep) :
  unit_max self < Z.of_nat (length (feature_units (sc_observation timestep))) →
  (∃ e, collect_sc_observation lib self timestep = inl e)
  ∧ (∀ env', sc2_reset sim (sc2_env self) = (inr timestep, env') →
       (∃ e, outcome (Sc2_reset lib sim) self = inl e)
       ∧ trace (Sc2_reset lib sim) self = [Call "SC2Env.reset"]
       ∧ sc2_env (final (Sc2_reset lib sim) self) = env')
  ∧ (∀ action call env',
       rebuild_action sim self action = inr call →
       sc2_step sim call (sc2_env self) = (inr timestep, env') →
       (∃ e, outcome (Sc2_step lib sim action) self = inl e)
       ∧ trace (Sc2_step lib sim action) self = [Call "SC2Env.step"]
       ∧ sc2_env (final (Sc2_step lib sim action) self) = env').
Proof.
  intros Hmany.
  assert (∃ e, collect_sc_observation lib self timestep = inl e) as [e He].
  { unfold collect_sc_observation.
    destruct (collect_units_too_many lib self _ Hmany) as [e He]. rewrite He.
    repeat match goal with
           | |- context [rbind ?r _] =>
               lazymatch r with
               | inl _ => fail
               | _ => destruct r as [?|?]; [by eexists|]; cbn [rbind]
               end
           end.
    by eexists. }
  split; [by exists e|]. split.
  - intros env' Hr. unfold outcome, trace, final, Sc2_reset.
    run_method. unfold sc2_call. rewrite Hr. cbn. rewrite He. cbn.
    split; [by exists e|done].
  - intros action call env' Hcall Hs. unfold outcome, trace, final, Sc2_step.
    run_method. rewrite Hcall. cbn. unfold sc2_call. rewrite Hs. cbn.
    rewrite He. cbn. split; [by exists e|done].
Qed.

Lemma too_many_units_no_observation_witness :
  ∃ self,
    demo_sc2 2 = inr self
    ∧ ∃ e, outcome (Sc2_reset demo_lib demo_sim) self = inl e.
Proof.
  eexists. split; [reflexivity|].
  refine (proj1 (proj1 (proj2 (too_many_units_no_observation demo_lib demo_sim _
    (demo_timestep [[48; 1; 100]; [105; 4; 35]; [48; 1; 60]]) _)) 1%nat _)).
  - cbn. lia.
  - reflexivity.
Defined.

(** *** The vector of available actions *)

Lemma norm_index_in_range n i :
  0 ≤ i < Z.of_nat n → norm_index n i = inr (Z.to_nat i).
Proof.
  intros Hi. unfold norm_index.
  destruct (0 <=? i) eqn:H0; [|apply Z.leb_gt in H0; lia].
  destruct (i <? Z.of_nat n) eqn:H1; [done|apply Z.ltb_ge in H1; lia].
Qed.

Lemma zeros_with_ones_fold n (indices acc : list Z) :
  length acc = n →
  Forall (λ i, 0 ≤ i < Z.of_nat n) indices →
  ∃ v,
    foldl (λ acc i,
       rbind acc (λ a, rbind (norm_index n i) (λ j, inr (<[j := 1]> a))))
      (inr acc) indices = inr v
    ∧ length v = n
    ∧ ∀ j, (Z.of_nat j ∈ indices → (j < n)%nat → v !! j = Some 1)
           ∧ (Z.of_nat j ∉ indices → v !! j = acc !! j).
Proof.
  intros Hlen Hall. revert acc Hlen.
  induction Hall as [|i indices Hi _ IH]; intros acc Hlen.
  - exists acc. split; [done|]. split; [done|]. intros j. split; [|done].
    intros Hin. by apply elem_of_nil in Hin.
  - cbn [foldl rbind]. rewrite (norm_index_in_range _ _ Hi). cbn [rbind].
    destruct (IH (<[Z.to_nat i := 1]> acc)) as (v & Hv & Hlv & Hj).
    { by rewrite length_insert. }
    exists v. split; [exact Hv|]. split; [exact Hlv|]. intros j. split.
    + intros Hin Hjn. destruct (decide (Z.of_nat j ∈ indices)) as [Hin'|Hout].
      * by apply Hj.
      * apply elem_of_cons in Hin as [Heq|Hin']; [|done].
        rewrite (proj2 (Hj j) Hout). subst i. rewrite Nat2Z.id.
        apply list_lookup_insert_eq. lia.
    + intros Hout. apply not_elem_of_cons in Hout as [Hne Hout].
      rewrite (proj2 (Hj j) Hout). apply list_lookup_insert_ne. lia.
Qed.

Lemma zeros_with_ones_spec n (indices : list Z) :
  Forall (λ i, 0 ≤ i < Z.of_nat n) indices →
  ∃ v,
    zeros_with_ones n indices = inr v
    ∧ length v = n
    ∧ ∀ j, (j < n)%nat →
           (Z.of_nat j ∈ indices → v !! j = Some 1)
           ∧ (Z.of_nat j ∉ indices → v !! j = Some 0).
Proof.
  intros Hall.
  destruct (zeros_with_ones_fold n indices (replicate n 0)) as (v & Hv & Hlv & Hj);
    [apply length_replicate|done|].
  exists v. split; [exact Hv|]. split; [exact Hlv|]. intros j Hjn. split.
  - intros Hin. by apply Hj.
  - intros Hout. rewrite (proj2 (Hj j) Hout). by apply lookup_replicate_2.
Qed.

(** The lookup [__init__] builds numbers the actions from zero. *)
Lemma enumerate_from_range ids a i :
  dict_get a (enumerate_from 0 ids) = Some i → 0 ≤ i < Z.of_nat (length ids).
Proof.
  intros Hget. apply dict_get_elem_of in Hget.
  assert (i ∈ (enumerate_from 0 ids).*2) as Hin.
  { apply list_elem_of_fmap. by exists (a, i). }
  rewrite enumerate_from_values in Hin.
  apply list_elem_of_fmap in Hin as (k & -> & Hk).
  apply elem_of_seq in Hk. lia.
Qed.

Lemma Sc2_init_lookup_range {Sim} (lib : Pysc2) (sim : SC2Env Sim)
    (map_name : string)
    (screen_size minimap_size max_units steps_per_action steps_per_episode : Z)
    (fog visualise : bool) (self : Sc2 Sim) a i :
  NoDup (fn_id <$> _FUNCTIONS lib) →
  (Sc2_init lib sim map_name screen_size minimap_size max_units steps_per_action
     steps_per_episode fog visualise).2 = inr self →
  dict_get a (action_embed_lookup self) = Some i →
  0 ≤ i < Z.of_nat (length (action_embed_lookup self)).
Proof.
  intros Hnd Hinit. unfold Sc2_init in Hinit. cbn in Hinit.
  destruct (sc2_create sim _) as [e|env]; [done|]. cbn in Hinit.
  injection Hinit as <-. cbn. rewrite get_action_lookup_spec by done.
  rewrite enumerate_from_length. apply enumerate_from_range.
Qed.

Lemma Forall2_elem_of_r {A B} (P : A → B → Prop) l k y :
  Forall2 P l k → y ∈ k → ∃ x, x ∈ l ∧ P x y.
Proof.
  intros HF Hin. apply list_elem_of_lookup in Hin as [i Hi].
  destruct (Forall2_lookup_r _ _ _ _ _ HF Hi) as (x & Hx & HP).
  exists x. split; [|done]. apply list_elem_of_lookup. by exists i.
Qed.

Lemma Forall2_elem_of_l {A B} (P : A → B → Prop) l k x :
  Forall2 P l k → x ∈ l → ∃ y, y ∈ k ∧ P x y.
Proof.
  intros HF Hin. apply list_elem_of_lookup in Hin as [i Hi].
  destruct (Forall2_lookup_l _ _ _ _ _ HF Hi) as (y & Hy & HP).
  exists y. split; [|done]. apply list_elem_of_lookup. by exists i.
Qed.

Lemma mapR_first_failure {A B} (f : A → result B) (l : list A) :
  Exists (λ x, ∃ e, f x = inl e) l →
  ∃ x e, x ∈ l ∧ f x = inl e ∧ mapR f l = inl e.
Proof.
  induction l as [|x l IH]; intros Hex; [by apply Exists_nil in Hex|].
  cbn [mapR]. destruct (f x) as [e|y] eqn:Hx.
  - exists x, e. split; [left|done].
  - apply Exists_cons in Hex as [[e He]|Hex]; [congruence|].
    destruct (IH Hex) as (x' & e & Hin & Hf & Hm).
    exists x', e. split; [by right|]. split; [done|]. cbn. by rewrite Hm.
Qed.

(** X3: for an adapter built by [__init__], when every action the frame
    offers is blocked or enumerated, the 'available_actions' entry of the
    observation is a vector with one slot per enumerated action, holding 1
    exactly at the embedded indices of the offered actions that are not
    blocked, and 0 everywhere else. *)
Theorem available_actions_vector {Sim} (lib : Pysc2) (sim : SC2Env Sim)
    (map_name : string)
    (screen_size minimap_size max_units steps_per_action steps_per_episode : Z)
    (fog visualise : bool) (self : Sc2 Sim) (av_actions : list Z) :
  NoDup (fn_id <$> _FUNCTIONS lib) →
  (Sc2_init lib sim map_name screen_size minimap_size max_units steps_per_action
     steps_per_episode fog visualise).2 = inr self →
  (∀ a, a ∈ av_actions → a ∉ blocked_actions self →
        is_Some (dict_get a (action_embed_lookup self))) →
  ∃ v,
    collect_available_actions self av_actions = inr v
    ∧ length v = length (action_embed_lookup self)
    ∧ ∀ j, (j < length (action_embed_lookup self))%nat →
           (shown self av_actions j → v !! j = Some 1)
           ∧ (¬ shown self av_actions j → v !! j = Some 0).
Proof.
  intros Hnd Hinit Hknown. unfold collect_available_actions.
  set (lookup := action_embed_lookup self) in *.
  set (offered := filter (λ a, a ∉ blocked_actions self) av_actions).
  assert (∃ indices,
    mapR (λ a, from_option (KeyError (key_of_Z a)) (dict_get a lookup)) offered
      = inr indices
    ∧ Forall2 (λ a i, dict_get a lookup = Some i) offered indices)
    as (indices & Hmap & Hind).
  { assert (Forall (λ a, is_Some (dict_get a lookup)) offered) as Hall.
    { apply Forall_forall. intros a Hin. subst offered.
      apply list_elem_of_filter in Hin as [Hnb Hin]. by apply Hknown. }
    clear Hknown. induction Hall as [|a l [i Hi] _ (indices & Hm & Hf)].
    - by exists [].
    - exists (i :: indices). cbn. rewrite Hi, Hm. cbn. split; [done|].
      by constructor. }
  rewrite Hmap. cbn [rbind].
  destruct (zeros_with_ones_spec (length lookup) indices) as (v & Hv & Hlen & Hj).
  { apply Forall_forall. intros i Hin.
    apply (Forall2_elem_of_r _ _ _ _ Hind) in Hin as (a & _ & Ha).
    by apply (Sc2_init_lookup_range lib sim map_name screen_size minimap_size
                max_units steps_per_action steps_per_episode fog visualise self a). }
  exists v. split; [exact Hv|]. split; [exact Hlen|]. intros j Hjn.
  destruct (Hj j Hjn) as [Hone Hzero]. split.
  - intros (a & Hin & Hnb & Ha). apply Hone.
    assert (a ∈ offered) as Hoff by (by apply list_elem_of_filter).
    apply (Forall2_elem_of_l _ _ _ _ Hind) in Hoff as (i & Hi & Hai).
    subst lookup. rewrite Ha in Hai. by injection Hai as <-.
  - intros Hnot. apply Hzero. intros Hin. apply Hnot.
    apply (Forall2_elem_of_r _ _ _ _ Hind) in Hin as (a & Ha & Haj).
    apply list_elem_of_filter in Ha as [Hnb Ha]. by exists a.
Qed.

Lemma available_actions_vector_witness :
  ∃ v,
    demo_sc2 2 = inr (demo_self 2)
    ∧ collect_available_actions (demo_self 2) [4; 9] = inr v
    ∧ v !! 1%nat = Some 1 ∧ v !! 0%nat = Some 0.
Proof.
  destruct (available_actions_vector demo_lib demo_sim "Simple64" 64 64 2 8 0 false
              false (demo_self 2) [4; 9] ltac:(by_evaluation) eq_refl)
    as (v & Hv & Hlen & Hj).
  - intros a Hin Hnb. cbn in Hnb.
    apply elem_of_cons in Hin as [->|Hin]; [by destruct Hnb; left|].
    apply list_elem_of_singleton in Hin as ->. by eexists.
  - exists v. split; [reflexivity|]. split; [exact Hv|]. split.
    + apply (Hj 1%nat); [cbn; lia|]. exists 9. split; [by_evaluation|].
      split; [by_evaluation|reflexivity].
    + apply (Hj 0%nat); [cbn; lia|]. intros (a & Hin & Hnb & Ha).
      apply elem_of_cons in Hin as [->|Hin]; [by destruct Hnb; left|].
      apply list_elem_of_singleton in Hin as ->. done.
Defined.

(** X4: an action the frame offers that is neither blocked nor enumerated
    (a specific ability, say) makes [collect_sc_observation] raise the
    KeyError of such an action: no vector of available actions is built. *)
Theorem available_actions_unknown {Sim} (lib : Pysc2) (self : Sc2 Sim)
    (timestep : SC2TimeStep) (a : Z) :
  a ∈ available_actions (sc_observation timestep) →
  a ∉ blocked_actions self →
  dict_get a (action_embed_lookup self) = None →
  ∃ a',
    a' ∈ available_actions (sc_observation timestep)
    ∧ (a' ∉ blocked_actions self)
    ∧ dict_get a' (action_embed_lookup self) = None
    ∧ collect_available_actions self (available_actions (sc_observation timestep))
      = inl (KeyError (key_of_Z a'))
    ∧ collect_sc_observation lib self timestep = inl (KeyError (key_of_Z a')).
Proof.
  intros Hin Hnb Hnone.
  destruct (mapR_first_failure
              (λ a, from_option (KeyError (key_of_Z a))
                      (dict_get a (action_embed_lookup self)))
              (filter (λ a, a ∉ blocked_actions self)
                 (available_actions (sc_observation timestep))))
    as (a' & e & Hin' & Hf & Hm).
  { apply Exists_exists. exists a. split; [by apply list_elem_of_filter|].
    rewrite Hnone. by eexists. }
  apply list_elem_of_filter in Hin' as [Hnb' Hin'].
  destruct (dict_get a' (action_embed_lookup self)) eqn:Hget; [done|].
  cbn in Hf. injection Hf as <-.
  assert (collect_available_actions self
            (available_actions (sc_observation timestep))
          = inl (KeyError (key_of_Z a'))) as Hc.
  { unfold collect_available_actions. by rewrite Hm. }
  exists a'. repeat (split; [done|]).
  unfold collect_sc_observation. by rewrite Hc.
Qed.

Lemma available_actions_unknown_witness :
  ∃ a',
    demo_sc2 2 = inr (demo_self 2)
    ∧ collect_available_actions (demo_self 2) [0; 7] = inl (KeyError (key_of_Z a')).
Proof.
  destruct (available_actions_unknown demo_lib (demo_self 2)
    {| sc_observation :=
         {| available_actions := [0; 7];
            feature_screen := feature_screen (sc_observation (demo_timestep []));
            feature_minimap := feature_minimap (sc_observation (demo_timestep []));
            player := []; feature_units := [] |};
       sc_reward := 0; sc_last := false |} 7)
    as (a' & _ & _ & _ & Hc & _).
  - by_evaluation.
  - by_evaluation.
  - reflexivity.
  - exists a'. split; [reflexivity|exact Hc].
Defined.

(** *** Argument keys are unambiguous *)

Lemma split_once_app (p r : string) :
  split_once p = None → split_once (p +:+ "_" +:+ r) = Some (p, r).
Proof.
  induction p as [|c p IH]; intros Hp; [done|].
  cbn in Hp. destruct (Ascii.eqb c _) eqn:Hc; [done|].
  destruct (split_once p) as [[a b]|]; [done|].
  specialize (IH eq_refl).
  change (split_once (String c (p +:+ "_" +:+ r)) = Some (String c p, r)).
  cbn [split_once]. by rewrite Hc, IH.
Qed.

Lemma pretty_N_char_not_underscore (x : N) :
  Ascii.eqb (pretty_N_char x) (Ascii.ascii_of_nat 95) = false.
Proof.
  destruct x as [|p]; [done|].
  do 4 (try destruct p as [p|p|]; try done).
Qed.

Lemma split_once_pretty_N_go (x : N) (s : string) :
  split_once s = None → split_once (pretty_N_go x s) = None.
Proof.
  revert s. induction (N.lt_wf_0 x) as [x _ IH]. intros s Hs.
  destruct (decide (x = 0%N)) as [->|Hx]; [by rewrite pretty_N_go_0|].
  rewrite pretty_N_go_step by lia. apply IH.
  - apply N.div_lt; lia.
  - cbn. by rewrite pretty_N_char_not_underscore, Hs.
Qed.

Lemma split_once_pretty_N (x : N) : split_once (pretty x) = None.
Proof.
  unfold pretty, pretty_N. destruct (decide (x = 0%N)); [done|].
  by apply split_once_pretty_N_go.
Qed.

Lemma split_once_pretty_Z (x : Z) : split_once (pretty x) = None.
Proof.
  destruct x as [|p|p]; [done| |].
  - apply (split_once_pretty_N (Npos p)).
  - pose proof (split_once_pretty_N (Npos p)) as Hp.
    change (split_once (String (Ascii.ascii_of_nat 45) (pretty (Npos p))) = None).
    cbn [split_once]. by rewrite Hp.
Qed.

Lemma arg_key_inj arg i arg' i' :
  arg_key arg i = arg_key arg' i' → arg = arg' ∧ i = i'.
Proof.
  unfold arg_key. intros Heq. cbn in Heq. simplify_eq.
  assert (Some (pretty arg, pretty i) = Some (pretty arg', pretty i')) as Hsplit.
  { rewrite <- (split_once_app (pretty arg) (pretty i)) by apply split_once_pretty_Z.
    rewrite <- (split_once_app (pretty arg') (pretty i')) by apply split_once_pretty_Z.
    by f_equal. }
  injection Hsplit as Ha Hi.
  split; [by apply pretty_Z_inj|by apply pretty_nat_inj].
Qed.

Section action_space_items.
Context {Sim : Type} (self : Sc2 Sim).

Lemma arg_space_items_keys arg (sizes : list Z) :
  (arg_space_items arg sizes).*1 = arg_key arg <$> seq 0 (length sizes).
Proof.
  unfold arg_space_items. apply list_eq. intros i.
  rewrite list_lookup_fmap, list_lookup_imap, list_lookup_fmap.
  destruct (sizes !! i) as [size|] eqn:Hi; cbn.
  - rewrite lookup_seq_lt; [done|]. by eapply lookup_lt_Some.
  - rewrite lookup_seq_ge; [done|]. by apply lookup_ge_None.
Qed.

Lemma action_space_dims_fold arg (keys : list string) (pairs : list (nat * Z))
    (acc : dict string space) :
  Forall (λ p, keys !! p.1 = Some (arg_key arg p.1)) pairs →
  foldl (λ acc' i_size,
     rbind acc' (λ action_args',
     rbind (from_option IndexError (keys !! i_size.1)) (λ k,
     inr (dict_set k (Discrete i_size.2) action_args'))))
    (inr acc) pairs =
  inr (dict_update acc ((λ p, (arg_key arg p.1, Discrete p.2)) <$> pairs)).
Proof.
  intros Hall. revert acc. induction Hall as [|p pairs Hp _ IH]; intros acc; [done|].
  cbn [foldl rbind]. rewrite Hp. cbn [from_option rbind]. by rewrite IH.
Qed.

Lemma imap_pair_items arg (sizes : list Z) :
  (λ p : nat * Z, (arg_key arg p.1, Discrete p.2)) <$> imap pair sizes =
  arg_space_items arg sizes.
Proof.
  unfold arg_space_items. apply list_eq. intros i.
  rewrite list_lookup_fmap, !list_lookup_imap. by destruct (sizes !! i).
Qed.

Lemma dict_update_app {K V} `{EqDecision K} (d : dict K V) items items' :
  dict_update d (items ++ items') = dict_update (dict_update d items) items'.
Proof. unfold dict_update. apply foldl_app. Qed.

Lemma action_space_args_fold (args : list Z) (acc : dict string space) :
  Forall (λ arg, is_Some (dict_get arg (args_size_lookup self))) args →
  foldl (λ acc arg,
     rbind acc (λ action_args,
     rbind (_get_arg_keys self arg) (λ arg_keys,
     rbind (from_option (KeyError (key_of_Z arg))
              (dict_get arg (args_size_lookup self))) (λ sizes,
     foldl (λ acc' i_size,
        rbind acc' (λ action_args',
        rbind (from_option IndexError (arg_keys !! i_size.1)) (λ k,
        inr (dict_set k (Discrete i_size.2) action_args'))))
       (inr action_args) (imap pair sizes)))))
    (inr acc) args =
  inr (dict_update acc (args ≫= λ arg, arg_space_items arg (arg_sizes self arg))).
Proof.
  intros Hall. revert acc.
  induction Hall as [|arg args [sizes Hs] _ IH]; intros acc; [done|].
  cbn [foldl rbind]. rewrite (get_arg_keys_present self arg sizes Hs).
  cbn [rbind]. rewrite Hs. cbn [from_option rbind].
  rewrite (action_space_dims_fold arg).
  - rewrite IH, imap_pair_items. cbn [mbind list_bind]. rewrite dict_update_app.
    unfold arg_sizes. by rewrite Hs.
  - apply Forall_forall. intros [i size] Hin. cbn.
    apply list_elem_of_lookup in Hin as [j Hj].
    rewrite list_lookup_imap in Hj.
    destruct (sizes !! j) as [s|] eqn:Hsj; [|done]. cbn in Hj. injection Hj as <- <-.
    by rewrite list_lookup_imap, Hsj.
Qed.

Lemma bind_keys_entries {V B} (d : dict Z V) (g : Z → list B) (g' : Z * V → list B) :
  (∀ entry, entry ∈ d → g entry.1 = g' entry) →
  d.*1 ≫= g = d ≫= g'.
Proof.
  induction d as [|entry d IH]; intros Hg; [done|].
  cbn. rewrite (Hg entry) by left. f_equal. apply IH.
  intros e He. apply Hg. by right.
Qed.

Lemma action_space_items_keys :
  (action_space_items self).*1 =
  "action_id" ::
  ((λ p : Z * nat, arg_key p.1 p.2)
     <$> (args_size_lookup self ≫= λ entry,
            pair entry.1 <$> seq 0 (length entry.2))).
Proof.
  unfold action_space_items. rewrite fmap_cons. f_equal.
  induction (args_size_lookup self) as [|[arg sizes] d IH]; [done|].
  rewrite !bind_cons, !fmap_app, IH. cbn [fst snd].
  by rewrite arg_space_items_keys, <- list_fmap_compose.
Qed.

Lemma action_space_items_NoDup :
  NoDup (dict_keys (args_size_lookup self)) →
  NoDup (action_space_items self).*1.
Proof.
  intros Hnd. rewrite action_space_items_keys. apply NoDup_cons. split.
  - intros Hin. apply list_elem_of_fmap in Hin as ([arg i] & Heq & _).
    by apply (arg_key_not_action_id arg i).
  - apply NoDup_fmap_2_strong.
    { intros [a i] [a' i'] _ _ Heq. cbn in Heq.
      apply arg_key_inj in Heq as [-> ->]. done. }
    apply NoDup_bind.
    + intros [a sizes] [a' sizes'] [b j] Hin Hin' Hy Hy'. cbn in Hy, Hy'.
      apply list_elem_of_fmap in Hy as (? & [= -> ->] & _).
      apply list_elem_of_fmap in Hy' as (? & [= -> _] & _).
      f_equal.
      apply (dict_get_NoDup _ _ _ Hnd) in Hin, Hin'. congruence.
    + intros [a sizes] _. cbn. apply NoDup_fmap_2; [|apply NoDup_seq].
      by intros i j [= ->].
    + by apply NoDup_fmap_1 with (f := fst).
Qed.
End action_space_items.

(** X5: the keys ['arg_{arg_id}_{i}'] determine the argument type and the
    dimension, so no two argument dimensions share an entry: when the size
    lookup has one entry per argument type, [Sc2.action_space] is exactly
    'action_id' (as many values as enumerated actions) followed by one
    [Discrete(size)] per dimension of every argument type, in the order of
    the lookup, all under distinct keys. *)
Theorem Sc2_action_space_entries {Sim} (self : Sc2 Sim) :
  NoDup (dict_keys (args_size_lookup self)) →
  Sc2_action_space self =
    inr {| is_gym_dict := false; space_items := action_space_items self |}
  ∧ NoDup (dict_keys (action_space_items self))
  ∧ (∀ arg i arg' i', arg_key arg i = arg_key arg' i' → arg = arg' ∧ i = i')
  ∧ ∀ arg sizes i size,
      dict_get arg (args_size_lookup self) = Some sizes →
      sizes !! i = Some size →
      dict_get (arg_key arg i) (action_space_items self) = Some (Discrete size).
Proof.
  intros Hnd. pose proof (action_space_items_NoDup self Hnd) as Hkeys.
  split; [|split; [exact Hkeys|split; [apply arg_key_inj|]]].
  - unfold Sc2_action_space. rewrite action_space_args_fold.
    + cbn [rbind]. do 2 f_equal. unfold dict_keys.
      rewrite (bind_keys_entries _ _
                 (λ entry, arg_space_items entry.1 entry.2)).
      * rewrite dict_update_fresh; [done|]. exact Hkeys.
      * intros [arg sizes] Hin. cbn. unfold arg_sizes.
        by rewrite (dict_get_NoDup _ _ _ Hnd Hin).
    + apply Forall_forall. intros arg Hin. by apply dict_get_is_Some.
  - intros arg sizes i size Hget Hi. apply dict_get_NoDup; [exact Hkeys|].
    unfold action_space_items. right. apply list_elem_of_bind.
    exists (arg, sizes). split; [|by apply dict_get_elem_of].
    cbn. unfold arg_space_items. apply list_elem_of_lookup. exists i.
    by rewrite list_lookup_imap, Hi.
Qed.

Lemma Sc2_action_space_entries_witness :
  Sc2_action_space (demo_self 2) =
    inr {| is_gym_dict := false;
           space_items :=
             [("action_id", Discrete 2); ("arg_0_0", Discrete 64);
              ("arg_0_1", Discrete 64); ("arg_3_0", Discrete 2);
              ("arg_4_0", Discrete 5); ("arg_5_0", Discrete 10)] |}.
Proof.
  refine (proj1 (Sc2_action_space_entries (demo_self 2) _)). by_evaluation.
Defined.

(** *** What [Sc2.step] and [Sc2.reset] return, and when they refuse *)

Lemma mapR_inl {A B} (f : A → result B) (l : list A) e :
  mapR f l = inl e → ∃ x, x ∈ l ∧ f x = inl e.
Proof.
  induction l as [|x l IH]; [done|]. cbn [mapR].
  destruct (f x) as [e'|y] eqn:Hx; cbn [rbind].
  - intros [= <-]. exists x. split; [left|done].
  - destruct (mapR f l) as [e'|ys]; cbn [rbind]; [|done].
    intros [= <-]. destruct (IH eq_refl) as (x' & Hin & Hf).
    exists x'. split; [by right|done].
Qed.

Lemma zeros_with_ones_length n indices v :
  zeros_with_ones n indices = inr v → length v = n.
Proof.
  unfold zeros_with_ones.
  assert (∀ acc : result (list Z),
    (∀ a, acc = inr a → length a = n) →
    foldl (λ acc i,
       rbind acc (λ a, rbind (norm_index n i) (λ j, inr (<[j := 1]> a))))
      acc indices = inr v → length v = n) as Hfold.
  { induction indices as [|i indices IH]; intros acc Hacc; cbn [foldl].
    - apply Hacc.
    - apply IH. intros a Ha. destruct acc as [e|a0]; [done|]. cbn in Ha.
      destruct (norm_index n i) as [e|j]; [done|]. cbn in Ha.
      injection Ha as <-. rewrite length_insert. by apply Hacc. }
  apply Hfold. intros a [= <-]. apply length_replicate.
Qed.

Lemma collect_sc_observation_layout {Sim} (lib : Pysc2) (self : Sc2 Sim) timestep v :
  collect_sc_observation lib self timestep = inr v → sc2_observation self v.
Proof.
  unfold collect_sc_observation. intros Hc.
  apply rbind_inr in Hc as (avail & Havail & Hc).
  apply rbind_inr in Hc as (screen & _ & Hc).
  apply rbind_inr in Hc as (mini & _ & Hc).
  apply rbind_inr in Hc as (player_feat & _ & Hc).
  apply rbind_inr in Hc as ([units count] & Hunits & Hc).
  injection Hc as <-. exists avail, screen, mini, player_feat, units, count.
  split; [done|]. split.
  - unfold collect_available_actions in Havail.
    apply rbind_inr in Havail as (indices & _ & Hz).
    by apply zeros_with_ones_length in Hz.
  - apply collect_units_padded in Hunits as (out & _ & Hle & _ & Hlen & ->).
    split; [done|]. lia.
Qed.

(** X6: every observation [Sc2.reset] and [Sc2.step] return is a dict of
    the six entries 'available_actions', 'screen', 'mini', 'player', 'units'
    and 'unit_count', with one slot per enumerated action, exactly
    [unit_max] unit rows and a unit count between 0 and [unit_max]; [step]
    returns it with the simulator's reward as a float, its end-of-episode
    flag and an empty info dict. The observation has no 'image' entry, the
    only key [Sc2.observation_space] advertises. *)
Theorem Sc2_observation_layout {Sim} (lib : Pysc2) (sim : SC2Env Sim) (self : Sc2 Sim) :
  (∀ v, outcome (Sc2_reset lib sim) self = inr v →
        sc2_observation self v ∧ getitem v "image" = inl (KeyError "image"))
  ∧ (∀ action v, outcome (Sc2_step lib sim action) self = inr v →
       ∃ obs reward fin,
         v = VTuple [obs; VFloat (Finite (inject_Z reward)); VBool fin; VDict []]
         ∧ sc2_observation self obs
         ∧ getitem obs "image" = inl (KeyError "image"))
  ∧ ∃ sp, Sc2_observation_space self = inr sp
          ∧ dict_keys (space_items sp) = ["image"].
Proof.
  assert (∀ v, sc2_observation self v → getitem v "image" = inl (KeyError "image"))
    as Himage.
  { intros v (? & ? & ? & ? & ? & ? & -> & _). reflexivity. }
  split; [|split].
  - intros v. unfold outcome, Sc2_reset. run_method. unfold sc2_call.
    destruct (sc2_reset sim (sc2_env self)) as [[e|timestep] env']; [done|]. cbn.
    destruct (collect_sc_observation lib self timestep) as [e|obs] eqn:Hc; [done|].
    cbn. intros [= <-].
    pose proof (collect_sc_observation_layout _ _ _ _ Hc) as Hobs. by split; [|apply Himage].
  - intros action v. unfold outcome, Sc2_step. run_method.
    destruct (rebuild_action sim self action) as [e|call]; [done|]. cbn.
    unfold sc2_call.
    destruct (sc2_step sim call (sc2_env self)) as [[e|timestep] env']; [done|]. cbn.
    destruct (collect_sc_observation lib self timestep) as [e|obs] eqn:Hc; [done|].
    cbn. intros [= <-].
    pose proof (collect_sc_observation_layout _ _ _ _ Hc) as Hobs.
    exists obs, (sc_reward timestep), (sc_last timestep).
    split; [by destruct (sc_last timestep)|]. by split; [|apply Himage].
  - eexists. split; reflexivity.
Qed.

Lemma Sc2_observation_layout_witness :
  ∃ v, outcome (Sc2_reset demo_lib demo_sim) (demo_self 5) = inr v
       ∧ sc2_observation (demo_self 5) v.
Proof.
  eexists. split; [reflexivity|].
  refine (proj1 (proj1 (Sc2_observation_layout demo_lib demo_sim (demo_self 5)) _ _)).
  reflexivity.
Defined.

Section step_refuses.
Context {Sim : Type} (lib : Pysc2) (sim : SC2Env Sim) (self : Sc2 Sim).

Lemma Sc2_step_not_rebuilt action e :
  rebuild_action sim self action = inl e →
  Sc2_step lib sim action self = ([], self, inl e).
Proof. intros He. unfold Sc2_step. run_method. by rewrite He. Qed.

Lemma rebuild_action_missing_key (items : dict string value) a fid f e :
  dict_get "action_id" items = Some (VInt a) →
  dict_get a (action_id_lookup self) = Some fid →
  sc2_functions sim fid = Some f →
  args_known self f →
  rebuild_action sim self (VDict items) = inl e →
  ∃ r k, r ∈ fn_args f ∧ k ∈ expected_arg_keys self (arg_id r)
         ∧ dict_get k items = None ∧ e = KeyError k.
Proof.
  intros Hid Ha Hf Hknown. unfold rebuild_action, functions_getitem.
  cbn [getitem]. rewrite Hid. cbn [from_option rbind]. rewrite Ha.
  cbn [from_option rbind]. rewrite Hf. cbn [from_option rbind].
  destruct (mapR _ (fn_args f)) as [e'|args] eqn:Hm; [|done].
  cbn [rbind]. intros [= <-].
  apply mapR_inl in Hm as (r & Hr & Hm).
  rewrite get_arg_keys_expected in Hm.
  2:{ unfold args_known in Hknown. rewrite Forall_forall in Hknown. by apply Hknown. }
  cbn [rbind] in Hm. apply mapR_inl in Hm as (k & Hk & Hget).
  exists r, k. split; [done|]. split; [done|].
  destruct (dict_get k items); [done|]. split; [done|]. by injection Hget as <-.
Qed.
End step_refuses.

(** X7: [Sc2.step] rebuilds the pysc2 call before it touches the simulator.
    An action without 'action_id', an action index that is not embedded,
    and a missing key of a required argument each raise the KeyError of the
    missing key; then no call is made and the adapter, with its simulator,
    is left as it was. *)
Theorem Sc2_step_refuses_before_simulator {Sim} (lib : Pysc2) (sim : SC2Env Sim)
    (self : Sc2 Sim) (items : dict string value) :
  (dict_get "action_id" items = None →
   Sc2_step lib sim (VDict items) self = ([], self, inl (KeyError "action_id")))
  ∧ (∀ a, dict_get "action_id" items = Some (VInt a) →
          dict_get a (action_id_lookup self) = None →
          Sc2_step lib sim (VDict items) self = ([], self, inl (KeyError (key_of_Z a))))
  ∧ (∀ a fid f r k,
       dict_get "action_id" items = Some (VInt a) →
       dict_get a (action_id_lookup self) = Some fid →
       sc2_functions sim fid = Some f →
       args_known self f →
       r ∈ fn_args f → k ∈ expected_arg_keys self (arg_id r) →
       dict_get k items = None →
       ∃ r' k', r' ∈ fn_args f ∧ k' ∈ expected_arg_keys self (arg_id r')
                ∧ dict_get k' items = None
                ∧ Sc2_step lib sim (VDict items) self = ([], self, inl (KeyError k'))).
Proof.
  split; [|split].
  - intros Hnone. apply Sc2_step_not_rebuilt. unfold rebuild_action.
    cbn [getitem]. by rewrite Hnone.
  - intros a Hid Hnone. apply Sc2_step_not_rebuilt. unfold rebuild_action.
    cbn [getitem]. rewrite Hid. cbn [from_option rbind]. by rewrite Hnone.
  - intros a fid f r k Hid Ha Hf Hknown Hr Hk Hnone.
    destruct (rebuild_action sim self (VDict items)) as [e|call] eqn:Hcall.
    + destruct (rebuild_action_missing_key sim self items a fid f e
                  Hid Ha Hf Hknown Hcall) as (r' & k' & Hr' & Hk' & Hnone' & ->).
      exists r', k'. repeat (split; [done|]). by apply Sc2_step_not_rebuilt.
    + exfalso. revert Hcall. unfold rebuild_action, functions_getitem.
      cbn [getitem]. rewrite Hid. cbn [from_option rbind]. rewrite Ha.
      cbn [from_option rbind]. rewrite Hf. cbn [from_option rbind].
      destruct (mapR _ (fn_args f)) as [e'|args] eqn:Hm; [done|]. intros _.
      apply mapR_inr in Hm.
      destruct (Forall2_elem_of_l _ _ _ _ Hm Hr) as (vs & _ & Hvs).
      rewrite get_arg_keys_expected in Hvs.
      2:{ unfold args_known in Hknown. rewrite Forall_forall in Hknown.
          by apply Hknown. }
      cbn [rbind] in Hvs. apply mapR_inr in Hvs.
      destruct (Forall2_elem_of_l _ _ _ _ Hvs Hk) as (x & _ & Hx).
      cbn [getitem] in Hx. by rewrite Hnone in Hx.
Qed.

Lemma Sc2_step_refuses_before_simulator_witness :
  Sc2_step demo_lib demo_sim (VDict [("action_id", VInt 5)]) (demo_self 2)
  = ([], demo_self 2, inl (KeyError "5")).
Proof.
  refine (proj1 (proj2 (Sc2_step_refuses_before_simulator demo_lib demo_sim
    (demo_self 2) [("action_id", VInt 5)])) 5 _ _); reflexivity.
Defined.

(** ** The dm_control adapter *)

Lemma count_calls_app target tr tr' :
  count_calls target (tr ++ tr') =
  (count_calls target tr + count_calls target tr')%nat.
Proof. unfold count_calls. by rewrite List.filter_app, length_app. Qed.

Lemma count_calls_replicate target k :
  count_calls target (replicate k (Call target)) = k.
Proof.
  unfold count_calls. induction k as [|k IH]; [done|].
  cbn. rewrite String.eqb_refl. cbn. by rewrite IH.
Qed.

Lemma count_calls_replicate_ne target other k :
  other ≠ target → count_calls target (replicate k (Call other)) = 0%nat.
Proof.
  intros Hne. unfold count_calls. induction k as [|k IH]; [done|].
  cbn. by rewrite (proj2 (String.eqb_neq other target) Hne).
Qed.

Lemma forallb_Forall_true {A} (f : A → bool) (l : list A) :
  forallb f l = true ↔ Forall (λ x, f x = true) l.
Proof.
  induction l as [|x l IH]; cbn; [by split|].
  rewrite andb_true_iff, IH, Forall_cons. done.
Qed.

Section dmc_facts.
Context {Sim : Type} (sim : DMControl Sim).

(** The loop of [step] calls the simulator at most [n] times, at least once
    when [n] is positive, and fewer than [n] times only after a time step
    that ended the episode. *)
Lemma DMC_repeat_calls n action reward ts self :
  ∃ k, (DMC_repeat sim n action reward ts self).1.1 = replicate k (Call "dm_env.step")
       ∧ (k ≤ n)%nat
       ∧ ∀ r last, (DMC_repeat sim n action reward ts self).2 = inr (r, last) →
           (n = 0%nat ∧ last = ts)
           ∨ (∃ t, last = Some t ∧ (1 ≤ k)%nat ∧ ((k < n)%nat → dm_last t = true)).
Proof.
  revert reward ts self. induction n as [|n IH]; intros reward ts self.
  - exists 0%nat. split; [done|]. split; [done|].
    intros r last [= <- <-]. by left.
  - cbn [DMC_repeat]. unfold bind, dmc_call.
    destruct (dm_step sim action (dmc_env self)) as [[e|t] env'].
    + exists 1%nat. split; [done|]. split; [lia|]. intros r last. done.
    + destruct (dm_last t) eqn:Hlast.
      * exists 1%nat. cbn. split; [done|]. split; [lia|].
        intros r last [= <- <-]. right. exists t. split; [done|]. split; [lia|done].
      * match goal with
        | |- context [DMC_repeat sim n action ?r' ?ts' ?s'] =>
            destruct (IH r' ts' s') as (k & Htr & Hk & Hres);
            destruct (DMC_repeat sim n action r' ts' s') as [[tr s''] res]
        end.
        cbn in Htr, Hres. exists (S k). cbn. split; [by rewrite Htr|].
        split; [lia|]. intros r last Hr. right.
        destruct (Hres r last Hr) as [[-> ->]|(t' & -> & Hk1 & Hlt)].
        -- exists t. split; [done|]. split; [lia|]. lia.
        -- exists t'. split; [done|]. split; [lia|]. intros Hlt'. apply Hlt. lia.
Qed.

End dmc_facts.

(** X8: [DMC.step] checks the action before it steps the simulator: a
    missing 'action' entry raises KeyError and an action with an infinite or
    nan component fails the assertion; with [action_repeat <= 0] the loop
    body never runs and reading [time_step] raises UnboundLocalError. In all
    three cases the simulator is not called and the adapter is unchanged. *)
Theorem DMC_step_guards {Sim} (sim : DMControl Sim) (self : DMC Sim)
    (items : dict string value) :
  (dict_get "action" items = None →
   DMC_step sim (VDict items) self = ([], self, inl (KeyError "action")))
  ∧ (∀ a, dict_get "action" items = Some (VArray a) →
          Exists (λ x, isfinite x = false) a →
          DMC_step sim (VDict items) self =
            ([], self, inl (AssertionError "action is not finite")))
  ∧ (∀ a, dict_get "action" items = Some (VArray a) →
          Forall (λ x, isfinite x = true) a →
          dmc_action_repeat self ≤ 0 →
          DMC_step sim (VDict items) self =
            ([], self, inl (UnboundLocalError "time_step"))).
Proof.
  split; [|split].
  - intros Hnone. unfold DMC_step. run_method. by rewrite Hnone.
  - intros a Ha Hex. unfold DMC_step. run_method. rewrite Ha. cbn.
    assert (forallb isfinite a = false) as ->; [|done].
    apply not_true_is_false. intros Hall. apply forallb_Forall_true in Hall.
    apply Exists_exists in Hex as (x & Hin & Hx).
    rewrite Forall_forall in Hall. specialize (Hall x Hin). congruence.
  - intros a Ha Hall Hrep. unfold DMC_step. run_method. rewrite Ha. cbn.
    assert (forallb isfinite a = true) as ->.
    { by apply forallb_Forall_true. }
    cbn. replace (Z.to_nat (dmc_action_repeat self)) with 0%nat by lia. done.
Qed.

Lemma DMC_step_guards_witness :
  let self := {| dmc_env := 0%nat; dmc_action_repeat := 0; dmc_size := (64, 64)%nat;
                 dmc_camera := 0 |} in
  DMC_step demo_dm (VDict [("action", VArray [Finite 0; PosInf])]) self =
    ([], self, inl (AssertionError "action is not finite"))
  ∧ DMC_step demo_dm (VDict [("action", VArray [Finite 0])]) self =
    ([], self, inl (UnboundLocalError "time_step")).
Proof.
  intros self. split.
  - refine (proj1 (proj2 (DMC_step_guards demo_dm self
              [("action", VArray [Finite 0; PosInf])])) _ eq_refl _).
    right. left. reflexivity.
  - refine (proj2 (proj2 (DMC_step_guards demo_dm self
              [("action", VArray [Finite 0])])) _ eq_refl _ _).
    + by repeat constructor.
    + cbn. lia.
Defined.



Lemma dict_set_keys_congr {K V W} `{EqDecision K} (k : K) (v : V) (w : W)
    (d : dict K V) (d' : dict K W) :
  d.*1 = d'.*1 → (dict_set k v d).*1 = (dict_set k w d').*1.
Proof.
  revert d'. induction d as [|[k1 v1] d IH]; intros [|[k2 w2] d'] Heq;
    try done; cbn in Heq; simplify_eq. cbn.
  destruct (decide (k = k2)); cbn; f_equal; [done|by apply IH].
Qed.



Lemma split_once_Some (s a b : string) :
  split_once s = Some (a, b) → s = a +:+ "_" +:+ b ∧ split_once a = None.
Proof.
  revert a. induction s as [|c s IH]; intros a; [done|]. cbn [split_once].
  destruct (Ascii.eqb c (Ascii.ascii_of_nat 95)) eqn:Hc.
  - intros [= <- <-]. apply Ascii.eqb_eq in Hc as ->. done.
  - destruct (split_once s) as [[a' b']|]; [|done]. intros [= <- <-].
    destruct (IH a' eq_refl) as [-> Ha]. split; [done|].
    cbn [split_once]. by rewrite Hc, Ha.
Qed.

(** X11: [DMC.__init__] splits the name at its first underscore. A name
    without underscore raises ValueError before any task is loaded; a name
    [domain_task] whose domain has no underscore loads [task] of [domain],
    or of 'ball_in_cup' for the domain 'cup', and the camera defaults to 2
    for 'quadruped' and to 0 otherwise. Conversely, whatever [__init__]
    splits decomposes the name in this way. *)
Theorem DMC_init_name {Sim} (sim : DMControl Sim) (name : string) (action_repeat : Z)
    (size : nat * nat) (camera : option Z) :
  (split_once name = None →
   DMC_init sim name action_repeat size camera =
     ([Call "os.environ.__setitem__"], inl (ValueError "not enough values to unpack")))
  ∧ (∀ domain task env,
       split_once domain = None →
       name = domain +:+ "_" +:+ task →
       suite_load sim (if String.eqb domain "cup" then "ball_in_cup" else domain) task
         = inr env →
       DMC_init sim name action_repeat size camera =
         ([Call "os.environ.__setitem__"; Call "dm_control.suite.load"],
          inr {| dmc_env := env; dmc_action_repeat := action_repeat;
                 dmc_size := size;
                 dmc_camera :=
                   match camera with
                   | Some c => c
                   | None => if String.eqb domain "quadruped" then 2 else 0
                   end |}))
  ∧ (∀ domain task,
       split_once name = Some (domain, task) →
       name = domain +:+ "_" +:+ task ∧ split_once domain = None).
Proof.
  split; [|split].
  - intros Hnone. unfold DMC_init. by rewrite Hnone.
  - intros domain task env Hdomain -> Hload. unfold DMC_init.
    rewrite (split_once_app domain task Hdomain). cbn [app]. rewrite Hload.
    cbn [rbind]. do 3 f_equal. destruct camera as [c|]; [done|].
    destruct (String.eqb domain "cup") eqn:Hcup; [|done].
    apply String.eqb_eq in Hcup as ->. done.
  - intros domain task. apply split_once_Some.
Qed.

Lemma DMC_init_name_witness :
  DMC_init demo_dm "quadruped_walk" 2 (64, 64)%nat None =
    ([Call "os.environ.__setitem__"; Call "dm_control.suite.load"],
     inr {| dmc_env := 0%nat; dmc_action_repeat := 2; dmc_size := (64, 64)%nat;
            dmc_camera := 2 |})
  ∧ DMC_init demo_dm "walker" 2 (64, 64)%nat None =
    ([Call "os.environ.__setitem__"], inl (ValueError "not enough values to unpack")).
Proof.
  split.
  - refine (proj1 (proj2 (DMC_init_name demo_dm "quadruped_walk" 2 (64, 64)%nat None))
              "quadruped" "walk" 0%nat _ _ _); reflexivity.
  - refine (proj1 (DMC_init_name demo_dm "walker" 2 (64, 64)%nat None) _). reflexivity.
Defined.

(** ** The Atari adapter *)

(** X12: [Atari.__init__] asserts a square size before anything else: with
    a non-square size it raises AssertionError without taking the lock or
    creating an emulator. With a square size the emulator is created under
    the lock, for the game 'jamesbond' when the name is 'james_bond', with
    sticky-action probability 0.25 or 0; if the constructor raises, the lock
    has been released and nothing else is called. *)
Theorem Atari_init_guards {Sim} (gym : AtariGym Sim) (name : string)
    (action_repeat : Z) (size : Z * Z) (grayscale : bool) (noops : Z)
    (life_done sticky_actions all_actions : bool) :
  let init := Atari_init gym name action_repeat size grayscale noops life_done
                sticky_actions all_actions in
  let game := if String.eqb name "james_bond" then "jamesbond" else name in
  let created := AtariEnv gym game (if sticky_actions then 1 # 4 else 0)%Q all_actions in
  (size.1 ≠ size.2 → init = ([], inl (AssertionError "")))
  ∧ (size.1 = size.2 → ∀ e, created = inl e →
       init = ([Acquire LOCK; Call "gym.envs.atari.AtariEnv"; Release LOCK], inl e))
  ∧ (size.1 = size.2 → ∀ env, created = inr env →
       init.1 = [Acquire LOCK; Call "gym.envs.atari.AtariEnv"; Release LOCK;
                 Call "gym.envs.registration.EnvSpec"; Call "get_action_meanings";
                 Call "gym.wrappers.AtariPreprocessing"]
       ∧ ∀ self, init.2 = inr self →
           atari_grayscale self = grayscale
           ∧ AtariPreprocessing gym (configure_spec gym env) noops action_repeat
               size.1 life_done grayscale = inr (atari_env self)).
Proof.
  cbv zeta. unfold Atari_init. split; [|split].
  - intros Hne. apply Z.eqb_neq in Hne. by rewrite Hne.
  - intros Heq e He. apply Z.eqb_eq in Heq. rewrite Heq. cbn [negb].
    by rewrite He.
  - intros Heq env He. apply Z.eqb_eq in Heq. rewrite Heq. cbn [negb].
    rewrite He. cbn [fst snd]. split; [done|]. intros self.
    destruct (AtariPreprocessing gym _ _ _ _ _ _) as [e|env']; [done|].
    cbn. by intros [= <-].
Qed.

Lemma Atari_init_guards_witness :
  Atari_init demo_gym "pong" 4 (84, 64) true 30 false true false =
    ([], inl (AssertionError "")).
Proof.
  refine (proj1 (Atari_init_guards demo_gym "pong" 4 (84, 64) true 30 false true false)
            _).
  cbn. lia.
Defined.

(** X13: [Atari.step] forwards [action['action']] to the emulator once,
    without the lock, and passes reward, done and info through unchanged;
    [Atari.reset] resets it once under the lock. Both return the
    observation {image, ram}: the frame gets a trailing axis of length one
    exactly when the adapter is in grayscale mode, and the ram is read after
    the emulator has advanced. *)
Theorem Atari_step_reset_observation {Sim} (gym : AtariGym Sim) (self : Atari Sim)
    (shape : list nat) (pixels : nat) (env' : Sim) :
  let self' := {| atari_env := env'; atari_grayscale := atari_grayscale self |} in
  let obs :=
    VDict [("image", VImage (if atari_grayscale self then shape ++ [1%nat] else shape)
                       pixels);
           ("ram", gym_get_ram gym env')] in
  (∀ items a reward fin info,
     dict_get "action" items = Some a →
     gym_step gym a (atari_env self)
       = (inr (VTuple [VImage shape pixels; reward; fin; info]), env') →
     Atari_step gym (VDict items) self =
       ([Call "env.step"], self', inr (VTuple [obs; reward; fin; info])))
  ∧ (gym_reset gym (atari_env self) = (inr (VImage shape pixels), env') →
     Atari_reset gym self =
       ([Acquire LOCK; Call "env.reset"; Release LOCK], self', inr obs)).
Proof.
  cbv zeta. split.
  - intros items a reward fin info Ha Hstep.
    unfold Atari_step, Atari_observe, atari_call. run_method.
    rewrite Ha. cbn. rewrite Hstep. cbn. by destruct (atari_grayscale self).
  - intros Hreset.
    unfold Atari_reset, Atari_observe, with_lock, atari_call. run_method.
    rewrite Hreset. cbn. by destruct (atari_grayscale self).
Qed.

Lemma Atari_step_reset_observation_witness :
  Atari_step demo_gym (VDict [("action", VInt 3)])
    {| atari_env := 4%nat; atari_grayscale := true |} =
  ([Call "env.step"], {| atari_env := 5%nat; atari_grayscale := true |},
   inr (VTuple [VDict [("image", VImage [84; 84; 1]%nat 5);
                       ("ram", VIntArray [5])];
                VFloat (Finite 0); VBool false; VDict []])).
Proof.
  refine (proj1 (Atari_step_reset_observation demo_gym
            {| atari_env := 4%nat; atari_grayscale := true |} [84; 84]%nat 5 5%nat)
            [("action", VInt 3)] (VInt 3) _ _ _ _ _); reflexivity.
Defined.

(** ** [TimeLimit]: whole episodes *)

Lemma run_steps_cons (E : Env) action rest s :
  run_steps E (action :: rest) s =
  match step E action s with
  | (tr, s', inl e) => (tr, s', inl e)
  | (tr, s', inr res) =>
      match run_steps E rest s' with
      | (tr', s'', inl e) => (tr ++ tr', s'', inl e)
      | (tr', s'', inr results) => (tr ++ tr', s'', inr (res :: results))
      end
  end.
Proof.
  cbn [run_steps]. unfold bind, ret.
  destruct (step E action s) as [[tr s'] [e|res]]; [done|].
  destruct (run_steps E rest s') as [[tr' s''] [e|results]]; [done|].
  by rewrite app_nil_r.
Qed.

Lemma time_limit_episode_from (E : Env) (duration : Z) (actions : list value) :
  always_steps E →
  actions ≠ [] →
  ∀ (n : Z) (env : St E),
    0 ≤ n → n + Z.of_nat (length actions) = duration →
    ∃ tr env' results last last',
      run_steps (TimeLimit_env E) actions
        (env, {| tl_duration := duration; tl_step := Some n |}) =
        (tr, (env', {| tl_duration := duration; tl_step := None |}),
         inr (results ++ [last]))
      ∧ run_steps E actions env = (tr, env', inr (results ++ [last']))
      ∧ ∃ obs reward fin info,
          last' = VTuple [obs; reward; fin; VDict info]
          ∧ last = VTuple [obs; reward; VBool true;
                           VDict (if dict_mem "discount" info then info
                                  else dict_set "discount" (VFloat (Finite 1)) info)].
Proof.
  intros HE. induction actions as [|action rest IH]; [done|]. intros _ n env Hn Hlen.
  destruct (HE action env) as (tr & env1 & obs & reward & fin & info & Hstep).
  pose proof (TimeLimit_step_returns E env duration n action _ _ _ _ _ _ Hstep) as Htl.
  rewrite !run_steps_cons. cbn [step TimeLimit_env]. rewrite Htl, Hstep.
  destruct rest as [|action' rest'].
  - cbn in Hlen. destruct (duration <=? n + 1) eqn:Hle; [|apply Z.leb_gt in Hle; lia].
    cbn [run_steps]. unfold ret. eexists (tr ++ []), env1, [], _, _.
    split; [reflexivity|]. split; [reflexivity|]. by exists obs, reward, fin, info.
  - cbn [length] in Hlen.
    destruct (duration <=? n + 1) eqn:Hle; [apply Z.leb_le in Hle; lia|].
    destruct (IH ltac:(done) (n + 1) env1 ltac:(lia) ltac:(cbn [length]; lia))
      as (tr' & env' & results & last & last' & Hrun & Hinner & Hlast).
    rewrite Hrun, Hinner.
    exists (tr ++ tr'), env', (VTuple [obs; reward; fin; VDict info] :: results),
      last, last'.
    split; [done|]. split; [done|]. exact Hlast.
Qed.

(** X14: over an environment whose steps always return, an episode of
    [TimeLimit] lasts exactly [duration] steps. Stepping [duration] times
    after a reset returns every result of the wrapped environment unchanged
    except the last, which has [done = True] and an [info] with a
    'discount'; the wrapped environment sees exactly those steps; the
    counter is cleared, so that one more step fails the assertion without
    reaching the wrapped environment. *)
Theorem time_limit_episode (E : Env) (duration : Z) (actions : list value)
    (env : St E) (c : option Z) :
  always_steps E →
  0 < duration →
  Z.of_nat (length actions) = duration →
  ∃ tr0 env0 r0 tr env' results last last',
    TimeLimit_reset E (env, {| tl_duration := duration; tl_step := c |}) =
      (tr0, (env0, {| tl_duration := duration; tl_step := Some 0 |}), r0)
    ∧ reset E env = (tr0, env0, r0)
    ∧ run_steps (TimeLimit_env E) actions
        (env0, {| tl_duration := duration; tl_step := Some 0 |}) =
        (tr, (env', {| tl_duration := duration; tl_step := None |}),
         inr (results ++ [last]))
    ∧ run_steps E actions env0 = (tr, env', inr (results ++ [last']))
    ∧ (∃ obs reward fin info info',
         last' = VTuple [obs; reward; fin; VDict info]
         ∧ last = VTuple [obs; reward; VBool true; VDict info']
         ∧ is_Some (dict_get "discount" info'))
    ∧ ∀ action,
        TimeLimit_step E action (env', {| tl_duration := duration; tl_step := None |}) =
          ([], (env', {| tl_duration := duration; tl_step := None |}),
           inl (AssertionError "Must reset environment.")).
Proof.
  intros HE Hd Hlen.
  destruct (reset E env) as [[tr0 env0] r0] eqn:Hreset.
  assert (actions ≠ []) as Hne by (intros ->; cbn in Hlen; lia).
  destruct (time_limit_episode_from E duration actions HE Hne 0 env0
              ltac:(lia) ltac:(lia))
    as (tr & env' & results & last & last' & Hrun & Hinner & Hlast).
  exists tr0, env0, r0, tr, env', results, last, last'.
  split.
  { unfold TimeLimit_reset. run_method. rewrite Hreset.
    destruct r0; by rewrite ?app_nil_r. }
  split; [done|]. split; [exact Hrun|]. split; [exact Hinner|]. split; [|done].
  destruct Hlast as (obs & reward & fin & info & -> & ->).
  eexists obs, reward, fin, info, _. split; [done|]. split; [done|].
  unfold dict_mem. destruct (dict_get "discount" info) eqn:Hget.
  - by rewrite Hget.
  - by rewrite dict_get_set_eq.
Qed.

Lemma time_limit_episode_witness :
  ∃ tr env' results last,
    run_steps (TimeLimit_env Dummy_env) [VDict []; VDict []; VDict []]
      (tt, {| tl_duration := 3; tl_step := Some 0 |}) =
      (tr, (env', {| tl_duration := 3; tl_step := None |}), inr (results ++ [last]))
    ∧ length results = 2%nat.
Proof.
  destruct (time_limit_episode Dummy_env 3 [VDict []; VDict []; VDict []] tt None)
    as (tr0 & env0 & r0 & tr & env' & results & last & last' & _ & _ & Hrun & Hinner & _).
  - intros action []. by eexists _, _, _, _, _, _.
  - lia.
  - reflexivity.
  - destruct env0. exists tr, env', results, last. split; [exact Hrun|].
    cbn in Hinner. injection Hinner as _ _ Hres.
    assert (length (results ++ [last']) = 3%nat) as Hl by (by rewrite <- Hres).
    rewrite length_app in Hl. cbn in Hl. lia.
Defined.

(** ** [NormalizeAction]: range, identity, and what it cannot wrap *)

Lemma affine_finite (a l h : Q) :
  affine (Finite a) (Finite l) (Finite h) = Finite ((a + 1) / 2 * (h + - l) + l).
Proof. reflexivity. Qed.

Lemma affine_range (a l h : Q) :
  (l <= h)%Q → (-1 <= a <= 1)%Q →
  (l <= (a + 1) / 2 * (h + - l) + l <= h)%Q.
Proof.
  intros H1 [H2 H3].
  assert (0 <= (a + 1) / 2 <= 1)%Q as [Ht0 Ht1].
  { split.
    - apply Qle_shift_div_l; Lqa.lra.
    - apply Qle_shift_div_r; Lqa.lra. }
  set (t := ((a + 1) / 2)%Q) in *.
  assert (0 <= t * (h + - l))%Q as Hp by (apply Qmult_le_0_compat; Lqa.lra).
  assert (t * (h + - l) <= 1 * (h + - l))%Q as Hq
    by (apply Qmult_le_compat_r; Lqa.lra).
  split; Lqa.lra.
Qed.







(** X18: [NormalizeAction.__init__] needs a box under its key: if the
    wrapped action space has no entry for the key it raises KeyError, and if
    the entry is a [Discrete] space, which has no [low], it raises
    AttributeError; this is the case for [NormalizeAction(Atari(...))] when
    the emulator's action space is discrete. Nothing is called meanwhile. *)
Theorem NormalizeAction_init_needs_box (E : Env) (env : St E) (key : string)
    (sp : spaces) :
  action_space E env = inr sp →
  (dict_get key (space_items sp) = None →
   NormalizeAction_init E env key = ([], inl (KeyError key)))
  ∧ (∀ n, dict_get key (space_items sp) = Some (Discrete n) →
          NormalizeAction_init E env key = ([], inl (AttributeError "low")))
  ∧ ∀ Sim (gym : AtariGym Sim) (self : Atari Sim) n,
      gym_action_space gym (atari_env self) = Discrete n →
      NormalizeAction_init (Atari_env gym) self "action" =
        ([], inl (AttributeError "low")).
Proof.
  intros Hsp. split; [|split].
  - intros Hnone. unfold NormalizeAction_init, spaces_get. rewrite Hsp. cbn [rbind].
    by rewrite Hnone.
  - intros n Hd. unfold NormalizeAction_init, spaces_get. rewrite Hsp. cbn [rbind].
    by rewrite Hd.
  - intros Sim gym self n Hd. unfold NormalizeAction_init, spaces_get. cbn.
    by rewrite Hd.
Qed.

Lemma NormalizeAction_init_needs_box_witness :
  NormalizeAction_init (echo_env half_bounded) tt "move" = ([], inl (KeyError "move"))
  ∧ NormalizeAction_init (Atari_env demo_gym)
      {| atari_env := 0%nat; atari_grayscale := true |} "action" =
    ([], inl (AttributeError "low")).
Proof.
  pose proof (NormalizeAction_init_needs_box (echo_env half_bounded) tt "move"
                half_bounded eq_refl) as (Hkey & _ & Hatari).
  split; [by apply Hkey|]. by apply (Hatari nat demo_gym _ 18).
Defined.

(** ** [OneHotAction]: round trip, acceptance, failures, spaces *)

Lemma one_hot_is_one_hot n i : (i < n)%nat → is_one_hot (one_hot n i) i.
Proof.
  intros Hi. split; [by rewrite one_hot_length|]. intros j x Hj.
  assert (j < n)%nat as Hjn.
  { rewrite <- (one_hot_length n i). by eapply lookup_lt_Some. }
  rewrite one_hot_lookup in Hj by done. injection Hj as <-.
  destruct (decide (j = i)); cbn; reflexivity.
Qed.

Lemma OneHotAction_step_decoded (E : Env) (env : St E) (self : OneHotAction)
    (action : value) :
  OneHotAction_step E action (env, self) =
  match one_hot_indices (oh_keys self) action with
  | inl e => ([], (env, self), inl e)
  | inr indices => inner (step E (VDict indices)) (env, self)
  end.
Proof.
  unfold OneHotAction_step, bind, fields, lift_result. cbn [snd].
  destruct (one_hot_indices (oh_keys self) action) as [e|indices]; [done|].
  unfold inner. cbn [fst snd].
  by destruct (step E (VDict indices) env) as [[tr env'] r].
Qed.

(** X19: a one-hot vector is decoded to the index of its one. For every key
    of the action space whose entry is the one-hot vector of an index below
    its length, [OneHotAction.step] forwards exactly that index. *)
Theorem one_hot_round_trip (E : Env) (env : St E) (self : OneHotAction)
    (items : dict string value) (size index : string → nat) :
  (∀ k, k ∈ oh_keys self →
        (index k < size k)%nat
        ∧ dict_get k items = Some (VArray (one_hot (size k) (index k)))) →
  (∀ n i, (i < n)%nat → one_hot_index (one_hot n i) = inr (Z.of_nat i))
  ∧ ∃ indices,
      OneHotAction_step E (VDict items) (env, self) =
        inner (step E (VDict indices)) (env, self)
      ∧ ∀ k, k ∈ oh_keys self →
             dict_get k indices = Some (VInt (Z.of_nat (index k))).
Proof.
  intros Hkeys. split.
  - intros n i Hi. pose proof (one_hot_is_one_hot n i Hi) as Hoh.
    rewrite (one_hot_index_argmax _ i) by (by apply is_one_hot_argmax).
    by rewrite is_one_hot_tolerant.
  - destruct (one_hot_indices_fold items (oh_keys self) []) as (indices & Hfold & Hall).
    { intros k Hk. destruct (Hkeys k Hk) as [Hi Hget]. eexists. split; [exact Hget|].
      intros Hnil. pose proof (one_hot_length (size k) (index k)) as Hlen.
      rewrite Hnil in Hlen. cbn in Hlen. lia. }
    change (one_hot_indices (oh_keys self) (VDict items) = inr indices) in Hfold.
    exists indices. split.
    + by rewrite OneHotAction_step_decoded, Hfold.
    + intros k Hk. destruct (Hkeys k Hk) as [Hi Hget].
      pose proof (one_hot_is_one_hot _ _ Hi) as Hoh.
      rewrite (proj1 (Hall k) Hk _ (index k) Hget) by (by apply is_one_hot_argmax).
      by rewrite is_one_hot_tolerant.
Qed.

Lemma one_hot_round_trip_witness :
  ∃ indices,
    OneHotAction_step Dummy_env (VDict [("action", VArray (one_hot 4 2))])
      (tt, {| oh_keys := ["action"] |}) =
    inner (step Dummy_env (VDict indices)) (tt, {| oh_keys := ["action"] |})
    ∧ dict_get "action" indices = Some (VInt 2).
Proof.
  destruct (one_hot_round_trip Dummy_env tt {| oh_keys := ["action"] |}
              [("action", VArray (one_hot 4 2))] (λ _, 4%nat) (λ _, 2%nat))
    as (_ & indices & Hstep & Hget).
  - intros k Hk. apply list_elem_of_singleton in Hk as ->. split; [lia|reflexivity].
  - exists indices. split; [exact Hstep|]. apply Hget. by_evaluation.
Defined.

Lemma argmax_from_lt best_i best k xs :
  (best_i < k)%nat → (argmax_from best_i best k xs < k + length xs)%nat.
Proof.
  revert best_i best k. induction xs as [|x xs IH]; intros best_i best k Hlt; cbn.
  - lia.
  - destruct (argmax_takes best x).
    + specialize (IH k x (S k) ltac:(lia)). lia.
    + specialize (IH best_i best (S k) ltac:(lia)). lia.
Qed.

Lemma np_argmax_lt a i : np_argmax a = inr i → (i < length a)%nat.
Proof.
  destruct a as [|x xs]; [done|]. cbn. intros [= <-].
  pose proof (argmax_from_lt 0 x 1 xs ltac:(lia)). lia.
Qed.

Lemma isclose_finite (r : Q) (x : num) :
  isclose (Finite r) x = true →
  ∃ q, x = Finite q ∧ (Qabs (r - q) <= atol + rtol * Qabs q)%Q.
Proof.
  destruct x as [q| | |]; cbn [isclose num_eqb]; try done.
  intros Hle. exists q. split; [done|]. by apply Qle_bool_iff.
Qed.



Lemma one_hot_indices_failure (action : value) (keys : list string)
    (acc : result (dict string value)) :
  Exists (λ k, ∃ e, rbind (rbind (getitem action k) as_array) one_hot_index = inl e)
    keys →
  ∃ e,
    foldl (λ acc k,
       rbind acc (λ action_indices,
       rbind (rbind (getitem action k) as_array) (λ a,
       rbind (one_hot_index a) (λ index,
       inr (dict_set k (VInt index) action_indices)))))
      acc keys = inl e.
Proof.
  assert (∀ keys e,
    foldl (λ acc k,
       rbind acc (λ action_indices,
       rbind (rbind (getitem action k) as_array) (λ a,
       rbind (one_hot_index a) (λ index,
       inr (dict_set k (VInt index) action_indices)))))
      (inl e) keys = inl e) as Hstuck.
  { intros l e. induction l as [|k l IH]; [done|]. exact IH. }
  intros Hex. revert acc. induction Hex as [k keys [e He]|k keys _ IH]; intros acc.
  - cbn [foldl]. destruct acc as [e'|indices]; cbn [rbind].
    + exists e'. apply Hstuck.
    + destruct (rbind (getitem action k) as_array) as [e'|a]; cbn [rbind] in He |- *.
      * exists e'. apply Hstuck.
      * rewrite He. cbn [rbind]. exists e. apply Hstuck.
  - cbn [foldl]. apply IH.
Qed.

(** X21: if the action lacks the entry of some key of the action space, or
    holds an empty vector there, [OneHotAction.step] raises while decoding
    and the wrapped environment is not stepped: nothing is called and the
    state is unchanged. *)
Theorem OneHotAction_step_rejects (E : Env) (env : St E) (self : OneHotAction)
    (items : dict string value) :
  Exists (λ k, dict_get k items = None ∨ dict_get k items = Some (VArray []))
    (oh_keys self) →
  ∃ e, OneHotAction_step E (VDict items) (env, self) = ([], (env, self), inl e).
Proof.
  intros Hex. rewrite OneHotAction_step_decoded.
  destruct (one_hot_indices_failure (VDict items) (oh_keys self) (inr [])) as [e He].
  { eapply Exists_impl; [exact Hex|]. intros k [Hnone|Hempty]; cbn [getitem].
    - rewrite Hnone. by eexists.
    - rewrite Hempty. by eexists. }
  exists e. unfold one_hot_indices. by rewrite He.
Qed.

Lemma OneHotAction_step_rejects_witness :
  ∃ e, OneHotAction_step Dummy_env (VDict [("move", VArray [Finite 1])])
         (tt, {| oh_keys := ["action"] |}) =
       ([], (tt, {| oh_keys := ["action"] |}), inl e).
Proof.
  apply (OneHotAction_step_rejects Dummy_env tt {| oh_keys := ["action"] |}
           [("move", VArray [Finite 1])]).
  left. left. reflexivity.
Defined.

Section one_hot_spaces.
Context (og_space : spaces).

Lemma one_hot_space_fold (entries : dict string space) (acc : dict string space) :
  Forall (λ kv, dict_get kv.1 (space_items og_space) = Some kv.2
                ∧ is_discrete kv.2 = true) entries →
  foldl (λ acc k,
     rbind acc (λ new_space,
     rbind (spaces_get og_space k) (λ sp,
     rbind (space_n sp) (λ n,
     inr (dict_set k (BoxShaped (Finite 0) (Finite 1) [Z.to_nat n]) new_space)))))
    (inr acc) entries.*1 =
  inr (dict_update acc (one_hot_entry <$> entries)).
Proof.
  intros Hall. revert acc.
  induction Hall as [|[k sp] entries [Hget Hd] _ IH]; intros acc; [done|].
  cbn [fmap list_fmap foldl fst snd rbind]. cbn [fst snd] in Hget, Hd.
  assert (spaces_get og_space k = inr sp) as ->
    by (unfold spaces_get; by rewrite Hget).
  cbn [rbind]. destruct sp as [| |n]; try done. cbn [space_n rbind]. by rewrite IH.
Qed.

Lemma one_hot_space_fold_fails (entries : dict string space)
    (acc : result (dict string space)) :
  Forall (λ kv, dict_get kv.1 (space_items og_space) = Some kv.2) entries →
  acc = inl (AttributeError "n")
  ∨ ((∃ a, acc = inr a) ∧ Exists (λ kv, is_discrete kv.2 = false) entries) →
  foldl (λ acc k,
     rbind acc (λ new_space,
     rbind (spaces_get og_space k) (λ sp,
     rbind (space_n sp) (λ n,
     inr (dict_set k (BoxShaped (Finite 0) (Finite 1) [Z.to_nat n]) new_space)))))
    acc entries.*1 = inl (AttributeError "n").
Proof.
  intros Hall. revert acc.
  induction Hall as [|[k sp] entries Hget _ IH]; intros acc.
  - intros [->|[_ Hex]]; [done|]. by apply Exists_nil in Hex.
  - cbn [fmap list_fmap foldl fst snd]. cbn [fst snd] in Hget.
    intros [->|[[a ->] Hex]]; [apply IH; by left|]. apply IH.
    cbn [rbind].
    assert (spaces_get og_space k = inr sp) as ->
      by (unfold spaces_get; by rewrite Hget).
    cbn [rbind]. destruct sp as [| |n]; cbn [space_n rbind]; [by left|by left|].
    right. split; [by eexists|].
    apply Exists_cons in Hex as [Hd|Hex]; [done|exact Hex].
Qed.
End one_hot_spaces.



(** ** [RewardObs] and [ResetObs] *)

Section obs_wrapper_steps.
Context (E : Env).

Lemma RewardObs_step_returns action env f tr env' obs reward fin info :
  step E action env = (tr, env', inr (VTuple [VDict obs; reward; fin; info])) →
  RewardObs_step E action (env, f) =
    (tr, (env', f),
     inr (VTuple [VDict (dict_set "reward" reward obs); reward; fin; info])).
Proof.
  intros Hs. unfold RewardObs_step. run_method. rewrite Hs. cbn.
  by rewrite app_nil_r.
Qed.

Lemma ResetObs_step_returns action env f tr env' obs reward fin info :
  step E action env = (tr, env', inr (VTuple [VDict obs; reward; fin; info])) →
  ResetObs_step E action (env, f) =
    (tr, (env', f),
     inr (VTuple [VDict (dict_set "reset" (VBool false) obs); reward; fin; info])).
Proof.
  intros Hs. unfold ResetObs_step. run_method. rewrite Hs. cbn.
  by rewrite app_nil_r.
Qed.

Lemma RewardObs_reset_returns env f tr env' obs :
  reset E env = (tr, env', inr (VDict obs)) →
  RewardObs_reset E (env, f) =
    (tr, (env', f), inr (VDict (dict_set "reward" (VFloat (Finite 0)) obs))).
Proof.
  intros Hr. unfold RewardObs_reset. run_method. rewrite Hr. cbn.
  by rewrite app_nil_r.
Qed.

Lemma ResetObs_reset_returns env f tr env' obs :
  reset E env = (tr, env', inr (VDict obs)) →
  ResetObs_reset E (env, f) =
    (tr, (env', f), inr (VDict (dict_set "reset" (VBool true) obs))).
Proof.
  intros Hr. unfold ResetObs_reset. run_method. rewrite Hr. cbn.
  by rewrite app_nil_r.
Qed.
End obs_wrapper_steps.

(** X23: through the stack [ResetObs(RewardObs(env))] a step returns the
    reward, done and info of the wrapped step unchanged, with the same calls
    and the same state of the wrapped environment; its observation holds
    that reward under 'reward' and False under 'reset', and every other
    entry as the wrapped environment gave it. A reset returns the wrapped
    observation with 'reward' 0.0 and 'reset' True. *)
Theorem obs_wrappers_entries (E : Env) (env : St E) (fr : RewardObs) (fs : ResetObs)
    (tr : list event) (env' : St E) (obs : dict string value) :
  let stack := ResetObs_env (RewardObs_env E) in
  (∀ action reward fin info,
     step E action env = (tr, env', inr (VTuple [VDict obs; reward; fin; info])) →
     ∃ obs',
       step stack action (env, fr, fs) =
         (tr, (env', fr, fs), inr (VTuple [VDict obs'; reward; fin; info]))
       ∧ dict_get "reward" obs' = Some reward
       ∧ dict_get "reset" obs' = Some (VBool false)
       ∧ ∀ k, k ≠ "reward" → k ≠ "reset" → dict_get k obs' = dict_get k obs)
  ∧ (reset E env = (tr, env', inr (VDict obs)) →
     ∃ obs',
       reset stack (env, fr, fs) = (tr, (env', fr, fs), inr (VDict obs'))
       ∧ dict_get "reward" obs' = Some (VFloat (Finite 0))
       ∧ dict_get "reset" obs' = Some (VBool true)
       ∧ ∀ k, k ≠ "reward" → k ≠ "reset" → dict_get k obs' = dict_get k obs).
Proof.
  intros stack. split.
  - intros action reward fin info Hs. eexists. split.
    { subst stack. cbn [step ResetObs_env].
      apply (ResetObs_step_returns (RewardObs_env E)). cbn [step RewardObs_env].
      by apply RewardObs_step_returns. }
    split; [|split].
    + rewrite dict_get_set_ne by done. apply dict_get_set_eq.
    + apply dict_get_set_eq.
    + intros k Hk1 Hk2. by rewrite !dict_get_set_ne.
  - intros Hr. eexists. split.
    { subst stack. cbn [reset ResetObs_env].
      apply (ResetObs_reset_returns (RewardObs_env E)). cbn [reset RewardObs_env].
      by apply RewardObs_reset_returns. }
    split; [|split].
    + rewrite dict_get_set_ne by done. apply dict_get_set_eq.
    + apply dict_get_set_eq.
    + intros k Hk1 Hk2. by rewrite !dict_get_set_ne.
Qed.

Lemma obs_wrappers_entries_witness :
  ∃ obs',
    step (ResetObs_env (RewardObs_env Dummy_env)) (VDict [])
      (tt, {| ro_key := "reward" |}, {| rs_key := "reset" |}) =
    ([], (tt, {| ro_key := "reward" |}, {| rs_key := "reset" |}),
     inr (VTuple [VDict obs'; VFloat (Finite 0); VBool false; VDict []]))
    ∧ dict_get "reward" obs' = Some (VFloat (Finite 0))
    ∧ dict_get "image" obs' = Some (VImage [64; 64; 3]%nat 0).
Proof.
  destruct (proj1 (obs_wrappers_entries Dummy_env tt {| ro_key := "reward" |}
                     {| rs_key := "reset" |} [] tt
                     [("image", VImage [64; 64; 3]%nat 0)])
              (VDict []) (VFloat (Finite 0)) (VBool false) (VDict []) eq_refl)
    as (obs' & Hstep & Hreward & _ & Hother).
  exists obs'. split; [exact Hstep|]. split; [exact Hreward|].
  by rewrite Hother.
Defined.

(** X24: [RewardObs] and [ResetObs] ignore their [key] when they write the
    observation: the entries are always 'reward' and 'reset'. Built with
    another key over an environment that has neither, the wrapper advertises
    the key in [observation_space] and not 'reward' (or 'reset'), while the
    observation of a step holds 'reward' (or 'reset') and no entry for the
    key. *)
Theorem obs_wrapper_key_ignored (E : Env) (env : St E) (key : string)
    (sp : spaces) (items : dict string space) (action : value) (tr : list event)
    (env' : St E) (obs : dict string value) (reward fin info : value) :
  observation_space E env = inr sp →
  spaces_attr sp = inr items →
  step E action env = (tr, env', inr (VTuple [VDict obs; reward; fin; info])) →
  dict_get key obs = None →
  (key ≠ "reward" → dict_get "reward" items = None →
   ∃ sp' obs',
     observation_space (RewardObs_env E) (env, {| ro_key := key |}) = inr sp'
     ∧ is_Some (dict_get key (space_items sp'))
     ∧ dict_get "reward" (space_items sp') = None
     ∧ outcome (step (RewardObs_env E) action) (env, {| ro_key := key |}) =
         inr (VTuple [VDict obs'; reward; fin; info])
     ∧ dict_get key obs' = None
     ∧ dict_get "reward" obs' = Some reward)
  ∧ (key ≠ "reset" → dict_get "reset" items = None →
     ∃ sp' obs',
       observation_space (ResetObs_env E) (env, {| rs_key := key |}) = inr sp'
       ∧ is_Some (dict_get key (space_items sp'))
       ∧ dict_get "reset" (space_items sp') = None
       ∧ outcome (step (ResetObs_env E) action) (env, {| rs_key := key |}) =
           inr (VTuple [VDict obs'; reward; fin; info])
       ∧ dict_get key obs' = None
       ∧ dict_get "reset" obs' = Some (VBool false)).
Proof.
  intros Hsp Hitems Hs Hkey. split.
  - intros Hne Hnone. eexists _, _. split.
    { cbn. unfold extended_observation_space. rewrite Hsp. cbn [rbind].
      rewrite Hitems. reflexivity. }
    cbn [space_items]. split; [by rewrite dict_get_set_eq|].
    split; [by rewrite dict_get_set_ne|]. split.
    { unfold outcome. cbn [step RewardObs_env].
      by rewrite (RewardObs_step_returns E _ _ _ _ _ _ _ _ _ Hs). }
    split; [by rewrite dict_get_set_ne|apply dict_get_set_eq].
  - intros Hne Hnone. eexists _, _. split.
    { cbn. unfold extended_observation_space. rewrite Hsp. cbn [rbind].
      rewrite Hitems. reflexivity. }
    cbn [space_items]. split; [by rewrite dict_get_set_eq|].
    split; [by rewrite dict_get_set_ne|]. split.
    { unfold outcome. cbn [step ResetObs_env].
      by rewrite (ResetObs_step_returns E _ _ _ _ _ _ _ _ _ Hs). }
    split; [by rewrite dict_get_set_ne|apply dict_get_set_eq].
Qed.

Lemma obs_wrapper_key_ignored_witness :
  ∃ sp' obs',
    observation_space (RewardObs_env Dummy_env) (tt, {| ro_key := "r" |}) = inr sp'
    ∧ dict_keys (space_items sp') = ["image"; "r"]
    ∧ outcome (step (RewardObs_env Dummy_env) (VDict [])) (tt, {| ro_key := "r" |}) =
        inr (VTuple [VDict obs'; VFloat (Finite 0); VBool false; VDict []])
    ∧ dict_keys obs' = ["image"; "reward"].
Proof.
  destruct (proj1 (obs_wrapper_key_ignored Dummy_env tt "r" _ _ (VDict []) [] tt
                     [("image", VImage [64; 64; 3]%nat 0)] (VFloat (Finite 0))
                     (VBool false) (VDict []) eq_refl eq_refl eq_refl eq_refl)
              ltac:(done) eq_refl)
    as (sp' & obs' & Hsp & _ & _ & Hstep & _).
  exists sp', obs'. split; [exact Hsp|].
  cbn in Hsp. injection Hsp as <-. split; [reflexivity|].
  split; [exact Hstep|].
  unfold outcome in Hstep. cbn in Hstep. by injection Hstep as <-.
Defined.

(** X25: [RewardObs.__init__] and [ResetObs.__init__] succeed exactly when
    the key is not yet in the wrapped observation space, and call nothing.
    Since both wrappers advertise their key, wrapping a second time with the
    same key fails the assertion, whichever of the two wrappers is inside. *)
Theorem obs_wrapper_key_must_be_new (E : Env) (env : St E) (key : string)
    (sp : spaces) (items : dict string space) :
  observation_space E env = inr sp →
  spaces_attr sp = inr items →
  (RewardObs_init E env key =
     ([], if dict_mem key items then inl (AssertionError "")
          else inr (env, {| ro_key := key |})))
  ∧ (ResetObs_init E env key =
       ([], if dict_mem key items then inl (AssertionError "")
            else inr (env, {| rs_key := key |})))
  ∧ RewardObs_init (RewardObs_env E) (env, {| ro_key := key |}) key =
      ([], inl (AssertionError ""))
  ∧ ResetObs_init (RewardObs_env E) (env, {| ro_key := key |}) key =
      ([], inl (AssertionError ""))
  ∧ RewardObs_init (ResetObs_env E) (env, {| rs_key := key |}) key =
      ([], inl (AssertionError ""))
  ∧ ResetObs_init (ResetObs_env E) (env, {| rs_key := key |}) key =
      ([], inl (AssertionError "")).
Proof.
  intros Hsp Hitems.
  assert (∀ space, dict_mem key (dict_set key space items) = true) as Hmem.
  { intros space. unfold dict_mem. by rewrite dict_get_set_eq. }
  repeat split;
    unfold RewardObs_init, ResetObs_init, assert_new_key; cbn;
    unfold extended_observation_space; rewrite Hsp; cbn [rbind];
    rewrite ?Hitems; cbn [rbind spaces_attr is_gym_dict space_items];
    rewrite ?Hmem; try done; by destruct (dict_mem key items).
Qed.

Lemma obs_wrapper_key_must_be_new_witness :
  RewardObs_init Dummy_env tt "reward" = ([], inr (tt, {| ro_key := "reward" |}))
  ∧ RewardObs_init (RewardObs_env Dummy_env) (tt, {| ro_key := "reward" |}) "reward" =
    ([], inl (AssertionError "")).
Proof.
  pose proof (obs_wrapper_key_must_be_new Dummy_env tt "reward" _ _ eq_refl eq_refl)
    as (Hfirst & _ & Hsecond & _).
  split; [exact Hfirst|exact Hsecond].
Defined.

(** ** The attention layers: weights, heads, shapes *)

Section softmax_facts.
Local Open Scope R_scope.

Lemma sum_exp_pos (l : list R) : l ≠ [] → 0 < foldr Rplus 0 (exp <$> l).
Proof.
  destruct l as [|x l]; [done|]. intros _. cbn.
  assert (0 <= foldr Rplus 0 (exp <$> l)) as Hl.
  { induction l as [|y l IH]; cbn; [Lra.lra|]. pose proof (exp_pos y). Lra.lra. }
  pose proof (exp_pos x). Lra.lra.
Qed.

Lemma sum_scaled (f : R → R) (c : R) (l : list R) :
  foldr Rplus 0 ((λ x, f x / c) <$> l) = foldr Rplus 0 (f <$> l) / c.
Proof.
  induction l as [|x l IH]; cbn.
  - unfold Rdiv. ring.
  - rewrite IH. unfold Rdiv. ring.
Qed.

Lemma softmax_sum (l : list R) : l ≠ [] → foldr Rplus 0 (softmax l) = 1.
Proof.
  intros Hne. unfold softmax. rewrite sum_scaled.
  pose proof (sum_exp_pos l Hne). field. Lra.lra.
Qed.

Lemma softmax_pos (l : list R) : Forall (λ w, 0 < w) (softmax l).
Proof.
  destruct (decide (l = [])) as [->|Hne]; [constructor|].
  pose proof (sum_exp_pos l Hne) as Hpos. unfold softmax.
  apply Forall_fmap, Forall_forall. intros x _. cbn.
  apply Rdiv_lt_0_compat; [apply exp_pos|done].
Qed.
End softmax_facts.



Lemma concat_join {A} (l : list (list A)) : concat l = mjoin l.
Proof. induction l as [|x l IH]; [done|]. cbn. by rewrite IH. Qed.

Lemma fmap_lookup_seq {A} (row : list (list A)) (b : nat) :
  length row = b → (λ j, default [] (row !! j)) <$> seq 0 b = row.
Proof.
  intros Hlen. apply list_eq. intros j. rewrite list_lookup_fmap.
  destruct (decide (j < b)%nat) as [Hj|Hj].
  - rewrite lookup_seq_lt by done. cbn.
    destruct (row !! j) as [x|] eqn:Hx; [done|].
    apply lookup_ge_None in Hx. lia.
  - rewrite lookup_seq_ge by lia. cbn. symmetry. apply lookup_ge_None. lia.
Qed.

(** Exchanging two axes twice gives the tensor back. *)
Lemma transpose12_involutive {A} (a b : nat) (x : list (list (list A))) :
  length x = a → Forall (λ row, length row = b) x →
  transpose12 a (transpose12 b x) = x.
Proof.
  intros Ha Hb. unfold transpose12. apply list_eq. intros i.
  rewrite list_lookup_fmap.
  destruct (decide (i < a)%nat) as [Hi|Hi].
  - rewrite lookup_seq_lt by done. cbn.
    destruct (x !! i) as [row|] eqn:Hrow;
      [|apply lookup_ge_None in Hrow; lia].
    f_equal. rewrite <- list_fmap_compose.
    rewrite <- (fmap_lookup_seq row b)
      by (rewrite Forall_forall in Hb; apply Hb; by eapply list_elem_of_lookup_2).
    apply list_fmap_ext. intros _ j _. cbn.
    by rewrite list_lookup_fmap, Hrow.
  - rewrite lookup_seq_ge by lia. cbn. symmetry. apply lookup_ge_None. lia.
Qed.

(** X27: joining the heads undoes [split_heads]: on a tensor of shape
    (batch, seq_len, num_heads * depth), the transposition and reshape that
    [call] applies after the attention give back the tensor [split_heads]
    was applied to. *)
Theorem heads_round_trip (self : MultiHeadAttention) (b n : nat)
    (x : list (list (list R))) :
  shape3 b n (num_heads self * depth self) x →
  zip_with concat_heads ((λ m : list (list R), length m) <$> x) (split_heads self x) = x.
Proof.
  intros [_ Hx]. unfold split_heads.
  induction Hx as [|m x [Hn Hm] _ IH]; [done|].
  cbn [fmap list_fmap zip_with map]. f_equal; [|exact IH].
  unfold concat_heads. rewrite Hn.
  rewrite (transpose12_involutive n (num_heads self)).
  - rewrite <- list_fmap_compose. rewrite <- (list_fmap_id m) at 2.
    apply Forall_fmap_ext_1. eapply Forall_impl; [exact Hm|].
    intros row Hrow. cbn. rewrite concat_join. apply join_reshape.
    by rewrite sum_list_replicate.
  - by rewrite length_fmap.
  - apply Forall_fmap, Forall_forall. intros row _. cbn.
    by rewrite length_reshape, length_replicate.
Qed.

Lemma heads_round_trip_witness :
  let self := mha (mab demo_pooling) in
  zip_with concat_heads ((λ m : list (list R), length m) <$> demo_entities)
    (split_heads self demo_entities) = demo_entities.
Proof.
  intros self. apply (heads_round_trip self 2 3).
  split; [reflexivity|]. repeat constructor.
Defined.

(** X28: [MultiHeadAttention.call] does not depend on the order of the
    keys. Presenting the keys and values (and the key axis of the mask) in
    a permuted order leaves the output unchanged and permutes the returned
    attention weights along their last axis in the same way. *)
Theorem attention_weights_follow_keys (self : MultiHeadAttention)
    (q k v : list (list (list R))) (mask : option (list (list (list (list R)))))
    (pi : list nat) (n : nat) :
  pi ≡ₚ seq 0 n →
  Forall (λ m, length m = n) k →
  Forall (λ m, length m = n) v →
  match MultiHeadAttention_call self q k v mask with
  | Some (output, weights) =>
      MultiHeadAttention_call self q (permute pi <$> k) (permute pi <$> v)
        (permute_mask_keys pi <$> mask) =
      Some (output, map (map (map (permute pi))) weights)
  | None =>
      MultiHeadAttention_call self q (permute pi <$> k) (permute pi <$> v)
        (permute_mask_keys pi <$> mask) = None
  end.
Proof.
  intros Hpi Hk Hv.
  rewrite (MultiHeadAttention_call_permute pi n Hpi self q k v mask Hk Hv).
  by destruct (MultiHeadAttention_call self q k v mask) as [[output weights]|].
Qed.

Lemma attention_weights_follow_keys_witness :
  let self := mha (mab demo_pooling) in
  let pi := [2; 0; 1]%nat in
  ∃ output weights,
    MultiHeadAttention_call self [[[1; 2]]; [[1; 2]]]%R demo_entities demo_entities
      (Some demo_mask) = Some (output, weights)
    ∧ MultiHeadAttention_call self [[[1; 2]]; [[1; 2]]]%R
        (permute pi <$> demo_entities) (permute pi <$> demo_entities)
        (Some (permute_mask_keys pi demo_mask)) =
      Some (output, map (map (map (permute pi))) weights).
Proof.
  intros self pi.
  pose proof (attention_weights_follow_keys self [[[1; 2]]; [[1; 2]]]%R demo_entities
                demo_entities (Some demo_mask) pi 3) as Hperm.
  destruct (MultiHeadAttention_call self [[[1; 2]]; [[1; 2]]]%R demo_entities
              demo_entities (Some demo_mask)) as [[output weights]|] eqn:Hcall.
  - exists output, weights. split; [done|]. apply Hperm.
    + by_evaluation.
    + by repeat constructor.
    + by repeat constructor.
  - exfalso. vm_compute in Hcall. discriminate Hcall.
Defined.

(** X29: a [MultiHeadAttention] layer built by [__init__] with kernels for
    inputs of width [d_model], called on queries of shape (b, q, d_model),
    keys and values of shape (b, n, d_model) and a mask that is absent or
    broadcasts to (b, heads, q, n), returns an output of shape
    (b, q, d_model) and attention weights of shape (b, heads, q, n), as the
    comments of [call] state. *)
Theorem MultiHeadAttention_call_shapes (d h b q n : nat)
    (kq kk kv kf : list (list R)) (self : MultiHeadAttention)
    (xq xk xv : list (list (list R))) (mask : option (list (list (list (list R))))) :
  MultiHeadAttention_init d h kq kk kv kf = Some self →
  shape2 d d kq → shape2 d d kk → shape2 d d kv → shape2 d d kf →
  shape3 b q d xq → shape3 b n d xk → shape3 b n d xv →
  mask_fits b h q n mask →
  ∃ output weights,
    MultiHeadAttention_call self xq xk xv mask = Some (output, weights)
    ∧ shape3 b q d output
    ∧ shape4 b h q n weights.
Proof.
  intros Hinit Hkq Hkk Hkv Hkf Hq Hk Hv Hmask.
  destruct (MultiHeadAttention_init_shaped d h kq kk kv kf self Hinit Hkq Hkk Hkv Hkf)
    as (Hd & Hh & Hh0 & Hdepth & Hwq & Hwk & Hwv & Hff).
  unfold MultiHeadAttention_call.
  destruct (Dense_call_shape d d _ b q xq Hwq Hq) as (q' & -> & Hq').
  destruct (Dense_call_shape d d _ b n xk Hwk Hk) as (k' & -> & Hk').
  destruct (Dense_call_shape d d _ b n xv Hwv Hv) as (v' & -> & Hv').
  cbn [mbind option_bind].
  rewrite Hdepth, <- Hh in Hq', Hk', Hv'.
  apply split_heads_shape in Hq', Hk', Hv'. rewrite Hh in Hq', Hk', Hv'.
  destruct (scaled_dot_product_attention_shape b h q n _ _ _ _ _ mask Hq' Hk' Hv' Hmask)
    as (output & weights & -> & [Hbo Ho] & Hweights).
  cbn [mbind option_bind].
  assert (shape3 b q d
            (zip_with concat_heads ((λ m : list (list R), length m) <$> xq) output))
    as Hconcat.
  { destruct Hq as [Hbq Hq].
    destruct (zip_with_shape concat_heads (λ len, len = q)
                (shape3 h q (depth self)) (shape2 q d)
                ((λ m : list (list R), length m) <$> xq) output) as [Hlen Hall].
    - intros len heads -> Hheads. rewrite Hdepth. by apply concat_heads_shape.
    - rewrite length_fmap. congruence.
    - eapply fmap_shape; [|exact Hq]. by intros m [Hm _].
    - done.
    - split; [|done]. rewrite Hlen, length_fmap. done. }
  destruct (Dense_call_shape d d _ b q _ Hff Hconcat) as (out & -> & Hout).
  cbn [mbind option_bind]. by eexists _, _.
Qed.

Lemma MultiHeadAttention_call_shapes_witness :
  ∃ self output weights,
    MultiHeadAttention_init 2 2 [[1; 0]; [0; 1]]%R [[1; 0]; [0; 1]]%R
      [[1; 0]; [0; 1]]%R [[1; 0]; [0; 1]]%R = Some self
    ∧ MultiHeadAttention_call self [[[1; 2]]; [[1; 2]]]%R demo_entities demo_entities
        (Some demo_mask) = Some (output, weights)
    ∧ shape3 2 1 2 output ∧ shape4 2 2 1 3 weights.
Proof.
  eexists. 
  destruct (MultiHeadAttention_call_shapes 2 2 2 1 3 [[1; 0]; [0; 1]]%R
              [[1; 0]; [0; 1]]%R [[1; 0]; [0; 1]]%R [[1; 0]; [0; 1]]%R _
              [[[1; 2]]; [[1; 2]]]%R demo_entities demo_entities (Some demo_mask)
              eq_refl)
    as (output & weights & Hcall & Hout & Hw);
    try (split; [reflexivity|]; by repeat constructor).
  - split; [by left|]. repeat constructor; by left || by right.
  - exists output, weights. split; [reflexivity|]. by split.
Defined.


